(** * Proyecto_Trading_2: signal generator, position simulator, objective metric
      and walk-forward objective, embedded from [src/backtester.py],
      [src/optimizer.py] and [src/config.py]; further down the data loader,
      the indicator step, the split and the summary of [src/main.py].

    Numbers.  The program computes on float64.  Finite values are modelled as
    exact rationals ([Q], compared with [==]); rounding is not modelled, nor
    is the overflow of a sum, a product or a quotient of finite values.  The
    special values that float64 division and [**] produce (infinities, NaN,
    the overflow of a power to infinity) are modelled explicitly where the
    source can meet them, in the objective metric (type [xq] below).  The simulator divides only by
    the bar's close price, a market price and therefore positive; statements
    that depend on that division carry the hypothesis [0 < price]. *)

From Stdlib Require Import QArith Qabs ZArith List Bool Lia Lqa.
Import ListNotations.

Open Scope Q_scope.

(** ** Comparisons on floats, as booleans *)

Definition Qlt_bool (x y : Q) : bool := negb (Qle_bool y x).

(** ** Configuration ([src/config.py]) *)

Record Config : Type := mkConfig {
  initial_cash : Q;
  commission : Q
}.

Definition INITIAL_CASH : Q := 1000000.
Definition COMMISSION : Q := 125 # 100000.

Definition config_py : Config :=
  {| initial_cash := INITIAL_CASH; commission := COMMISSION |}.

(** ** Strategy parameters (the [params] dict) *)

Record Params : Type := mkParams {
  ema_len : Z;
  macd_fast : Z;
  macd_slow : Z;
  macd_signal : Z;
  adx_len : Z;
  adx_threshold : Q;
  stop_loss : Q;
  take_profit : Q;
  n_shares : Q
}.

(** ** Rows of the data frame handed to [Backtester]

    A row carries its timestamp (the index, in seconds), the [close] price and
    the four indicator columns whose names [_generate_signals] derives from
    the parameters ([EMA_n], [ADX_n], [MACD_f_s_g], [MACDs_f_s_g]).
    [add_indicators] ends with [dropna], so no column holds a NaN. *)

Record Bar : Type := mkBar {
  ts : Z;
  close : Q;
  ema : Q;
  adx : Q;
  macd_line : Q;
  macd_sig : Q
}.

Definition DataFrame : Type := list Bar.

(** ** Series operations used by [_generate_signals] *)

Module Series.

(** [s.shift(1)]: same length, a missing value in front. *)
Definition shift1 (s : list Q) : list (option Q) :=
  match s with
  | [] => []
  | _ :: _ => None :: map Some (removelast s)
  end.

Fixpoint zip_with {A B C : Type} (f : A -> B -> C)
         (xs : list A) (ys : list B) : list C :=
  match xs, ys with
  | x :: xs', y :: ys' => f x y :: zip_with f xs' ys'
  | _, _ => []
  end.

(** [shift1] pushes every value one row down; what enters a row is the value
    of the row before it. *)
Fixpoint shift_from (p : option Q) (s : list Q) : list (option Q) :=
  match s with
  | [] => []
  | x :: s' => p :: shift_from (Some x) s'
  end.

(** Comparisons with a missing value are [False]. *)
Definition lt_na (x y : option Q) : bool :=
  match x, y with
  | Some a, Some b => Qlt_bool a b
  | _, _ => false
  end.

Definition gt_na (x y : option Q) : bool := lt_na y x.

(** [.astype(int)] *)
Definition as_int (b : bool) : Z := if b then 1%Z else 0%Z.

Definition two_of_three (a b c : bool) : bool :=
  (2 <=? as_int a + as_int b + as_int c)%Z.

Fixpoint zip_with3 {A B C D : Type} (f : A -> B -> C -> D)
         (xs : list A) (ys : list B) (zs : list C) : list D :=
  match xs, ys, zs with
  | x :: xs', y :: ys', z :: zs' => f x y z :: zip_with3 f xs' ys' zs'
  | _, _, _ => []
  end.

End Series.

(** ** [Backtester._generate_signals] *)

Module Signals.
Import Series.

Section Conditions.
Variable params : Params.
Variable data : DataFrame.

Definition cond_ema_up : list bool :=
  zip_with (fun c e => Qlt_bool e c) (map close data) (map ema data).

Definition cond_ema_down : list bool :=
  zip_with (fun c e => Qlt_bool c e) (map close data) (map ema data).

Definition cond_adx_strong : list bool :=
  map (fun a => Qlt_bool (adx_threshold params) a) (map adx data).

Definition cond_macd_cross_up : list bool :=
  zip_with andb
    (zip_with lt_na (shift1 (map macd_line data)) (shift1 (map macd_sig data)))
    (zip_with (fun m s => Qlt_bool s m) (map macd_line data) (map macd_sig data)).

Definition cond_macd_cross_down : list bool :=
  zip_with andb
    (zip_with gt_na (shift1 (map macd_line data)) (shift1 (map macd_sig data)))
    (zip_with (fun m s => Qlt_bool m s) (map macd_line data) (map macd_sig data)).

Definition buy_signal : list bool :=
  zip_with3 two_of_three cond_ema_up cond_adx_strong cond_macd_cross_up.

Definition sell_signal : list bool :=
  zip_with3 two_of_three cond_ema_down cond_adx_strong cond_macd_cross_down.
End Conditions.

(** The two columns that [_generate_signals] adds to the data frame:
    [buy_signal] and [sell_signal]. *)
Definition _generate_signals (params : Params) (data : DataFrame)
  : list bool * list bool :=
  (buy_signal params data, sell_signal params data).

(** The bar before bar [i], if there is one. *)
Definition prev_bar (data : DataFrame) (i : nat) : option Bar :=
  match i with
  | O => None
  | S j => nth_error data j
  end.

(** The value of the signal columns in the row of [b], whose preceding row
    is [prev]. *)
Definition buy_at (params : Params) (prev : option Bar) (b : Bar) : bool :=
  two_of_three
    (Qlt_bool (ema b) (close b))
    (Qlt_bool (adx_threshold params) (adx b))
    (lt_na (option_map macd_line prev) (option_map macd_sig prev)
     && Qlt_bool (macd_sig b) (macd_line b)).

Definition sell_at (params : Params) (prev : option Bar) (b : Bar) : bool :=
  two_of_three
    (Qlt_bool (close b) (ema b))
    (Qlt_bool (adx_threshold params) (adx b))
    (gt_na (option_map macd_line prev) (option_map macd_sig prev)
     && Qlt_bool (macd_line b) (macd_sig b)).

End Signals.

(** ** [Backtester.run] *)

Module Backtester.

(** The loop variables [cash], [position], [entry_price]. *)
Record State : Type := mkState {
  cash : Q;
  position : Q;
  entry_price : Q
}.

(** [cash = self.initial_cash; position = 0.0; entry_price = 0.0] *)
Definition init (cfg : Config) : State :=
  {| cash := initial_cash cfg; position := 0; entry_price := 0 |}.

(** The body of [for i in range(1, len(self.data))], for the bar whose close
    is [current_price] and whose signals are [buy] and [sell].  It returns the
    loop variables after the bar and the value appended to
    [portfolio_values]. *)
Definition bar_body (cfg : Config) (params : Params) (st : State)
           (current_price : Q) (buy sell : bool) : State * Q :=
  let stop_loss_pct := stop_loss params in
  let take_profit_pct := take_profit params in
  (* 1. close on stop-loss or take-profit *)
  let st1 :=
    if Qlt_bool 0 (position st) then
      let stop_loss_price := entry_price st * (1 - stop_loss_pct) in
      let take_profit_price := entry_price st * (1 + take_profit_pct) in
      if Qle_bool current_price stop_loss_price
         || Qle_bool take_profit_price current_price
      then {| cash := cash st + position st * current_price * (1 - commission cfg);
              position := 0;
              entry_price := entry_price st |}
      else st
    else if Qlt_bool (position st) 0 then
      let stop_loss_price := entry_price st * (1 + stop_loss_pct) in
      let take_profit_price := entry_price st * (1 - take_profit_pct) in
      if Qle_bool stop_loss_price current_price
         || Qle_bool current_price take_profit_price
      then {| cash := cash st
                      - Qabs (position st) * current_price * (1 + commission cfg);
              position := 0;
              entry_price := entry_price st |}
      else st
    else st in
  (* 2. open when no position is held *)
  let st2 :=
    if Qeq_bool (position st1) 0 then
      if buy then
        let investment_amount := cash st1 * n_shares params in
        let cost := investment_amount * (1 + commission cfg) in
        if Qlt_bool cost (cash st1)
        then {| cash := cash st1 - cost;
                position := investment_amount / current_price;
                entry_price := current_price |}
        else st1
      else if sell then
        let investment_amount := cash st1 * n_shares params in
        let proceeds := investment_amount * (1 - commission cfg) in
        {| cash := cash st1 + proceeds;
           position := - (investment_amount / current_price);
           entry_price := current_price |}
      else st1
    else st1 in
  (* 3. value of the portfolio at this bar *)
  let portfolio_value :=
    if Qlt_bool 0 (position st2) then cash st2 + position st2 * current_price
    else if Qlt_bool (position st2) 0
         then cash st2 - Qabs (position st2) * current_price
         else cash st2 in
  (st2, portfolio_value).

(** What the loop reads at bar [i]: [close.iloc[i]], [buy_signal.iloc[i]],
    [sell_signal.iloc[i]]. *)
Definition Reading : Type := (Q * bool * bool)%type.

Definition readings (params : Params) (data : DataFrame) : list Reading :=
  let signals := Signals._generate_signals params data in
  Series.zip_with3 (fun c b s => (c, b, s))
    (map close data) (fst signals) (snd signals).

(** The loop, started in [st], over the readings of the bars it visits; one
    entry per bar: the loop variables after the bar and the value recorded. *)
Fixpoint loop (cfg : Config) (params : Params) (st : State)
         (rs : list Reading) : list (State * Q) :=
  match rs with
  | [] => []
  | (current_price, buy, sell) :: rs' =>
      let r := bar_body cfg params st current_price buy sell in
      r :: loop cfg params (fst r) rs'
  end.

(** The run visits bars [1 .. len-1]. *)
Definition trace (cfg : Config) (params : Params) (data : DataFrame)
  : list (State * Q) :=
  loop cfg params (init cfg) (tl (readings params data)).

Definition portfolio_values (cfg : Config) (params : Params)
           (data : DataFrame) : list Q :=
  map snd (trace cfg params data).

(** [run(return_value_series=True)]:
    [pd.Series(portfolio_values, index=self.data.index[1:])] *)
Definition run_series (cfg : Config) (params : Params) (data : DataFrame)
  : list (Z * Q) :=
  combine (map ts (tl data)) (portfolio_values cfg params data).

(** [run()]: [portfolio_values[-1] if portfolio_values else self.initial_cash] *)
Definition run (cfg : Config) (params : Params) (data : DataFrame) : Q :=
  last (portfolio_values cfg params data) (initial_cash cfg).

(** State and recorded value at bar [i >= 1] of a run. *)
Definition at_bar (cfg : Config) (params : Params) (data : DataFrame)
           (i : nat) : option (State * Q) :=
  match i with
  | O => None
  | S k => nth_error (trace cfg params data) k
  end.

End Backtester.

(** ** The per-bar transition as the specification words it

    [Flat], [Long] and [Short] are read off the sign of [position]; the three
    phases are the exit check, the entry check and the mark-to-market. *)

Module Phases.
Import Backtester.

Inductive Side : Type := Flat | Long | Short.

Definition side (st : State) : Side :=
  if Qlt_bool 0 (position st) then Long
  else if Qlt_bool (position st) 0 then Short
  else Flat.

Definition exit_triggered (params : Params) (st : State) (price : Q) : bool :=
  match side st with
  | Flat => false
  | Long =>
      let stop := entry_price st * (1 - stop_loss params) in
      let target := entry_price st * (1 + take_profit params) in
      Qle_bool price stop || Qle_bool target price
  | Short =>
      let stop := entry_price st * (1 + stop_loss params) in
      let target := entry_price st * (1 - take_profit params) in
      Qle_bool stop price || Qle_bool price target
  end.

Definition close_at (cfg : Config) (st : State) (price : Q) : State :=
  match side st with
  | Flat => st
  | Long =>
      {| cash := cash st + position st * price * (1 - commission cfg);
         position := 0; entry_price := entry_price st |}
  | Short =>
      {| cash := cash st - Qabs (position st) * price * (1 + commission cfg);
         position := 0; entry_price := entry_price st |}
  end.

Definition exit_check (cfg : Config) (params : Params) (st : State)
           (price : Q) : State :=
  if exit_triggered params st price then close_at cfg st price else st.

Definition open_long (cfg : Config) (params : Params) (st : State)
           (price : Q) : State :=
  let investment := cash st * n_shares params in
  let outlay := investment * (1 + commission cfg) in
  if Qlt_bool outlay (cash st)
  then {| cash := cash st - outlay; position := investment / price;
          entry_price := price |}
  else st.

Definition open_short (cfg : Config) (params : Params) (st : State)
           (price : Q) : State :=
  let investment := cash st * n_shares params in
  {| cash := cash st + investment * (1 - commission cfg);
     position := - (investment / price);
     entry_price := price |}.

Definition entry_check (cfg : Config) (params : Params) (st : State)
           (price : Q) (buy sell : bool) : State :=
  match side st with
  | Flat =>
      if buy then open_long cfg params st price
      else if sell then open_short cfg params st price
      else st
  | _ => st
  end.

Definition mark_to_market (st : State) (price : Q) : Q :=
  match side st with
  | Long => cash st + position st * price
  | Short => cash st - Qabs (position st) * price
  | Flat => cash st
  end.

Definition transition (cfg : Config) (params : Params) (st : State)
           (price : Q) (buy sell : bool) : State * Q :=
  let st1 := exit_check cfg params st price in
  let st2 := entry_check cfg params st1 price buy sell in
  (st2, mark_to_market st2 price).

End Phases.

(** ** float64 values with their infinities and NaN

    [XFin q] is the finite value [q]; zero is taken as [+0.0]. *)

Module XFloat.

Inductive xq : Type :=
| XFin (q : Q)
| XPInf
| XNInf
| XNaN.

Definition xopp (x : xq) : xq :=
  match x with
  | XFin q => XFin (- q)
  | XPInf => XNInf
  | XNInf => XPInf
  | XNaN => XNaN
  end.

Definition xadd (x y : xq) : xq :=
  match x, y with
  | XNaN, _ | _, XNaN => XNaN
  | XFin a, XFin b => XFin (a + b)
  | XPInf, XNInf | XNInf, XPInf => XNaN
  | XPInf, _ | _, XPInf => XPInf
  | XNInf, _ | _, XNInf => XNInf
  end.

Definition xsub (x y : xq) : xq :=
  match x, y with
  | XFin a, XFin b => XFin (a - b)
  | _, _ => xadd x (xopp y)
  end.

Definition xdiv (x y : xq) : xq :=
  match x, y with
  | XNaN, _ | _, XNaN => XNaN
  | XFin a, XFin b =>
      if Qeq_bool b 0 then
        if Qeq_bool a 0 then XNaN
        else if Qlt_bool 0 a then XPInf else XNInf
      else XFin (a / b)
  | XFin _, (XPInf | XNInf) => XFin 0
  | XPInf, XFin b => if Qlt_bool b 0 then XNInf else XPInf
  | XNInf, XFin b => if Qlt_bool b 0 then XPInf else XNInf
  | (XPInf | XNInf), (XPInf | XNInf) => XNaN
  end.

Definition xabs (x : xq) : xq :=
  match x with
  | XFin q => XFin (Qabs q)
  | XPInf | XNInf => XPInf
  | XNaN => XNaN
  end.

(** [x < y]; [False] as soon as one side is NaN. *)
Definition xlt_bool (x y : xq) : bool :=
  match x, y with
  | XNaN, _ | _, XNaN => false
  | XFin a, XFin b => Qlt_bool a b
  | XNInf, (XFin _ | XPInf) => true
  | XFin _, XPInf => true
  | _, _ => false
  end.

Definition is_integer (e : Q) : bool := (Zpos (Qden (Qred e)) =? 1)%Z.
Definition is_odd_integer (e : Q) : bool :=
  is_integer e && Z.odd (Qnum (Qred e)).

(** The largest finite float64, [sys.float_info.max]. *)
Definition FLOAT_MAX : Q := inject_Z (2 ^ 1024 - 2 ^ 971).

(** A real result stored as a float64: beyond the largest finite float it
    overflows to an infinity. *)
Definition overflow (r : Q) : xq :=
  if Qlt_bool FLOAT_MAX r then XPInf
  else if Qlt_bool r (- FLOAT_MAX) then XNInf
  else XFin r.

(** [b ** e] for a finite exponent [e > 0].  [rpow] is the real power of a
    positive base; the float64 result overflows to an infinity when that
    power is beyond [FLOAT_MAX]. *)
Definition xpow (rpow : Q -> Q -> Q) (b : xq) (e : Q) : xq :=
  match b with
  | XNaN => XNaN
  | XPInf => XPInf
  | XNInf => if is_odd_integer e then XNInf else XPInf
  | XFin q =>
      if Qlt_bool 0 q then overflow (rpow q e)
      else if Qeq_bool q 0 then XFin 0
      else if is_integer e
           then overflow (if is_odd_integer e then - rpow (- q) e
                          else rpow (- q) e)
           else XNaN
  end.

(** [Series.min()], which skips NaN and is NaN when nothing is left. *)
Definition xmin2 (a b : xq) : xq :=
  match a, b with
  | XNaN, _ => b
  | _, XNaN => a
  | _, _ => if xlt_bool b a then b else a
  end.

Definition xmin_skipna (l : list xq) : xq := fold_left xmin2 l XNaN.

(** [sum(l)] *)
Definition xsum (l : list xq) : xq := fold_left xadd l (XFin 0).

End XFloat.

(** ** [Optimizer._calculate_objective_metric] and [Optimizer.objective] *)

Module Optimizer.
Import XFloat.

(** [Series.cummax()] on finite values. *)
Fixpoint cummax_from (m : Q) (l : list Q) : list Q :=
  match l with
  | [] => []
  | x :: l' =>
      let m' := if Qlt_bool m x then x else m in
      m' :: cummax_from m' l'
  end.

Definition cummax (l : list Q) : list Q :=
  match l with
  | [] => []
  | x :: l' => x :: cummax_from x l'
  end.

Definition drawdown_series (values : list Q) : list xq :=
  Series.zip_with (fun v m => xdiv (xsub (XFin v) (XFin m)) (XFin m))
    values (cummax values).

Definition max_drawdown_of (values : list Q) : xq :=
  xabs (xmin_skipna (drawdown_series values)).

(** [(index[-1] - index[0]).total_seconds() / 3600.0] *)
Definition elapsed_hours (series : list (Z * Q)) : Q :=
  inject_Z (fst (last series (0%Z, 0)) - fst (hd (0%Z, 0) series)) / 3600.

Definition total_return_of (series : list (Z * Q)) : xq :=
  xsub (xdiv (XFin (snd (last series (0%Z, 0))))
             (XFin (snd (hd (0%Z, 0) series))))
       (XFin 1).

Definition annualized_return_of (rpow : Q -> Q -> Q)
           (series : list (Z * Q)) : xq :=
  xsub (xpow rpow (xadd (XFin 1) (total_return_of series))
             (8760 / elapsed_hours series))
       (XFin 1).

Definition _calculate_objective_metric (rpow : Q -> Q -> Q)
           (portfolio_value_series : list (Z * Q)) : xq :=
  if (length portfolio_value_series <? 2)%nat then XFin 0
  else
    let n_hours := elapsed_hours portfolio_value_series in
    if Qlt_bool n_hours 1 then XFin 0
    else
      let annualized_return := annualized_return_of rpow portfolio_value_series in
      let max_drawdown := max_drawdown_of (map snd portfolio_value_series) in
      if xlt_bool max_drawdown (XFin (1 # 100)) then XFin 0
      else xdiv annualized_return max_drawdown.

(** A row of the market data set ([data_loader.load_data]). *)
Record Candle : Type := mkCandle {
  c_date : Z;
  c_open : Q;
  c_high : Q;
  c_low : Q;
  c_close : Q;
  c_volume : Q
}.

(** The three pandas_ta indicators that [add_indicators] calls.  Each
    returns its columns aligned with the rows it was given; [None] is NaN.
    [ta_macd] yields the MACD line, the histogram and the signal line,
    [ta_adx] the ADX and the two directional lines.

    On a data frame with too few rows for an indicator's length the library
    appends no column at all.  [ta_appends df ema_len macd_fast macd_slow
    macd_signal adx_len] tells whether the three calls of [add_indicators]
    append their columns to [df]; when it is [false] the frame that
    [add_indicators] returns lacks a column that [Backtester] reads, the
    column functions below are not consulted for it, and
    [Backtester._generate_signals] raises [KeyError]. *)
Record TA : Type := mkTA {
  ta_ema : list Candle -> Z -> list (option Q);
  ta_macd : list Candle -> Z -> Z -> Z -> list (option Q * option Q * option Q);
  ta_adx : list Candle -> Z -> list (option Q * option Q * option Q);
  ta_appends : list Candle -> Z -> Z -> Z -> Z -> Z -> bool
}.

Fixpoint zip_with4 {A B C D E : Type} (f : A -> B -> C -> D -> E)
         (ws : list A) (xs : list B) (ys : list C) (zs : list D) : list E :=
  match ws, xs, ys, zs with
  | w :: ws', x :: xs', y :: ys', z :: zs' =>
      f w x y z :: zip_with4 f ws' xs' ys' zs'
  | _, _, _, _ => []
  end.

(** A row with its indicator columns; [None] when one of them is NaN. *)
Definition complete_row (c : Candle) (e : option Q)
           (m : option Q * option Q * option Q)
           (a : option Q * option Q * option Q) : option Bar :=
  match e, m, a with
  | Some e', (Some ml, Some _, Some ms), (Some ad, Some _, Some _) =>
      Some {| ts := c_date c; close := c_close c; ema := e'; adx := ad;
              macd_line := ml; macd_sig := ms |}
  | _, _, _ => None
  end.

(** [data.dropna(inplace=True)] *)
Fixpoint dropna (rows : list (option Bar)) : DataFrame :=
  match rows with
  | [] => []
  | Some b :: rows' => b :: dropna rows'
  | None :: rows' => dropna rows'
  end.

(** [indicator_calculator.add_indicators]: the rows of the returned frame
    with their indicator values.  Whether the frame has its indicator
    columns at all is [ta_appends]. *)
Definition add_indicators (ta : TA) (df : list Candle)
           (ema_len macd_fast macd_slow macd_signal adx_len : Z) : DataFrame :=
  dropna (zip_with4 complete_row df
            (ta_ema ta df ema_len)
            (ta_macd ta df macd_fast macd_slow macd_signal)
            (ta_adx ta df adx_len)).

Definition n_splits : nat := 10.

(** [self.data.iloc[start_idx:end_idx]] *)
Definition iloc_slice {A : Type} (l : list A) (start_idx end_idx : nat) : list A :=
  firstn (end_idx - start_idx) (skipn start_idx l).

(** What a call of [Optimizer.objective] does: it returns its score, or
    [KeyError] leaves it when a block has no indicator column.  [blocks]
    lists the data frames on which the simulation loop of a [Backtester] was
    run, in order. *)
Inductive Outcome : Type :=
| Returned (blocks : list DataFrame) (score : xq)
| Raised_KeyError (blocks : list DataFrame).

Section WalkForward.

Variable ta : TA.
(** The real power of a positive base, used by [**]. *)
Variable rpow : Q -> Q -> Q.
(** [INITIAL_CASH] and [COMMISSION], which [Backtester] reads from config. *)
Variable cfg : Config.

Definition block_metric (params : Params) (chunk_with_indicators : DataFrame)
  : xq :=
  let portfolio_values :=
    Backtester.run_series cfg params chunk_with_indicators in
  match portfolio_values with
  | [] => XFin (- 1)
  | _ :: _ => _calculate_objective_metric rpow portfolio_values
  end.

(** The chunk of split [i] with its indicators. *)
Definition block (data : list Candle) (params : Params) (chunk_size i : nat)
  : DataFrame :=
  let start_idx := (i * chunk_size)%nat in
  let end_idx := ((i + 1) * chunk_size)%nat in
  let chunk := iloc_slice data start_idx end_idx in
  add_indicators ta chunk (ema_len params) (macd_fast params)
                 (macd_slow params) (macd_signal params) (adx_len params).

(** Whether the chunk of split [i] gets its indicator columns. *)
Definition block_has_columns (data : list Candle) (params : Params)
           (chunk_size i : nat) : bool :=
  let start_idx := (i * chunk_size)%nat in
  let end_idx := ((i + 1) * chunk_size)%nat in
  let chunk := iloc_slice data start_idx end_idx in
  ta_appends ta chunk (ema_len params) (macd_fast params)
             (macd_slow params) (macd_signal params) (adx_len params).

(** [sum(objective_metrics) / len(objective_metrics)], [-1.0] on no metric. *)
Definition mean_metric (objective_metrics : list xq) : xq :=
  match objective_metrics with
  | [] => XFin (- 1)
  | _ :: _ =>
      xdiv (xsum objective_metrics)
           (XFin (inject_Z (Z.of_nat (length objective_metrics))))
  end.

(** The [for i in range(n_splits)] loop over the splits still to do, with
    the frames simulated and the metrics collected so far. *)
Fixpoint walk_forward (data : list Candle) (params : Params)
         (chunk_size : nat) (splits : list nat)
         (simulated : list DataFrame) (objective_metrics : list xq)
  : Outcome :=
  match splits with
  | [] => Returned simulated (mean_metric objective_metrics)
  | i :: splits' =>
      if block_has_columns data params chunk_size i then
        let chunk_with_indicators := block data params chunk_size i in
        walk_forward data params chunk_size splits'
          (simulated ++ [chunk_with_indicators])
          (objective_metrics ++ [block_metric params chunk_with_indicators])
      else Raised_KeyError simulated
  end.

(** [Optimizer.objective] on the parameters the trial suggests. *)
Definition objective (data : list Candle) (params : Params) : Outcome :=
  if (macd_slow params <=? macd_fast params)%Z then Returned [] (XFin (- 1))
  else
    let len_data := length data in
    let chunk_size := (len_data / n_splits)%nat in
    if (chunk_size <? 30)%nat then Returned [] (XFin (- 1))
    else walk_forward data params chunk_size (seq 0 n_splits) [] [].

End WalkForward.

(** A stand-in for the indicator library, for examples: the trend line is
    read from the [open] column and has no value on the first
    [length - 1] rows, the ADX is read from the [volume] column, the MACD
    columns are zero; no column is appended to a frame with fewer rows than
    one of the lengths. *)
Definition stub_ta : TA :=
  {| ta_ema := fun df n =>
       repeat None (Nat.min (Z.to_nat (n - 1)) (length df))
       ++ map (fun c => Some (c_open c)) (skipn (Z.to_nat (n - 1)) df);
     ta_macd := fun df _ _ _ => map (fun _ => (Some 0, Some 0, Some 0)) df;
     ta_adx := fun df _ => map (fun c => (Some (c_volume c), Some 0, Some 0)) df;
     ta_appends := fun df ema_len macd_fast macd_slow macd_signal adx_len =>
       let rows := Z.of_nat (length df) in
       (ema_len <=? rows)%Z && (macd_fast <=? rows)%Z && (macd_slow <=? rows)%Z
       && (macd_signal <=? rows)%Z && (adx_len <=? rows)%Z
  |}.

(** A stand-in for the power function, for examples. *)
Definition stub_pow (b e : Q) : Q := b.

(** The real power at the exponents that are integers (another exponent is
    truncated), for examples. *)
Definition int_pow (b e : Q) : Q := Qpower b (Qnum e / Zpos (Qden e))%Z.

(** An hourly row whose stand-in indicators are [trend] and [strength]. *)
Definition candle (i : nat) (price trend strength : Q) : Candle :=
  {| c_date := 3600 * Z.of_nat i; c_open := trend; c_high := price;
     c_low := price; c_close := price; c_volume := strength |}.

(** 600 hourly rows at price 100 with no signal. *)
Definition quiet_market : list Candle :=
  map (fun i => candle i 100 100 10) (seq 0 600).

(** 600 hourly rows; in every stretch of 60 the price is 100 up to row 50,
    where the close is under the trend line with a strong ADX, and 400 from
    row 51 on. *)
Definition gap_market : list Candle :=
  map (fun i =>
         let k := (i mod 60)%nat in
         if (k <? 50)%nat then candle i 100 100 10
         else if (k =? 50)%nat then candle i 100 101 40
         else candle i 400 400 10)
      (seq 0 600).

(** 600 hourly rows whose price moves between 100 and 104, with no signal
    from the stand-in indicators. *)
Definition choppy_market : list Candle :=
  map (fun i => candle i (100 + inject_Z (Z.of_nat (i mod 5))) 100 10)
      (seq 0 600).

End Optimizer.

(** ** Sample data for the statements below *)

Definition sample_params : Params :=
  {| ema_len := 50; macd_fast := 12; macd_slow := 26; macd_signal := 9;
     adx_len := 14; adx_threshold := 25;
     stop_loss := 8 # 100; take_profit := 15 # 100; n_shares := 1 # 2 |}.

(** A bar above its trend line with a strong ADX. *)
Definition bullish_bar (t : Z) (c : Q) : Bar :=
  {| ts := t; close := c; ema := c - 1; adx := 40;
     macd_line := 0; macd_sig := 0 |}.

(** A bar below its trend line with a strong ADX. *)
Definition bearish_bar (t : Z) (c : Q) : Bar :=
  {| ts := t; close := c; ema := c + 1; adx := 40;
     macd_line := 0; macd_sig := 0 |}.

(** A bar on its trend line with a weak ADX: no vote at all. *)
Definition quiet_bar (t : Z) (c : Q) : Bar :=
  {| ts := t; close := c; ema := c; adx := 10;
     macd_line := 0; macd_sig := 0 |}.

(** The loop variables with which the run reaches bar [i]. *)
Definition state_before (cfg : Config) (params : Params) (data : DataFrame)
           (i : nat) : Backtester.State :=
  match i with
  | S (S k) =>
      match nth_error (Backtester.trace cfg params data) k with
      | Some (st, _) => st
      | None => Backtester.init cfg
      end
  | _ => Backtester.init cfg
  end.

(** The scenario of the specification: ten hourly bars, close 100 up to bar 4
    and 130 from bar 5 on, a buy signal at bar 1 only, take-profit 0.2. *)
Definition scenario_params : Params :=
  {| ema_len := 50; macd_fast := 12; macd_slow := 26; macd_signal := 9;
     adx_len := 14; adx_threshold := 25;
     stop_loss := 5 # 100; take_profit := 2 # 10; n_shares := 1 # 2 |}.

Definition scenario_data : DataFrame :=
  [ quiet_bar 0 100; bullish_bar 3600 100; quiet_bar 7200 100;
    quiet_bar 10800 100; quiet_bar 14400 100; quiet_bar 18000 130;
    quiet_bar 21600 130; quiet_bar 25200 130; quiet_bar 28800 130;
    quiet_bar 32400 130 ].

(** A short entered at 100 and stopped out at 400 one bar later; the sell
    signal is still up at the bar of the stop. *)
Definition gap_data_resell : DataFrame :=
  [ quiet_bar 0 100; bearish_bar 3600 100; bearish_bar 7200 400 ].

(** The same gap, with no signal at the bar of the stop. *)
Definition gap_data : DataFrame :=
  [ quiet_bar 0 100; bearish_bar 3600 100; quiet_bar 7200 400 ].

(** Parameters with a zero stop-loss distance: a Long is closed as soon as
    the price is back at the entry price. *)
Definition tight_stop_params : Params :=
  {| ema_len := 50; macd_fast := 12; macd_slow := 26; macd_signal := 9;
     adx_len := 14; adx_threshold := 25;
     stop_loss := 0; take_profit := 15 # 100; n_shares := 1 # 2 |}.

(** A block of eleven hourly bars: a short entered at bar 1 at price 100 and
    stopped out at bar 2 at price 400, then no signal. *)
Definition gap_block : DataFrame :=
  [ quiet_bar 176400 100; bearish_bar 180000 100; quiet_bar 183600 400;
    quiet_bar 187200 400; quiet_bar 190800 400; quiet_bar 194400 400;
    quiet_bar 198000 400; quiet_bar 201600 400; quiet_bar 205200 400;
    quiet_bar 208800 400; quiet_bar 212400 400 ].

(** A short entered at 100, held at 95 and stopped out at 110. *)
Definition short_trade_data : DataFrame :=
  [ quiet_bar 0 100; bearish_bar 3600 100; quiet_bar 7200 95;
    quiet_bar 10800 110; quiet_bar 14400 110 ].

(** Parameters that commit the whole cash to a position. *)
Definition full_size_params : Params :=
  {| ema_len := 50; macd_fast := 12; macd_slow := 26; macd_signal := 9;
     adx_len := 14; adx_threshold := 25;
     stop_loss := 8 # 100; take_profit := 15 # 100; n_shares := 1 |}.

(** A short entered at 100 and stopped out at 400 one bar later, at a bar
    that carries a buy signal. *)
Definition gap_data_rebuy : DataFrame :=
  [ quiet_bar 0 100; bearish_bar 3600 100; bullish_bar 7200 400 ].

(** Parameters whose fast MACD period is not below the slow one. *)
Definition crossed_macd_params : Params :=
  {| ema_len := 50; macd_fast := 30; macd_slow := 22; macd_signal := 9;
     adx_len := 14; adx_threshold := 25;
     stop_loss := 8 # 100; take_profit := 15 # 100; n_shares := 1 # 2 |}.

(** ** Auxiliary definitions for the proofs *)

Import Series Signals Backtester XFloat.

(** A finite value equal to zero. *)
Definition zero_fin (x : xq) : Prop := exists q, x = XFin q /\ q == 0.

(** A finite value that is at least [q]. *)
Definition fin_ge (q : Q) (x : xq) : Prop := exists a, x = XFin a /\ q <= a.

(** The shape in which a run keeps its state while it is solvent: cash is
    positive, and an open short still has the size that was sold from the
    cash it was entered with. *)
Definition covered (cfg : Config) (p : Params) (st : State) : Prop :=
  0 < cash st
  /\ (position st < 0 ->
      Qabs (position st) * entry_price st
      * (1 + n_shares p * (1 - commission cfg))
      == cash st * n_shares p).


(** The state in which [loop], started in [st], reaches its [k]-th reading. *)
Definition reached (cfg : Config) (p : Params) (st : State)
           (rs : list Reading) (k : nat) : State :=
  match k with
  | O => st
  | S j => match nth_error (loop cfg p st rs) j with
           | Some (s', _) => s'
           | None => st
           end
  end.

(** The signal columns, row by row: each row is computed from the row itself
    and the row before it. *)
Fixpoint rows_from (f : option Bar -> Bar -> bool) (prev : option Bar)
         (data : DataFrame) : list bool :=
  match data with
  | [] => []
  | b :: rest => f prev b :: rows_from f (Some b) rest
  end.

From Stdlib Require Import Sorted Permutation Qround.
From Stdlib Require String Ascii.

(** * The rest of the program: [main.py], [data_loader.py],
      [reporting.py] and the chunks of [Optimizer.objective] *)

(** The rows of split [i] of the walk-forward loop:
    [self.data.iloc[i * chunk_size:(i + 1) * chunk_size]]. *)
Definition chunk (data : list Optimizer.Candle) (chunk_size i : nat)
  : list Optimizer.Candle :=
  Optimizer.iloc_slice data (i * chunk_size) ((i + 1) * chunk_size).

(** ** [main.py]: the 60/20/20 split *)

Module Main.

(** [int(len(market_data) * 0.6)] and [int(len(market_data) * 0.8)], with
    the product taken exactly. *)
Definition train_end_index (len : nat) : nat :=
  Z.to_nat (Qfloor (inject_Z (Z.of_nat len) * (6 # 10))).

Definition validation_end_index (len : nat) : nat :=
  Z.to_nat (Qfloor (inject_Z (Z.of_nat len) * (8 # 10))).

(** [train_set], [validation_set] and [test_set] of [main]. *)
Definition split {A : Type} (market_data : list A)
  : list A * list A * list A :=
  let train_end := train_end_index (length market_data) in
  let validation_end := validation_end_index (length market_data) in
  (Optimizer.iloc_slice market_data 0 train_end,
   Optimizer.iloc_slice market_data train_end validation_end,
   skipn validation_end market_data).

End Main.

(** ** [data_loader.load_data] *)

Module DataLoader.
Import String.

Definition date_col : string := "date".
Definition volume_usdt_col : string := "volume usdt".
Definition volume_col : string := "volume".
Definition open_col : string := "open".
Definition high_col : string := "high".
Definition low_col : string := "low".
Definition close_col : string := "close".

Section Loader.

(** A cell of the file as [pd.read_csv] delivers it. *)
Variable Cell : Type.
(** [col.strip().lower()] *)
Variable normalize : String.string -> String.string.
(** [pd.to_datetime] on one cell with the format ['%d/%m/%Y %H:%M'] and
    [errors='coerce']; [None] is NaT. *)
Variable to_datetime : Cell -> option Z.

(** The file read: its header and its records, each record aligned with the
    header.  After normalisation two names of the header can be the same. *)
Record Csv : Type := mkCsv {
  header : list String.string;
  records : list (list Cell)
}.

(** A frame indexed by date: the names of its columns and, per row, the
    date and the cells aligned with the columns. *)
Record Frame : Type := mkFrame {
  columns : list String.string;
  rows : list (Z * list Cell)
}.

Fixpoint index_of (name : String.string) (cols : list String.string)
  : option nat :=
  match cols with
  | [] => None
  | c :: cols' =>
      if String.eqb c name then Some O
      else option_map S (index_of name cols')
  end.

Fixpoint remove_nth {A : Type} (i : nat) (l : list A) : list A :=
  match l, i with
  | [], _ => []
  | _ :: l', O => l'
  | x :: l', S j => x :: remove_nth j l'
  end.

(** The parsed date of a record whose date cell is in column [di]. *)
Definition date_of (di : nat) (record : list Cell) : option Z :=
  match nth_error record di with
  | Some c => to_datetime c
  | None => None
  end.

(** [df.dropna(subset=['date'])] followed by [df.set_index('date')] *)
Fixpoint index_by_date (di : nat) (recs : list (list Cell))
  : list (Z * list Cell) :=
  match recs with
  | [] => []
  | r :: recs' =>
      match date_of di r with
      | Some d => (d, remove_nth di r) :: index_by_date di recs'
      | None => index_by_date di recs'
      end
  end.

Definition mem_date (d : Z) (seen : list Z) : bool :=
  existsb (Z.eqb d) seen.

(** [df.index.has_duplicates] *)
Fixpoint has_duplicates (dates : list Z) : bool :=
  match dates with
  | [] => false
  | d :: dates' => mem_date d dates' || has_duplicates dates'
  end.

(** [df[~df.index.duplicated(keep='first')]] *)
Fixpoint keep_first (seen : list Z) (l : list (Z * list Cell))
  : list (Z * list Cell) :=
  match l with
  | [] => []
  | (d, cells) :: l' =>
      if mem_date d seen then keep_first seen l'
      else (d, cells) :: keep_first (d :: seen) l'
  end.

(** [df.sort_index()], on an index without duplicates. *)
Fixpoint insert_row (r : Z * list Cell) (l : list (Z * list Cell))
  : list (Z * list Cell) :=
  match l with
  | [] => [r]
  | x :: l' =>
      if (fst r <=? fst x)%Z then r :: l else x :: insert_row r l'
  end.

Definition sort_index (l : list (Z * list Cell)) : list (Z * list Cell) :=
  fold_right insert_row [] l.

Definition required_cols : list String.string :=
  [open_col; high_col; low_col; close_col; volume_col].

(** [df.rename(columns={'volume usdt': 'volume'})] *)
Definition rename_volume (cols : list String.string) : list String.string :=
  map (fun c => if String.eqb c volume_usdt_col then volume_col
                else c) cols.

(** The cells of one row under the columns called [name], in column
    order. *)
Fixpoint cells_named (name : String.string) (cols : list String.string)
         (cells : list Cell) : list Cell :=
  match cols, cells with
  | c :: cols', x :: cells' =>
      if String.eqb name c then x :: cells_named name cols' cells'
      else cells_named name cols' cells'
  | _, _ => []
  end.

(** [df[required_cols]]: for each required name in turn, every column of
    that name.  First the names of the columns, then the cells of a row. *)
Definition selected_columns (cols : list String.string)
  : list String.string :=
  flat_map (fun name => filter (String.eqb name) cols) required_cols.

Definition select_required (cols : list String.string) (cells : list Cell)
  : list Cell :=
  flat_map (fun name => cells_named name cols cells) required_cols.

(** The columns of the frame once the date column [di] has become the index
    and ['volume usdt'] has been renamed. *)
Definition renamed_columns (cols : list String.string) (di : nat)
  : list String.string :=
  let cols1 := remove_nth di cols in
  if existsb (String.eqb volume_usdt_col) cols1
  then rename_volume cols1 else cols1.

(** [load_data()]; the argument is what [pd.read_csv(DATA_PATH)] yields,
    [None] when the file does not exist.  The result [None] is the [None]
    the function returns after a [FileNotFoundError], a [KeyError] or any
    other exception. *)
Definition load_data (file : option Csv) : option Frame :=
  match file with
  | None => None
  | Some df =>
      let cols := map normalize (header df) in
      match index_of date_col cols with
      | None => None
      | Some di =>
          (* with a second column called 'date', [df['date']] is a frame
             and [pd.to_datetime] raises ValueError *)
          if existsb (String.eqb date_col) (remove_nth di cols) then None
          else
            let indexed := index_by_date di (records df) in
            let unique :=
              if has_duplicates (map fst indexed)
              then keep_first [] indexed else indexed in
            let sorted := sort_index unique in
            let cols2 := renamed_columns cols di in
            if forallb (fun name => existsb (String.eqb name) cols2)
                       required_cols
            then Some {| columns := selected_columns cols2;
                         rows := map (fun r =>
                                        (fst r, select_required cols2 (snd r)))
                                     sorted |}
            else None
      end
  end.

End Loader.

(** A small file for examples: cells are integers, a negative date cell
    does not parse, header names are already normalised. *)
Definition sample_header : list string :=
  [date_col; "open"; "high"; "low"; "close"; volume_usdt_col; "tradecount"]%string.

Definition sample_csv : Csv Z :=
  {| header := sample_header;
     records := [ [7200; 11; 12; 10; 11; 500; 3]%Z;
                  [3600; 10; 11; 9; 10; 400; 2]%Z;
                  [-1; 0; 0; 0; 0; 0; 0]%Z;
                  [7200; 99; 99; 99; 99; 999; 9]%Z;
                  [0; 9; 10; 8; 9; 300; 1]%Z ] |}.

Definition sample_to_datetime (c : Z) : option Z :=
  if (c <? 0)%Z then None else Some c.

(** A file whose header has both a volume and a "volume usdt" column. *)
Definition two_volumes_csv : Csv Z :=
  {| header := [date_col; "open"; "high"; "low"; "close"; volume_col;
                volume_usdt_col]%string;
     records := [ [3600; 10; 11; 9; 10; 4; 400]%Z;
                  [0; 9; 10; 8; 9; 3; 300]%Z ] |}.

End DataLoader.

(** ** [reporting.generate_performance_report]: the returns series *)

Module Reporting.
Import XFloat.

(** [portfolio_value_series.pct_change()]: the first entry is NaN, every
    other one is [value / previous - 1]. *)
Definition pct_change (values : list Q) : list xq :=
  match values with
  | [] => []
  | _ :: later =>
      XNaN :: Series.zip_with
                (fun previous v => xsub (xdiv (XFin v) (XFin previous)) (XFin 1))
                values later
  end.

Definition is_nan (x : xq) : bool :=
  match x with XNaN => true | _ => false end.

(** [.dropna()] *)
Definition dropna (s : list xq) : list xq :=
  filter (fun x => negb (is_nan x)) s.

(** [returns = portfolio_value_series.pct_change().dropna()] *)
Definition returns (values : list Q) : list xq := dropna (pct_change values).

End Reporting.

(** ** [main.print_results] *)

Module Summary.
Import XFloat.

Definition xmul (x y : xq) : xq :=
  match x, y with
  | XNaN, _ | _, XNaN => XNaN
  | XFin a, XFin b => XFin (a * b)
  | XFin a, XPInf | XPInf, XFin a =>
      if Qeq_bool a 0 then XNaN else if Qlt_bool 0 a then XPInf else XNInf
  | XFin a, XNInf | XNInf, XFin a =>
      if Qeq_bool a 0 then XNaN else if Qlt_bool 0 a then XNInf else XPInf
  | XPInf, XPInf | XNInf, XNInf => XPInf
  | XPInf, XNInf | XNInf, XPInf => XNInf
  end.

(** What [print_results] writes: the "no analysis" line, or the four
    figures of the summary. *)
Inductive Printed : Type :=
| NoAnalysis
| Figures (initial_cash final_value : Q)
          (total_return_pct annualized_return_pct : xq).

Definition print_results (rpow : Q -> Q -> Q)
           (portfolio_series : list (Z * Q)) (initial_cash : Q) : Printed :=
  match portfolio_series with
  | [] => NoAnalysis
  | _ :: _ =>
      let final_value := snd (last portfolio_series (0%Z, 0)) in
      if Qle_bool final_value 0 then NoAnalysis
      else
        let total_return_pct :=
          xmul (xdiv (XFin (final_value - initial_cash)) (XFin initial_cash))
               (XFin 100) in
        let n_hours := Optimizer.elapsed_hours portfolio_series in
        let annualized_return_pct :=
          if Qlt_bool 0 n_hours
          then
            let annualized_return :=
              xsub (xpow rpow
                         (xadd (XFin 1) (xdiv total_return_pct (XFin 100)))
                         (8760 / n_hours))
                   (XFin 1) in
            xmul annualized_return (XFin 100)
          else XFin 0 in
        Figures initial_cash final_value total_return_pct
                annualized_return_pct
  end.

End Summary.


Lemma Qlt_bool_iff (x y : Q) : Qlt_bool x y = true <-> x < y.
Proof.
  unfold Qlt_bool. rewrite negb_true_iff.
  split; intro H.
  - apply Qnot_le_lt. intro L. apply Qle_bool_iff in L. congruence.
  - destruct (Qle_bool y x) eqn:E; trivial.
    apply Qle_bool_iff in E. exfalso. apply (Qlt_not_le _ _ H E).
Qed.

Lemma Qlt_bool_false (x y : Q) : Qlt_bool x y = false <-> y <= x.
Proof.
  unfold Qlt_bool. rewrite negb_false_iff. apply Qle_bool_iff.
Qed.

Lemma Qle_bool_false (x y : Q) : Qle_bool x y = false <-> y < x.
Proof.
  rewrite <- Qlt_bool_iff. unfold Qlt_bool.
  destruct (Qle_bool x y); simpl; split; congruence.
Qed.

Lemma Qeq_bool_false (x y : Q) : Qeq_bool x y = false <-> ~ x == y.
Proof.
  split.
  - apply Qeq_bool_neq.
  - intro H. destruct (Qeq_bool x y) eqn:E; trivial.
    apply Qeq_bool_iff in E. contradiction.
Qed.

(** * Properties *)

Import Series Signals.

(** ** List facts behind the column operations *)

Lemma zip_with_app {A B C : Type} (f : A -> B -> C) (xs1 xs2 : list A)
      (ys1 ys2 : list B) :
  length xs1 = length ys1 ->
  zip_with f (xs1 ++ xs2) (ys1 ++ ys2)
  = zip_with f xs1 ys1 ++ zip_with f xs2 ys2.
Proof.
  revert ys1. induction xs1 as [|x xs1 IH]; intros [|y ys1] H; simpl in *;
    try discriminate; trivial.
  f_equal. apply IH. now injection H.
Qed.

Lemma zip_with_length {A B C : Type} (f : A -> B -> C) (xs : list A)
      (ys : list B) :
  length xs = length ys -> length (zip_with f xs ys) = length xs.
Proof.
  revert ys. induction xs as [|x xs IH]; intros [|y ys] H; simpl in *;
    try discriminate; trivial.
  f_equal. apply IH. now injection H.
Qed.

Lemma zip_with3_app {A B C D : Type} (f : A -> B -> C -> D)
      (xs1 xs2 : list A) (ys1 ys2 : list B) (zs1 zs2 : list C) :
  length xs1 = length ys1 -> length xs1 = length zs1 ->
  zip_with3 f (xs1 ++ xs2) (ys1 ++ ys2) (zs1 ++ zs2)
  = zip_with3 f xs1 ys1 zs1 ++ zip_with3 f xs2 ys2 zs2.
Proof.
  revert ys1 zs1.
  induction xs1 as [|x xs1 IH]; intros [|y ys1] [|z zs1] H1 H2; simpl in *;
    try discriminate; trivial.
  f_equal. apply IH; congruence.
Qed.

Lemma zip_with3_length {A B C D : Type} (f : A -> B -> C -> D)
      (xs : list A) (ys : list B) (zs : list C) :
  length xs = length ys -> length xs = length zs ->
  length (zip_with3 f xs ys zs) = length xs.
Proof.
  revert ys zs.
  induction xs as [|x xs IH]; intros [|y ys] [|z zs] H1 H2; simpl in *;
    try discriminate; trivial.
  f_equal. apply IH; congruence.
Qed.

Lemma shift_from_cons (p : option Q) (x : Q) (s : list Q) :
  shift_from p (x :: s) = p :: map Some (removelast (x :: s)).
Proof.
  revert p x. induction s as [|y s IH]; intros p x; trivial.
  change (shift_from p (x :: y :: s)) with (p :: shift_from (Some x) (y :: s)).
  rewrite IH. reflexivity.
Qed.

Lemma shift1_shift_from (s : list Q) : shift1 s = shift_from None s.
Proof.
  destruct s as [|x s]; trivial. now rewrite shift_from_cons.
Qed.

Lemma shift_from_length (p : option Q) (s : list Q) :
  length (shift_from p s) = length s.
Proof.
  revert p. induction s as [|x s IH]; intro p; simpl; auto.
Qed.

Lemma shift_from_app (p : option Q) (s r : list Q) :
  exists q, shift_from p (s ++ r) = shift_from p s ++ shift_from q r.
Proof.
  revert p. induction s as [|x s IH]; intro p; simpl.
  - now exists p.
  - destruct (IH (Some x)) as [q Hq]. exists q. now rewrite Hq.
Qed.

Lemma shift1_length (s : list Q) : length (shift1 s) = length s.
Proof. rewrite shift1_shift_from. apply shift_from_length. Qed.

(** ** Signals of a data frame that is extended at its end *)

Lemma cross_app (lt1 : option Q -> option Q -> bool) (cmp : Q -> Q -> bool)
      (m s m' s' : list Q) :
  length m = length s ->
  exists t,
    zip_with andb
      (zip_with lt1 (shift1 (m ++ m')) (shift1 (s ++ s')))
      (zip_with cmp (m ++ m') (s ++ s'))
    = zip_with andb (zip_with lt1 (shift1 m) (shift1 s)) (zip_with cmp m s) ++ t.
Proof.
  intro H. rewrite !shift1_shift_from.
  destruct (shift_from_app None m m') as [q1 ->].
  destruct (shift_from_app None s s') as [q2 ->].
  rewrite (zip_with_app lt1), (zip_with_app cmp), (zip_with_app andb).
  - eexists. reflexivity.
  - rewrite !zip_with_length; rewrite ?shift_from_length; auto.
  - exact H.
  - now rewrite !shift_from_length.
Qed.

Ltac column_lengths :=
  repeat (rewrite ?zip_with_length, ?shift1_length, ?length_map; trivial).

Lemma buy_signal_app (p : Params) (l r : DataFrame) :
  exists t, buy_signal p (l ++ r) = buy_signal p l ++ t.
Proof.
  unfold buy_signal, cond_ema_up, cond_adx_strong, cond_macd_cross_up.
  rewrite !map_app.
  destruct (cross_app lt_na (fun m s => Qlt_bool s m)
              (map macd_line l) (map macd_sig l)
              (map macd_line r) (map macd_sig r)) as [t ->].
  { column_lengths. }
  rewrite zip_with_app by column_lengths.
  rewrite zip_with3_app.
  - eexists. reflexivity.
  - column_lengths.
  - column_lengths.
Qed.

Lemma sell_signal_app (p : Params) (l r : DataFrame) :
  exists t, sell_signal p (l ++ r) = sell_signal p l ++ t.
Proof.
  unfold sell_signal, cond_ema_down, cond_adx_strong, cond_macd_cross_down.
  rewrite !map_app.
  destruct (cross_app gt_na (fun m s => Qlt_bool m s)
              (map macd_line l) (map macd_sig l)
              (map macd_line r) (map macd_sig r)) as [t ->].
  { column_lengths. }
  rewrite zip_with_app by column_lengths.
  rewrite zip_with3_app.
  - eexists. reflexivity.
  - column_lengths.
  - column_lengths.
Qed.

Lemma buy_signal_length (p : Params) (l : DataFrame) :
  length (buy_signal p l) = length l.
Proof.
  unfold buy_signal, cond_ema_up, cond_adx_strong, cond_macd_cross_up.
  rewrite zip_with3_length; column_lengths.
Qed.

Lemma sell_signal_length (p : Params) (l : DataFrame) :
  length (sell_signal p l) = length l.
Proof.
  unfold sell_signal, cond_ema_down, cond_adx_strong, cond_macd_cross_down.
  rewrite zip_with3_length; column_lengths.
Qed.

(** ** The simulation loop on a data frame that is extended at its end *)

Import Backtester.

Lemma readings_columns (p : Params) (data : DataFrame) :
  readings p data
  = zip_with3 (fun c b s => (c, b, s))
      (map close data) (buy_signal p data) (sell_signal p data).
Proof. reflexivity. Qed.

Lemma readings_app (p : Params) (l r : DataFrame) :
  exists t, readings p (l ++ r) = readings p l ++ t.
Proof.
  rewrite !readings_columns.
  destruct (buy_signal_app p l r) as [tb ->].
  destruct (sell_signal_app p l r) as [tsl ->].
  rewrite map_app, zip_with3_app.
  - eexists. reflexivity.
  - now rewrite length_map, buy_signal_length.
  - now rewrite length_map, sell_signal_length.
Qed.

Lemma readings_length (p : Params) (l : DataFrame) :
  length (readings p l) = length l.
Proof.
  rewrite readings_columns, zip_with3_length.
  - apply length_map.
  - now rewrite length_map, buy_signal_length.
  - now rewrite length_map, sell_signal_length.
Qed.

Lemma loop_app (cfg : Config) (p : Params) (st : State) (a b : list Reading) :
  exists t, loop cfg p st (a ++ b) = loop cfg p st a ++ t.
Proof.
  revert st. induction a as [|[[c bu] se] a IH]; intro st; cbn [loop app].
  - eexists. reflexivity.
  - destruct (IH (fst (bar_body cfg p st c bu se))) as [t ->].
    eexists. reflexivity.
Qed.

Lemma loop_length (cfg : Config) (p : Params) (st : State) (a : list Reading) :
  length (loop cfg p st a) = length a.
Proof.
  revert st. induction a as [|[[c bu] se] a IH]; intro st;
    cbn [loop length]; auto.
Qed.

Lemma trace_app (cfg : Config) (p : Params) (l r : DataFrame) :
  exists t, trace cfg p (l ++ r) = trace cfg p l ++ t.
Proof.
  unfold trace. destruct (readings_app p l r) as [t ->].
  destruct (readings p l) as [|x rs]; simpl.
  - eexists. reflexivity.
  - apply loop_app.
Qed.

Lemma trace_length (cfg : Config) (p : Params) (l : DataFrame) :
  length (trace cfg p l) = (length l - 1)%nat.
Proof.
  unfold trace. rewrite loop_length.
  generalize (readings_length p l).
  destruct (readings p l); simpl; intros <-; lia.
Qed.

Lemma nth_error_prefix {A : Type} (a t : list A) (i : nat) :
  (i < length a)%nat -> nth_error (a ++ t) i = nth_error a i.
Proof. intro H. now apply nth_error_app1. Qed.

(** ** C8: the signals of bar 0 *)

(** C8, the claim refuted: a first bar that closes above its trend line with
    a strong ADX carries a buy signal. *)
Lemma first_bar_buy_signal :
  nth_error (buy_signal sample_params [bullish_bar 0 100; quiet_bar 3600 100]) 0
  = Some true.
Proof. reflexivity. Qed.

(** C8, amended. At bar 0 the MACD cross conditions are false in both
    directions, because the shifted columns have no value there; the buy
    signal of bar 0 is true exactly when the close is above the trend line and
    the ADX is above its threshold, the sell signal exactly when the close is
    below the trend line and the ADX is above its threshold. *)
Theorem first_bar_signals (p : Params) (b : Bar) (rest : DataFrame) :
  nth_error (cond_macd_cross_up (b :: rest)) 0 = Some false
  /\ nth_error (cond_macd_cross_down (b :: rest)) 0 = Some false
  /\ nth_error (buy_signal p (b :: rest)) 0
     = Some (Qlt_bool (ema b) (close b) && Qlt_bool (adx_threshold p) (adx b))
  /\ nth_error (sell_signal p (b :: rest)) 0
     = Some (Qlt_bool (close b) (ema b) && Qlt_bool (adx_threshold p) (adx b)).
Proof.
  repeat split; cbn;
    try (unfold two_of_three;
         destruct (Qlt_bool _ _), (Qlt_bool _ _); reflexivity);
    reflexivity.
Qed.

(** ** The loop body and the three phases *)

Import Phases.

Lemma Qlt_bool_irrefl_eq (x y : Q) :
  Qeq_bool x y = true -> Qlt_bool x y = false /\ Qlt_bool y x = false.
Proof.
  intro H. apply Qeq_bool_iff in H.
  split; apply Qlt_bool_false; rewrite H; apply Qle_refl.
Qed.

Lemma Qeq_bool_trichotomy (x y : Q) :
  Qeq_bool x y = false -> Qlt_bool x y = true \/ Qlt_bool y x = true.
Proof.
  intro H. apply Qeq_bool_false in H.
  destruct (Q_dec x y) as [[L|G]|E].
  - left. now apply Qlt_bool_iff.
  - right. now apply Qlt_bool_iff.
  - contradiction.
Qed.

Lemma Qlt_bool_asym (x y : Q) : Qlt_bool x y = true -> Qlt_bool y x = false.
Proof.
  intro H. apply Qlt_bool_iff in H. apply Qlt_bool_false. now apply Qlt_le_weak.
Qed.

Lemma side_flat_iff (st : State) :
  side st = Flat <-> Qeq_bool (position st) 0 = true.
Proof.
  unfold side. split.
  - destruct (Qlt_bool 0 (position st)) eqn:E1; try discriminate.
    destruct (Qlt_bool (position st) 0) eqn:E2; try discriminate.
    intros _. destruct (Qeq_bool (position st) 0) eqn:E; trivial.
    destruct (Qeq_bool_trichotomy _ _ E); congruence.
  - intro H. destruct (Qlt_bool_irrefl_eq _ _ H) as [-> ->]. reflexivity.
Qed.

Lemma side_cases (st : State) :
  (side st = Long /\ Qlt_bool 0 (position st) = true
   /\ Qeq_bool (position st) 0 = false)
  \/ (side st = Short /\ Qlt_bool 0 (position st) = false
      /\ Qlt_bool (position st) 0 = true /\ Qeq_bool (position st) 0 = false)
  \/ (side st = Flat /\ Qlt_bool 0 (position st) = false
      /\ Qlt_bool (position st) 0 = false /\ Qeq_bool (position st) 0 = true).
Proof.
  destruct (Qeq_bool (position st) 0) eqn:E.
  - right. right. destruct (Qlt_bool_irrefl_eq _ _ E) as [H1 H2].
    repeat split; trivial. now apply side_flat_iff.
  - unfold side. destruct (Qeq_bool_trichotomy _ _ E) as [H|H].
    + right. left. rewrite (Qlt_bool_asym _ _ H), H. auto.
    + left. rewrite H. auto.
Qed.

Lemma side_flat_zero (c e : Q) :
  side {| cash := c; position := 0; entry_price := e |} = Flat.
Proof. reflexivity. Qed.

(** The loop body computes the exit check, then the entry check on the
    state the exit check left, then the mark-to-market of the result. *)
Lemma bar_body_transition (cfg : Config) (p : Params) (st : State)
      (price : Q) (buy sell : bool) :
  bar_body cfg p st price buy sell = transition cfg p st price buy sell.
Proof.
  unfold transition, bar_body.
  assert (H1 : exit_check cfg p st price
               = (if Qlt_bool 0 (position st)
                  then if Qle_bool price (entry_price st * (1 - stop_loss p))
                          || Qle_bool (entry_price st * (1 + take_profit p)) price
                       then {| cash := cash st + position st * price
                                                 * (1 - commission cfg);
                               position := 0; entry_price := entry_price st |}
                       else st
                  else if Qlt_bool (position st) 0
                  then if Qle_bool (entry_price st * (1 + stop_loss p)) price
                          || Qle_bool price (entry_price st * (1 - take_profit p))
                       then {| cash := cash st - Qabs (position st) * price
                                                 * (1 + commission cfg);
                               position := 0; entry_price := entry_price st |}
                       else st
                  else st)).
  { unfold exit_check, exit_triggered, close_at, side.
    destruct (Qlt_bool 0 (position st)); [reflexivity|].
    destruct (Qlt_bool (position st) 0); reflexivity. }
  cbv zeta. rewrite <- H1. clear H1.
  set (st1 := exit_check cfg p st price).
  assert (H2 : entry_check cfg p st1 price buy sell
               = (if Qeq_bool (position st1) 0
                  then if buy
                       then if Qlt_bool (cash st1 * n_shares p
                                         * (1 + commission cfg)) (cash st1)
                            then {| cash := cash st1 - cash st1 * n_shares p
                                                       * (1 + commission cfg);
                                    position := cash st1 * n_shares p / price;
                                    entry_price := price |}
                            else st1
                       else if sell
                            then {| cash := cash st1 + cash st1 * n_shares p
                                                       * (1 - commission cfg);
                                    position := - (cash st1 * n_shares p / price);
                                    entry_price := price |}
                            else st1
                  else st1)).
  { unfold entry_check, open_long, open_short.
    destruct (side_cases st1) as [(-> & _ & ->)|[(-> & _ & _ & ->)|(-> & _ & _ & ->)]];
      reflexivity. }
  rewrite <- H2. clear H2.
  unfold mark_to_market, side.
  destruct (Qlt_bool 0 _); [reflexivity|].
  destruct (Qlt_bool _ 0); reflexivity.
Qed.

(** ** The run, bar by bar *)

Lemma nth_error_zip_with3 {A B C D : Type} (f : A -> B -> C -> D)
      (xs : list A) (ys : list B) (zs : list C) (i : nat) :
  nth_error (zip_with3 f xs ys zs) i
  = match nth_error xs i, nth_error ys i, nth_error zs i with
    | Some x, Some y, Some z => Some (f x y z)
    | _, _, _ => None
    end.
Proof.
  revert ys zs i.
  induction xs as [|x xs IH]; intros [|y ys] [|z zs] [|i]; simpl; trivial;
    try (destruct (nth_error xs i); trivial;
         destruct (nth_error ys i); trivial).
  all: try apply IH.
Qed.

Lemma loop_nth (cfg : Config) (p : Params) (rs : list Reading) :
  forall (st : State) (k : nat) (c : Q) (b s : bool),
    nth_error rs k = Some (c, b, s) ->
    nth_error (loop cfg p st rs) k
    = Some (bar_body cfg p (reached cfg p st rs k) c b s).
Proof.
  induction rs as [|[[c0 b0] s0] rs IH]; intros st k c b s H.
  - destruct k; discriminate.
  - destruct k as [|k].
    + injection H as -> -> ->. reflexivity.
    + cbn [loop nth_error] in *.
      rewrite (IH _ _ _ _ _ H). do 2 f_equal.
      unfold reached. destruct k as [|j]; trivial.
      cbn [loop nth_error].
      assert (Hj : nth_error rs j <> None).
      { apply nth_error_Some.
        assert (nth_error rs (S j) <> None) by congruence.
        apply nth_error_Some in H0. lia. }
      destruct (nth_error rs j) as [[[c1 b1] s1]|] eqn:E; [|congruence].
      now rewrite (IH _ _ _ _ _ E).
Qed.

Lemma at_bar_step (cfg : Config) (p : Params) (data : DataFrame) (i : nat)
      (bar : Bar) :
  (1 <= i)%nat -> nth_error data i = Some bar ->
  exists buy sell,
    nth_error (buy_signal p data) i = Some buy
    /\ nth_error (sell_signal p data) i = Some sell
    /\ at_bar cfg p data i
       = Some (bar_body cfg p (state_before cfg p data i) (close bar) buy sell).
Proof.
  intros Hi Hbar.
  assert (Hlen : (i < length data)%nat).
  { apply nth_error_Some. congruence. }
  destruct (nth_error (buy_signal p data) i) as [buy|] eqn:Eb.
  2:{ apply nth_error_None in Eb. rewrite buy_signal_length in Eb. lia. }
  destruct (nth_error (sell_signal p data) i) as [sell|] eqn:Es.
  2:{ apply nth_error_None in Es. rewrite sell_signal_length in Es. lia. }
  exists buy, sell. repeat split.
  destruct i as [|k]; [lia|]. unfold at_bar, state_before, trace.
  assert (Hr : nth_error (tl (readings p data)) k = Some (close bar, buy, sell)).
  { assert (Hr : nth_error (readings p data) (S k) = Some (close bar, buy, sell)).
    { rewrite readings_columns, nth_error_zip_with3, Eb, Es.
      now rewrite nth_error_map, Hbar. }
    destruct (readings p data); [discriminate|exact Hr]. }
  rewrite (loop_nth _ _ _ _ _ _ _ _ Hr). destruct k; reflexivity.
Qed.

(** ** C7: causality *)

Lemma buy_signal_rows (p : Params) (data : DataFrame) :
  buy_signal p data = rows_from (buy_at p) None data.
Proof.
  unfold buy_signal, cond_ema_up, cond_adx_strong, cond_macd_cross_up.
  rewrite !shift1_shift_from.
  change (@None Q) with (option_map macd_line None) at 1.
  change (@None Q) with (option_map macd_sig None).
  generalize (@None Bar).
  induction data as [|b rest IH]; intro prev; trivial.
  cbn [map shift_from zip_with zip_with3 rows_from]. f_equal.
  apply (IH (Some b)).
Qed.

Lemma sell_signal_rows (p : Params) (data : DataFrame) :
  sell_signal p data = rows_from (sell_at p) None data.
Proof.
  unfold sell_signal, cond_ema_down, cond_adx_strong, cond_macd_cross_down.
  rewrite !shift1_shift_from.
  change (@None Q) with (option_map macd_line None) at 1.
  change (@None Q) with (option_map macd_sig None).
  generalize (@None Bar).
  induction data as [|b rest IH]; intro prev; trivial.
  cbn [map shift_from zip_with zip_with3 rows_from]. f_equal.
  apply (IH (Some b)).
Qed.

Lemma rows_from_nth (f : option Bar -> Bar -> bool) (data : DataFrame) :
  forall prev i,
    nth_error (rows_from f prev data) i
    = option_map (f (match i with O => prev | S j => nth_error data j end))
                 (nth_error data i).
Proof.
  induction data as [|b rest IH]; intros prev i.
  - now destruct i.
  - destruct i as [|i]; trivial. cbn [rows_from nth_error].
    rewrite IH. now destruct i.
Qed.

(** C7. The buy and sell signals at bar [i], and the loop variables and
    recorded portfolio value at bar [i], are the same for a data frame and for
    any data frame that agrees with it up to bar [i]: the bars after [i] may
    be altered at will or removed.  The signals at bar [i] are computed from
    bars [i-1] and [i] alone, and the transition at bar [i] from the loop
    variables with which the run reaches the bar, the bar's close and the
    bar's signals. *)
Theorem causality (cfg : Config) (p : Params) (l r r' : DataFrame) (i : nat) :
  (i < length l)%nat ->
  nth_error (buy_signal p (l ++ r)) i = nth_error (buy_signal p (l ++ r')) i
  /\ nth_error (sell_signal p (l ++ r)) i
     = nth_error (sell_signal p (l ++ r')) i
  /\ at_bar cfg p (l ++ r) i = at_bar cfg p (l ++ r') i
  /\ nth_error (buy_signal p (l ++ r)) i
     = option_map (buy_at p (prev_bar l i)) (nth_error l i)
  /\ nth_error (sell_signal p (l ++ r)) i
     = option_map (sell_at p (prev_bar l i)) (nth_error l i)
  /\ (forall bar, (1 <= i)%nat -> nth_error l i = Some bar ->
      at_bar cfg p (l ++ r) i
      = Some (bar_body cfg p (state_before cfg p l i) (close bar)
                       (buy_at p (prev_bar l i) bar)
                       (sell_at p (prev_bar l i) bar))).
Proof.
  intro Hi.
  assert (Hb : forall t, nth_error (buy_signal p (l ++ t)) i
                         = nth_error (buy_signal p l) i).
  { intro t. destruct (buy_signal_app p l t) as [u ->].
    apply nth_error_prefix. now rewrite buy_signal_length. }
  assert (Hs : forall t, nth_error (sell_signal p (l ++ t)) i
                         = nth_error (sell_signal p l) i).
  { intro t. destruct (sell_signal_app p l t) as [u ->].
    apply nth_error_prefix. now rewrite sell_signal_length. }
  assert (Ha : forall t, at_bar cfg p (l ++ t) i = at_bar cfg p l i).
  { intro t. destruct i as [|k]; trivial. unfold at_bar.
    destruct (trace_app cfg p l t) as [u ->].
    apply nth_error_prefix. rewrite trace_length. lia. }
  rewrite !Hb, !Hs, !Ha. repeat split.
  - rewrite buy_signal_rows. apply rows_from_nth.
  - rewrite sell_signal_rows. apply rows_from_nth.
  - intros bar H1 Hbar.
    destruct (at_bar_step cfg p l i bar H1 Hbar) as (b & s & Eb & Es & ->).
    rewrite buy_signal_rows, rows_from_nth, Hbar in Eb.
    rewrite sell_signal_rows, rows_from_nth, Hbar in Es.
    cbn [option_map] in Eb, Es. injection Eb as <-. injection Es as <-.
    reflexivity.
Qed.

Lemma causality_witness :
  let l := [quiet_bar 0 100; bearish_bar 3600 100] in
  let r := [quiet_bar 7200 400; bullish_bar 10800 90] in
  nth_error (buy_signal sample_params (l ++ r)) 1
  = nth_error (buy_signal sample_params (l ++ [])) 1
  /\ nth_error (sell_signal sample_params (l ++ r)) 1
     = nth_error (sell_signal sample_params (l ++ [])) 1
  /\ at_bar config_py sample_params (l ++ r) 1
     = at_bar config_py sample_params (l ++ []) 1.
Proof.
  intros l r.
  destruct (causality config_py sample_params l r [] 1) as (H1 & H2 & H3 & _).
  - simpl. lia.
  - auto.
Defined.

(** ** C1: the per-bar transition and the take-profit scenario *)



(** ** Entries *)

Lemma bar_body_fst (cfg : Config) (p : Params) (st : State) (price : Q)
      (buy sell : bool) :
  fst (bar_body cfg p st price buy sell)
  = entry_check cfg p (exit_check cfg p st price) price buy sell.
Proof. now rewrite bar_body_transition. Qed.

Lemma bar_body_snd (cfg : Config) (p : Params) (st : State) (price : Q)
      (buy sell : bool) :
  snd (bar_body cfg p st price buy sell)
  = mark_to_market (fst (bar_body cfg p st price buy sell)) price.
Proof. now rewrite bar_body_transition. Qed.

Lemma Qdiv_pos (a b : Q) : 0 < a -> 0 < b -> 0 < a / b.
Proof.
  intros Ha Hb. apply Qlt_shift_div_l; trivial. lra.
Qed.

Lemma side_long_iff (st : State) : side st = Long <-> 0 < position st.
Proof.
  rewrite <- Qlt_bool_iff. unfold side.
  destruct (Qlt_bool 0 (position st)); [tauto|].
  destruct (Qlt_bool (position st) 0); split; discriminate.
Qed.

Lemma side_short_iff (st : State) : side st = Short <-> position st < 0.
Proof.
  rewrite <- Qlt_bool_iff. unfold side.
  destruct (Qlt_bool 0 (position st)) eqn:E.
  - rewrite (Qlt_bool_asym _ _ E). split; discriminate.
  - destruct (Qlt_bool (position st) 0); split; trivial; discriminate.
Qed.

Lemma side_flat_eq (st : State) : side st = Flat <-> position st == 0.
Proof. rewrite side_flat_iff. apply Qeq_bool_iff. Qed.

(** C3, the claim refuted. With the whole cash committed ([n_shares] 1, in
    its declared range) the short entered at bar 1 of [gap_data_rebuy] is
    stopped out at bar 2 with cash -2,006,250; the bar carries a buy signal
    and the entry check finds the state flat (it is the state the loop
    body leaves when the bar has no signal).  The outlay
    [cash * n_shares * (1 + commission)] is then below the cash, so the
    check [cash > outlay] holds, and yet no Long is opened: the size that is
    set is negative, the state after the bar is a Short, and cash has gone
    up instead of being debited. *)
Lemma negative_cash_buy_opens_short :
  (0 < n_shares full_size_params /\ n_shares full_size_params <= 1)
  /\ nth_error (buy_signal full_size_params gap_data_rebuy) 2 = Some true
  /\ (let st1 := exit_check config_py full_size_params
                   (state_before config_py full_size_params gap_data_rebuy 2)
                   400 in
      let outlay :=
        cash st1 * n_shares full_size_params * (1 + commission config_py) in
      side st1 = Flat
      /\ st1 = fst (bar_body config_py full_size_params
                             (state_before config_py full_size_params
                                           gap_data_rebuy 2)
                             400 false false)
      /\ cash st1 == - (2006250)
      /\ outlay < cash st1
      /\ exists st2 v,
          at_bar config_py full_size_params gap_data_rebuy 2 = Some (st2, v)
          /\ position st2 < 0
          /\ side st2 = Short
          /\ cash st1 < cash st2).
Proof.
  split; [split; [reflexivity|intro H; discriminate H]|].
  split; [reflexivity|].
  cbv zeta. split; [reflexivity|]. split; [vm_compute; reflexivity|].
  split; [reflexivity|]. split; [reflexivity|].
  eexists. eexists. split; [vm_compute; reflexivity|].
  split; [reflexivity|]. split; reflexivity.
Qed.

(** C3, amended. At a bar with a buy signal whose entry check finds the
    state flat, with [investment = cash * n_shares] and [outlay = investment *
    (1 + commission)]: when [cash > outlay] holds strictly the outlay is
    debited, the size is [investment / price] and the entry price is the
    bar's price; otherwise the state is left as it was; and for positive
    cash, sizing fraction and price a Long is held after the entry check
    exactly when [cash > outlay].  With cash 1,000,000, [n_shares] 0.5,
    commission 0.00125 and price 100 the outlay is 500,000 * 1.00125 and the
    cash left is 1,000,000 minus that outlay. *)
Theorem long_entry :
  (forall cfg p st price sell,
      let st1 := exit_check cfg p st price in
      let investment := cash st1 * n_shares p in
      let outlay := investment * (1 + commission cfg) in
      let st2 := fst (bar_body cfg p st price true sell) in
      side st1 = Flat ->
      (outlay < cash st1 ->
       cash st2 = cash st1 - outlay
       /\ position st2 = investment / price
       /\ entry_price st2 = price)
      /\ (~ outlay < cash st1 -> st2 = st1)
      /\ (0 < cash st1 -> 0 < n_shares p -> 0 < price ->
          (side st2 = Long <-> outlay < cash st1)))
  /\ (let st2 := fst (bar_body config_py scenario_params (init config_py)
                               100 true false) in
      let outlay := 500000 * (1 + COMMISSION) in
      initial_cash config_py == 1000000
      /\ initial_cash config_py * n_shares scenario_params
                                * (1 + commission config_py) == outlay
      /\ cash st2 == 1000000 - outlay
      /\ position st2 == 500000 / 100
      /\ entry_price st2 == 100).
Proof.
  split.
  - intros cfg p st price sell st1 investment outlay st2 Hflat.
    assert (E : st2 = open_long cfg p st1 price).
    { unfold st2. rewrite bar_body_fst. fold st1.
      unfold entry_check. now rewrite Hflat. }
    rewrite E. unfold open_long. fold investment. fold outlay.
    repeat split.
    + apply Qlt_bool_iff in H. now rewrite H.
    + apply Qlt_bool_iff in H. now rewrite H.
    + apply Qlt_bool_iff in H. now rewrite H.
    + intro H. destruct (Qlt_bool outlay (cash st1)) eqn:L; trivial.
      apply Qlt_bool_iff in L. contradiction.
    + intro HL. destruct (Qlt_bool outlay (cash st1)) eqn:L.
      * now apply Qlt_bool_iff.
      * rewrite Hflat in HL. discriminate.
    + intro L. apply Qlt_bool_iff in L. rewrite L.
      apply side_long_iff. cbn [position]. apply Qdiv_pos; trivial.
      unfold investment. nra.
  - vm_compute. repeat split; reflexivity.
Qed.

Lemma long_entry_witness :
  let st := {| cash := 2000; position := 0; entry_price := 0 |} in
  let st2 := fst (bar_body config_py sample_params st 50 true false) in
  cash st2 = cash st - cash st * (1 # 2) * (1 + COMMISSION)
  /\ position st2 = cash st * (1 # 2) / 50
  /\ entry_price st2 = 50.
Proof.
  intros st st2.
  destruct long_entry as [H _].
  destruct (H config_py sample_params st 50 false) as (H1 & _ & _).
  - reflexivity.
  - apply H1. reflexivity.
Defined.

(** C2, the claim refuted. In the run on [gap_data_resell] the short entered
    at bar 1 is stopped out at bar 2 with negative cash; the sell signal is
    up, the buy signal is not, the entry check finds the state flat, and the
    value recorded for the bar is not the post-credit cash minus
    [|size| * price]: the size that was set is positive. *)
Lemma negative_cash_sell_valuation :
  nth_error (sell_signal sample_params gap_data_resell) 2 = Some true
  /\ nth_error (buy_signal sample_params gap_data_resell) 2 = Some false
  /\ side (exit_check config_py sample_params
             (state_before config_py sample_params gap_data_resell 2) 400)
     = Flat
  /\ exists st2 v,
      at_bar config_py sample_params gap_data_resell 2 = Some (st2, v)
      /\ 0 < position st2
      /\ ~ v == cash st2 - Qabs (position st2) * 400.
Proof.
  repeat split.
  eexists. eexists. split; [vm_compute; reflexivity|].
  split; [reflexivity|]. intro H. vm_compute in H. discriminate.
Qed.

(** C2, amended. At a bar with the sell signal up and the buy signal down
    whose entry check finds the state flat, the short entry is made without
    any capital check: with [investment = cash * n_shares],
    [investment * (1 - commission)] is credited to cash, the size is set to
    [- investment / price] and the entry price recorded.  For a positive
    price the value recorded for the bar is the pre-trade cash minus
    [investment * commission]; when the investment is not negative that
    value is also the post-credit cash minus [|size| * price], and when it
    is positive the state after the bar is Short. *)
Theorem short_entry (cfg : Config) (p : Params) (st : State) (price : Q) :
  let st1 := exit_check cfg p st price in
  let investment := cash st1 * n_shares p in
  let st2 := fst (bar_body cfg p st price false true) in
  let v := snd (bar_body cfg p st price false true) in
  side st1 = Flat -> 0 < price ->
  cash st2 = cash st1 + investment * (1 - commission cfg)
  /\ position st2 = - (investment / price)
  /\ entry_price st2 = price
  /\ v == cash st1 - investment * commission cfg
  /\ (0 <= investment -> v == cash st2 - Qabs (position st2) * price)
  /\ (0 < investment -> side st2 = Short).
Proof.
  intros st1 investment st2 v Hflat Hprice.
  assert (E : st2 = open_short cfg p st1 price).
  { unfold st2. rewrite bar_body_fst. fold st1.
    unfold entry_check. now rewrite Hflat. }
  assert (Ev : v = mark_to_market st2 price).
  { unfold v, st2. apply bar_body_snd. }
  assert (Hp : ~ price == 0) by lra.
  rewrite Ev, E. unfold open_short. fold investment. cbn [cash position entry_price].
  set (s2 := {| cash := cash st1 + investment * (1 - commission cfg);
                position := - (investment / price);
                entry_price := price |}).
  assert (Hmul : investment / price * price == investment) by (field; exact Hp).
  repeat split.
  - unfold mark_to_market.
    destruct (side_cases s2) as [(-> & _)|[(-> & _ & L & _)|(-> & _ & _ & Z)]];
      cbn [cash position s2] in *.
    + nra.
    + apply Qlt_bool_iff in L. rewrite Qabs_neg by lra. nra.
    + apply Qeq_bool_iff in Z. nra.
  - intro Hinv. unfold mark_to_market.
    destruct (side_cases s2) as [(-> & L & _)|[(-> & _)|(-> & _ & _ & Z)]];
      cbn [cash position s2] in *.
    + apply Qlt_bool_iff in L. exfalso.
      assert (investment < 0) by nra. lra.
    + reflexivity.
    + apply Qeq_bool_iff in Z.
      assert (Z' : investment / price == 0) by lra.
      rewrite Z' at 1. change (- 0) with 0. rewrite Qabs_pos by lra. lra.
  - intro Hinv. apply side_short_iff. cbn [position s2].
    pose proof (Qdiv_pos _ _ Hinv Hprice). lra.
Qed.

Lemma short_entry_witness :
  let st := {| cash := 2000; position := 0; entry_price := 0 |} in
  let st2 := fst (bar_body config_py sample_params st 50 false true) in
  let v := snd (bar_body config_py sample_params st 50 false true) in
  cash st2 = 2000 + 2000 * (1 # 2) * (1 - COMMISSION)
  /\ position st2 = - (2000 * (1 # 2) / 50)
  /\ entry_price st2 = 50
  /\ v == 2000 - 2000 * (1 # 2) * COMMISSION
  /\ (0 <= 2000 * (1 # 2) -> v == cash st2 - Qabs (position st2) * 50)
  /\ (0 < 2000 * (1 # 2) -> side st2 = Short).
Proof.
  intros st st2 v.
  apply (short_entry config_py sample_params st 50).
  - reflexivity.
  - reflexivity.
Defined.

(** ** Holding and closing a position *)

Lemma hold_step (cfg : Config) (p : Params) (st : State) (c : Q) (b s : bool) :
  side st <> Flat -> exit_triggered p st c = false ->
  fst (bar_body cfg p st c b s) = st.
Proof.
  intros Hs Ht. rewrite bar_body_fst. unfold exit_check. rewrite Ht.
  unfold entry_check. destruct (side st); trivial. congruence.
Qed.

Lemma hold_loop (cfg : Config) (p : Params) (st : State) (mid : list Reading) :
  side st <> Flat ->
  Forall (fun r => exit_triggered p st (fst (fst r)) = false) mid ->
  last (map fst (loop cfg p st mid)) st = st.
Proof.
  intros Hs. induction mid as [|[[c b] s] mid IH]; intro H; trivial.
  inversion H as [|? ? Hc Hmid]; subst. cbn [fst] in Hc.
  cbn [loop map]. rewrite (hold_step cfg p st c b s Hs Hc).
  specialize (IH Hmid).
  destruct (map fst (loop cfg p st mid)) eqn:E; trivial.
Qed.

Lemma held_long (cfg : Config) (p : Params) (c e size : Q)
      (mid : list Reading) :
  0 < size ->
  let opened := {| cash := c; position := size; entry_price := e |} in
  Forall (fun r => e * (1 - stop_loss p) < fst (fst r)
                   /\ fst (fst r) < e * (1 + take_profit p)) mid ->
  last (map fst (loop cfg p opened mid)) opened = opened.
Proof.
  intros Hsize opened Hmid.
  assert (HL : side opened = Long) by now apply side_long_iff.
  apply hold_loop; [congruence|].
  eapply Forall_impl; [|exact Hmid]. intros r [H1 H2].
  unfold exit_triggered. rewrite HL. cbn [entry_price opened].
  apply orb_false_iff. split; now apply Qle_bool_false.
Qed.

Lemma held_short (cfg : Config) (p : Params) (c e size : Q)
      (mid : list Reading) :
  size < 0 ->
  let opened := {| cash := c; position := size; entry_price := e |} in
  Forall (fun r => e * (1 - take_profit p) < fst (fst r)
                   /\ fst (fst r) < e * (1 + stop_loss p)) mid ->
  last (map fst (loop cfg p opened mid)) opened = opened.
Proof.
  intros Hsize opened Hmid.
  assert (HS : side opened = Short) by now apply side_short_iff.
  apply hold_loop; [congruence|].
  eapply Forall_impl; [|exact Hmid]. intros r [H1 H2].
  unfold exit_triggered. rewrite HS. cbn [entry_price opened].
  apply orb_false_iff. split; now apply Qle_bool_false.
Qed.

(** A bar that closes the position goes on from the closed state, whatever
    its signals. *)
Lemma closing_bar (cfg : Config) (p : Params) (st : State) (q : Q) :
  exit_triggered p st q = true ->
  fst (bar_body cfg p st q false false) = close_at cfg st q
  /\ forall b s,
      bar_body cfg p st q b s = bar_body cfg p (close_at cfg st q) q b s.
Proof.
  intro Ht.
  assert (Hside : side (close_at cfg st q) = Flat).
  { unfold close_at. unfold exit_triggered in Ht.
    destruct (side st); [discriminate| |]; apply side_flat_zero. }
  assert (E1 : exit_check cfg p st q = close_at cfg st q).
  { unfold exit_check. now rewrite Ht. }
  assert (E2 : exit_check cfg p (close_at cfg st q) q = close_at cfg st q).
  { unfold exit_check, exit_triggered. now rewrite Hside. }
  split.
  - rewrite bar_body_fst, E1. unfold entry_check. now rewrite Hside.
  - intros b s. rewrite !bar_body_transition. unfold transition.
    now rewrite E1, E2.
Qed.

(** C9. A Long opened by the loop body from a flat state at price [p] with
    investment [v = cash * n_shares] (the outlay [v * (1 + commission)] is
    debited) and held over any number of bars inside its stop and target is
    closed by the loop body at the first bar whose price [q] has crossed
    the stop or the target; cash is then the starting cash minus
    [2 * v * commission] plus the price move net of commission,
    [v * (q / p - 1) * (1 - commission)].  So whenever the closing price is
    again [p], the ending cash is the starting cash minus
    [2 * v * commission].  (With stop-loss and take-profit distances both
    positive the position is never closed at its entry price.)  Whatever
    the signals of the closing bar, the bar goes on from the closed
    state. *)
Theorem long_round_trip (cfg : Config) (p : Params) (st : State)
        (price q : Q) (sell0 : bool) (mid : list Reading) :
  let v := cash st * n_shares p in
  let opened := fst (bar_body cfg p st price true sell0) in
  let held := last (map fst (loop cfg p opened mid)) opened in
  let closed := fst (bar_body cfg p held q false false) in
  position st == 0 -> 0 < price -> 0 < v ->
  v * (1 + commission cfg) < cash st ->
  Forall (fun r => price * (1 - stop_loss p) < fst (fst r)
                   /\ fst (fst r) < price * (1 + take_profit p)) mid ->
  q <= price * (1 - stop_loss p) \/ price * (1 + take_profit p) <= q ->
  cash opened == cash st - v * (1 + commission cfg)
  /\ position opened == v / price
  /\ held = opened
  /\ position closed == 0
  /\ cash closed
     == cash st - 2 * v * commission cfg
        + v * (q / price - 1) * (1 - commission cfg)
  /\ (q == price -> cash closed == cash st - 2 * v * commission cfg)
  /\ (0 < stop_loss p -> 0 < take_profit p -> ~ q == price)
  /\ (forall b s, bar_body cfg p held q b s = bar_body cfg p closed q b s).
Proof.
  intros v opened held closed Hzero Hprice Hv Hcheck Hmid Hexit.
  assert (Hflat : side st = Flat) by now apply side_flat_eq.
  assert (E0 : exit_check cfg p st price = st).
  { unfold exit_check, exit_triggered. now rewrite Hflat. }
  assert (E : opened
              = {| cash := cash st - v * (1 + commission cfg);
                   position := v / price; entry_price := price |}).
  { unfold opened. rewrite bar_body_fst, E0. unfold entry_check.
    rewrite Hflat. unfold open_long. fold v.
    apply Qlt_bool_iff in Hcheck. now rewrite Hcheck. }
  assert (Hsize : 0 < v / price) by now apply Qdiv_pos.
  assert (HL : side opened = Long).
  { apply side_long_iff. now rewrite E. }
  assert (EH : held = opened).
  { unfold held. rewrite E. now apply held_long. }
  assert (Htrig : exit_triggered p opened q = true).
  { unfold exit_triggered. rewrite HL, E. cbn [entry_price].
    apply orb_true_iff.
    destruct Hexit; [left|right]; now apply Qle_bool_iff. }
  destruct (closing_bar cfg p opened q Htrig) as [EC Hgo].
  assert (Ecash : cash closed
                  == cash st - 2 * v * commission cfg
                     + v * (q / price - 1) * (1 - commission cfg)).
  { unfold closed. rewrite EH, EC. unfold close_at. rewrite HL, E.
    cbn [cash position]. field. lra. }
  split; [now rewrite E|]. split; [now rewrite E|].
  split; [exact EH|]. split.
  { unfold closed. rewrite EH, EC. unfold close_at. rewrite HL. reflexivity. }
  split; [exact Ecash|]. split; [|split].
  - intro Hq. rewrite Ecash, Hq. field. lra.
  - intros Hsl Htp Hq. rewrite Hq in Hexit. destruct Hexit; nra.
  - intros b s. unfold closed. rewrite EH, EC. apply Hgo.
Qed.

Lemma long_round_trip_witness :
  (let st := {| cash := 2000; position := 0; entry_price := 0 |} in
   let opened := fst (bar_body config_py sample_params st 100 true false) in
   let held :=
     last (map fst (loop config_py sample_params opened [(105, false, false)]))
          opened in
   let closed := fst (bar_body config_py sample_params held 120 false false) in
   position closed == 0
   /\ cash closed
      == 2000 - 2 * (2000 * (1 # 2)) * COMMISSION
         + 2000 * (1 # 2) * (120 / 100 - 1) * (1 - COMMISSION))
  /\ (let st := {| cash := 2000; position := 0; entry_price := 0 |} in
      let opened := fst (bar_body config_py tight_stop_params st 100 true false) in
      let held :=
        last (map fst (loop config_py tight_stop_params opened
                            [(105, false, false)])) opened in
      let closed :=
        fst (bar_body config_py tight_stop_params held 100 false false) in
      cash closed == 2000 - 2 * (2000 * (1 # 2)) * COMMISSION).
Proof.
  split.
  - intros st opened held closed.
    destruct (long_round_trip config_py sample_params st 100 120 false
                              [(105, false, false)])
      as (_ & _ & _ & H4 & H5 & _).
    + reflexivity.
    + reflexivity.
    + reflexivity.
    + reflexivity.
    + repeat constructor.
    + right. intro H. discriminate H.
    + split; [exact H4|exact H5].
  - intros st opened held closed.
    destruct (long_round_trip config_py tight_stop_params st 100 100 false
                              [(105, false, false)])
      as (_ & _ & _ & _ & _ & H6 & _).
    + reflexivity.
    + reflexivity.
    + reflexivity.
    + reflexivity.
    + repeat constructor.
    + left. intro H. discriminate H.
    + apply H6. reflexivity.
Defined.

(** ** Solvency *)

(** C10, the claim refuted. All parameters are within their declared ranges
    and all prices are positive, yet after bar 2 of the run on [gap_data],
    where the short entered at 100 is stopped out at 400, both the cash
    balance and the recorded portfolio value are negative. *)
Lemma short_gap_insolvent :
  (0 < stop_loss sample_params /\ stop_loss sample_params < 1)
  /\ (0 < take_profit sample_params /\ take_profit sample_params < 1)
  /\ (0 < n_shares sample_params /\ n_shares sample_params <= 1)
  /\ (0 <= commission config_py /\ commission config_py < 1)
  /\ Forall (fun bar => 0 < close bar) gap_data
  /\ exists st v,
      at_bar config_py sample_params gap_data 2 = Some (st, v)
      /\ cash st < 0 /\ v < 0.
Proof.
  repeat split; try reflexivity; try (intro H; discriminate H).
  - repeat constructor.
  - eexists. eexists. split; [vm_compute; reflexivity|].
    split; reflexivity.
Qed.



Lemma Forall_tl {A : Type} (P : A -> Prop) (l : list A) :
  Forall P l -> Forall P (tl l).
Proof. intro H. destruct H; simpl; auto. Qed.

Lemma readings_Forall (p : Params) (data : DataFrame) (P : Reading -> Prop) :
  (forall i bar b s,
      nth_error data i = Some bar ->
      nth_error (buy_signal p data) i = Some b ->
      nth_error (sell_signal p data) i = Some s ->
      P (close bar, b, s)) ->
  Forall P (readings p data).
Proof.
  intro H. apply Forall_forall. intros r Hr.
  destruct (In_nth_error _ _ Hr) as [i Hi].
  rewrite readings_columns, nth_error_zip_with3, nth_error_map in Hi.
  destruct (nth_error data i) as [bar|] eqn:E1; [|discriminate].
  cbn [option_map] in Hi.
  destruct (nth_error (buy_signal p data) i) as [b|] eqn:E2; [|discriminate].
  destruct (nth_error (sell_signal p data) i) as [s|] eqn:E3; [|discriminate].
  injection Hi as <-. now apply (H i).
Qed.

(** The first value a run records is positive: whatever is entered at bar 1,
    the value is the initial capital less at most one commission leg. *)
Lemma first_value_positive (cfg : Config) (p : Params) (data : DataFrame)
      (bar : Bar) :
  0 < initial_cash cfg -> 0 <= commission cfg -> commission cfg < 1 ->
  0 < n_shares p -> n_shares p <= 1 ->
  nth_error data 1 = Some bar -> 0 < close bar ->
  exists st v, at_bar cfg p data 1 = Some (st, v) /\ 0 < v.
Proof.
  intros Hcash Hc0 Hc1 Hn0 Hn1 Hbar Hprice.
  destruct (at_bar_step cfg p data 1 bar (le_n 1) Hbar)
    as (buy & sell & _ & _ & ->).
  exists (fst (bar_body cfg p (state_before cfg p data 1) (close bar) buy sell)),
         (snd (bar_body cfg p (state_before cfg p data 1) (close bar) buy sell)).
  split; [now rewrite <- surjective_pairing|].
  rewrite bar_body_snd, bar_body_fst.
  change (state_before cfg p data 1) with (init cfg).
  assert (E0 : exit_check cfg p (init cfg) (close bar) = init cfg) by reflexivity.
  rewrite E0. unfold entry_check. change (side (init cfg)) with Flat.
  set (c0 := initial_cash cfg) in *.
  set (inv := c0 * n_shares p).
  assert (Hinv : 0 < inv) by (unfold inv; nra).
  assert (Hnc : n_shares p * commission cfg < 1).
  { assert (n_shares p * commission cfg <= 1 * commission cfg); [|lra].
    apply Qmult_le_compat_r; trivial. }
  assert (Hleg : inv * commission cfg < c0).
  { setoid_replace (inv * commission cfg)
      with (c0 * (n_shares p * commission cfg)) by (unfold inv; ring).
    setoid_replace c0 with (c0 * 1) at 2 by ring.
    apply Qmult_lt_l; trivial. }
  assert (Hmul : inv / close bar * close bar == inv) by (field; lra).
  assert (Hsize : 0 < inv / close bar) by now apply Qdiv_pos.
  destruct buy; [|destruct sell].
  - unfold open_long. change (cash (init cfg)) with c0. fold inv.
    destruct (Qlt_bool (inv * (1 + commission cfg)) c0).
    + unfold mark_to_market.
      set (s2 := {| cash := c0 - inv * (1 + commission cfg);
                    position := inv / close bar; entry_price := close bar |}).
      assert (HL : side s2 = Long) by now apply side_long_iff.
      rewrite HL. cbn [cash position s2]. nra.
    + exact Hcash.
  - unfold open_short. change (cash (init cfg)) with c0. fold inv.
    unfold mark_to_market.
    set (s2 := {| cash := c0 + inv * (1 - commission cfg);
                  position := - (inv / close bar); entry_price := close bar |}).
    assert (HS : side s2 = Short) by (apply side_short_iff; cbn; lra).
    rewrite HS. cbn [cash position s2]. rewrite Qabs_neg by lra. nra.
  - exact Hcash.
Qed.

Lemma Some_pair_eq {A B : Type} (a : A) (b : B) (x : A * B) :
  Some (a, b) = Some x -> a = fst x /\ b = snd x.
Proof. intro H. injection H as <-. auto. Qed.

Lemma Qmult_pos_cancel (n x : Q) : 0 < n -> 0 < n * x -> 0 < x.
Proof.
  intros Hn H. destruct (Qlt_le_dec 0 x) as [L|L]; trivial.
  exfalso. assert (n * x <= 0) by nra. lra.
Qed.

(** An entry check reached flat with positive cash leaves a covered state
    and a positive value, whatever is entered. *)
Lemma covered_entry (cfg : Config) (p : Params) (st1 : State) (price : Q)
      (buy sell : bool) :
  0 <= commission cfg -> commission cfg < 1 ->
  0 < n_shares p -> n_shares p <= 1 -> 0 < price ->
  side st1 = Flat -> 0 < cash st1 ->
  let st2 := entry_check cfg p st1 price buy sell in
  covered cfg p st2 /\ 0 < mark_to_market st2 price.
Proof.
  intros Hc0 Hc1 Hn0 Hn1 Hprice Hflat Hcash st2.
  assert (Hzero : position st1 == 0) by now apply side_flat_eq.
  assert (Hsame : covered cfg p st1 /\ 0 < mark_to_market st1 price).
  { split.
    - split; trivial. intro H. lra.
    - unfold mark_to_market. now rewrite Hflat. }
  set (inv := cash st1 * n_shares p).
  assert (Hinv : 0 < inv) by (unfold inv; nra).
  assert (Hmul : inv / price * price == inv) by (field; lra).
  assert (Hsize : 0 < inv / price) by now apply Qdiv_pos.
  assert (Hnc : n_shares p * commission cfg < 1) by nra.
  assert (Hleg : inv * commission cfg < cash st1).
  { setoid_replace (inv * commission cfg)
      with (cash st1 * (n_shares p * commission cfg)) by (unfold inv; ring).
    setoid_replace (cash st1) with (cash st1 * 1) at 2 by ring.
    apply Qmult_lt_l; trivial. }
  unfold st2, entry_check. rewrite Hflat.
  destruct buy; [|destruct sell; [|exact Hsame]].
  - unfold open_long. fold inv.
    destruct (Qlt_bool (inv * (1 + commission cfg)) (cash st1)) eqn:L;
      [|exact Hsame].
    apply Qlt_bool_iff in L.
    set (s2 := {| cash := cash st1 - inv * (1 + commission cfg);
                  position := inv / price; entry_price := price |}).
    assert (HL : side s2 = Long) by now apply side_long_iff.
    split.
    + split; [cbn; lra|]. cbn [position s2]. intro H. lra.
    + unfold mark_to_market. rewrite HL. cbn [cash position s2]. lra.
  - unfold open_short. fold inv.
    set (s2 := {| cash := cash st1 + inv * (1 - commission cfg);
                  position := - (inv / price); entry_price := price |}).
    assert (HS : side s2 = Short) by (apply side_short_iff; cbn; lra).
    assert (Hc2 : 0 < cash s2).
    { cbn [cash s2]. assert (0 < inv * (1 - commission cfg)); [|lra].
      apply Qmult_lt_0_compat; lra. }
    split.
    + split; trivial. intros _. cbn [cash position entry_price s2].
      rewrite Qabs_neg by lra. unfold inv. field. lra.
    + unfold mark_to_market. rewrite HS. cbn [cash position s2].
      rewrite Qabs_neg by lra. lra.
Qed.

(** One bar keeps a covered state covered and records a positive value, as
    long as the price stays under the margin of a short that is open. *)
Lemma covered_step (cfg : Config) (p : Params) (st : State) (price : Q)
      (buy sell : bool) :
  0 <= commission cfg -> commission cfg < 1 ->
  0 < n_shares p -> n_shares p <= 1 -> 0 < price ->
  covered cfg p st ->
  (position st < 0 ->
   price * (n_shares p * (1 + commission cfg))
   < entry_price st * (1 + n_shares p * (1 - commission cfg))) ->
  covered cfg p (fst (bar_body cfg p st price buy sell))
  /\ 0 < snd (bar_body cfg p st price buy sell).
Proof.
  intros Hc0 Hc1 Hn0 Hn1 Hprice [Hcash Hrel] Hmargin.
  rewrite bar_body_snd, bar_body_fst.
  set (K := 1 + n_shares p * (1 - commission cfg)) in *.
  assert (Hshort : position st < 0 ->
                   0 < cash st - Qabs (position st) * price * (1 + commission cfg)
                   /\ 0 < cash st - Qabs (position st) * price).
  { intro Hneg. specialize (Hrel Hneg). specialize (Hmargin Hneg).
    set (a := Qabs (position st)) in *.
    assert (Ha : 0 < a) by (unfold a; rewrite Qabs_neg by lra; lra).
    assert (H1 : 0 < a * (entry_price st * K
                          - price * (n_shares p * (1 + commission cfg)))).
    { apply Qmult_lt_0_compat; lra. }
    assert (H2 : 0 < n_shares p
                     * (cash st - a * price * (1 + commission cfg))).
    { setoid_replace (n_shares p * (cash st - a * price * (1 + commission cfg)))
        with (cash st * n_shares p
              - a * (price * (n_shares p * (1 + commission cfg)))) by ring.
      rewrite <- Hrel.
      setoid_replace (a * entry_price st * K
                      - a * (price * (n_shares p * (1 + commission cfg))))
        with (a * (entry_price st * K
                   - price * (n_shares p * (1 + commission cfg)))) by ring.
      exact H1. }
    apply Qmult_pos_cancel in H2; trivial. split; trivial.
    assert (0 <= a * price * commission cfg).
    { apply Qmult_le_0_compat; trivial.
      apply Qmult_le_0_compat; lra. }
    lra. }
  destruct (exit_triggered p st price) eqn:Ht.
  - assert (E1 : exit_check cfg p st price = close_at cfg st price).
    { unfold exit_check. now rewrite Ht. }
    rewrite E1.
    assert (Hside : side (close_at cfg st price) = Flat).
    { unfold close_at. unfold exit_triggered in Ht.
      destruct (side st); [discriminate| |]; apply side_flat_zero. }
    apply covered_entry; trivial.
    unfold close_at.
    destruct (side_cases st) as [(-> & L & _)|[(-> & _ & L & _)|(-> & _)]];
      cbn [cash]; trivial.
    + apply Qlt_bool_iff in L.
      assert (0 < position st * price * (1 - commission cfg)); [|lra].
      apply Qmult_lt_0_compat; [apply Qmult_lt_0_compat|]; lra.
    + apply Qlt_bool_iff in L. now apply Hshort.
  - assert (E1 : exit_check cfg p st price = st).
    { unfold exit_check. now rewrite Ht. }
    rewrite E1.
    destruct (side_cases st) as [(HL & L & _)|[(HS & _ & L & _)|(HF & _)]].
    + unfold entry_check. rewrite HL. split; [now split|].
      unfold mark_to_market. rewrite HL. apply Qlt_bool_iff in L.
      assert (0 < position st * price) by (apply Qmult_lt_0_compat; lra).
      lra.
    + unfold entry_check. rewrite HS. split; [now split|].
      unfold mark_to_market. rewrite HS. apply Qlt_bool_iff in L.
      now apply Hshort.
    + apply covered_entry; trivial.
Qed.

(** Under the margin condition every bar is reached in a covered state. *)
Lemma covered_state_before (cfg : Config) (p : Params) (data : DataFrame) :
  0 < initial_cash cfg -> 0 <= commission cfg -> commission cfg < 1 ->
  0 < n_shares p -> n_shares p <= 1 ->
  Forall (fun bar => 0 < close bar) data ->
  (forall i bar,
      nth_error data i = Some bar ->
      position (state_before cfg p data i) < 0 ->
      close bar * (n_shares p * (1 + commission cfg))
      < entry_price (state_before cfg p data i)
        * (1 + n_shares p * (1 - commission cfg))) ->
  forall i, covered cfg p (state_before cfg p data i).
Proof.
  intros Hcash Hc0 Hc1 Hn0 Hn1 Hprices Hmargin.
  assert (Hinit : covered cfg p (init cfg)).
  { split; [exact Hcash|]. cbn [position init]. intro H. lra. }
  induction i as [|i IH]; [exact Hinit|].
  destruct i as [|k]; [exact Hinit|].
  cbn [state_before].
  destruct (nth_error (trace cfg p data) k) as [[st v]|] eqn:E;
    [|exact Hinit].
  assert (Hk : (S k < length data)%nat).
  { assert (Hlt : (k < length (trace cfg p data))%nat).
    { apply nth_error_Some. congruence. }
    rewrite trace_length in Hlt. lia. }
  destruct (nth_error data (S k)) as [bar|] eqn:Ebar.
  2:{ apply nth_error_None in Ebar. lia. }
  destruct (at_bar_step cfg p data (S k) bar) as (buy & sell & _ & _ & Hat);
    [lia|exact Ebar|].
  cbn [at_bar] in Hat. rewrite E in Hat.
  destruct (Some_pair_eq _ _ _ Hat) as [Hst _].
  rewrite Hst. apply covered_step; trivial.
  - rewrite Forall_forall in Hprices. apply Hprices.
    eapply nth_error_In; eauto.
  - now apply Hmargin.
Qed.

(** C10, amended. With positive initial capital, commission rate in [0, 1),
    sizing fraction in (0, 1] and positive prices, the cash balance and the
    recorded portfolio value are positive after every bar of a run in which
    every bar reached with a short open closes below
    [(1 + n (1 - c)) / (n (1 + c))] times the entry price of that short
    ([n] the sizing fraction, [c] the commission rate).  Runs that enter no
    short, and shorts entered, held and closed under that multiple, are
    covered. *)
Theorem solvency_within_short_margin (cfg : Config) (p : Params)
        (data : DataFrame) :
  0 < initial_cash cfg -> 0 <= commission cfg -> commission cfg < 1 ->
  0 < n_shares p -> n_shares p <= 1 ->
  Forall (fun bar => 0 < close bar) data ->
  (forall i bar,
      nth_error data i = Some bar ->
      position (state_before cfg p data i) < 0 ->
      close bar * (n_shares p * (1 + commission cfg))
      < entry_price (state_before cfg p data i)
        * (1 + n_shares p * (1 - commission cfg))) ->
  forall i st v, at_bar cfg p data i = Some (st, v) -> 0 < cash st /\ 0 < v.
Proof.
  intros Hcash Hc0 Hc1 Hn0 Hn1 Hprices Hmargin i st v Hat.
  destruct i as [|k]; [discriminate|].
  assert (Hk : (S k < length data)%nat).
  { assert (Hlt : (k < length (trace cfg p data))%nat).
    { apply nth_error_Some. cbn [at_bar] in Hat. congruence. }
    rewrite trace_length in Hlt. lia. }
  destruct (nth_error data (S k)) as [bar|] eqn:Ebar.
  2:{ apply nth_error_None in Ebar. lia. }
  destruct (at_bar_step cfg p data (S k) bar) as (buy & sell & _ & _ & Hat');
    [lia|exact Ebar|].
  rewrite Hat in Hat'. destruct (Some_pair_eq _ _ _ Hat') as [-> ->].
  destruct (covered_step cfg p (state_before cfg p data (S k)) (close bar)
              buy sell) as [[H1 _] H2]; trivial.
  - rewrite Forall_forall in Hprices. apply Hprices.
    eapply nth_error_In; eauto.
  - now apply covered_state_before.
  - now apply Hmargin.
  - split; assumption.
Qed.

Lemma solvency_within_short_margin_witness :
  exists st v,
    at_bar config_py sample_params short_trade_data 3 = Some (st, v)
    /\ 0 < cash st /\ 0 < v.
Proof.
  eexists. eexists. split; [vm_compute; reflexivity|].
  apply (solvency_within_short_margin config_py sample_params
                                      short_trade_data) with (i := 3%nat).
  - reflexivity.
  - intro H; discriminate H.
  - reflexivity.
  - reflexivity.
  - intro H; discriminate H.
  - repeat constructor.
  - intros i bar Hbar Hpos.
    do 5 (destruct i as [|i];
          [vm_compute in Hbar; injection Hbar as <-;
           first [ exfalso; revert Hpos; vm_compute; discriminate
                 | vm_compute; reflexivity ]|]).
    destruct i; discriminate Hbar.
  - vm_compute. reflexivity.
Defined.

(** ** The objective metric *)

Import XFloat Optimizer.

Lemma Forall_zip_with {A B C : Type} (f : A -> B -> C)
      (P : A -> Prop) (R : B -> Prop) (S : C -> Prop) :
  (forall x y, P x -> R y -> S (f x y)) ->
  forall xs ys, Forall P xs -> Forall R ys -> Forall S (zip_with f xs ys).
Proof.
  intros H xs. induction xs as [|x xs IH]; intros [|y ys] Hx Hy; simpl;
    try constructor.
  - inversion Hx; inversion Hy; subst. now apply H.
  - inversion Hx; inversion Hy; subst. now apply IH.
Qed.

Lemma cummax_from_const (c : Q) (l : list Q) :
  Forall (fun v => v == c) l ->
  forall m, m == c -> Forall (fun v => v == c) (cummax_from m l).
Proof.
  induction 1 as [|x l Hx Hl IH]; intros m Hm; simpl; constructor.
  - now destruct (Qlt_bool m x).
  - apply IH. now destruct (Qlt_bool m x).
Qed.

Lemma cummax_const (c : Q) (l : list Q) :
  Forall (fun v => v == c) l -> Forall (fun v => v == c) (cummax l).
Proof.
  intro H. destruct H as [|x l Hx Hl]; simpl; constructor; trivial.
  now apply cummax_from_const.
Qed.

Lemma drawdown_const (c : Q) (values : list Q) :
  ~ c == 0 -> Forall (fun v => v == c) values ->
  Forall zero_fin (drawdown_series values).
Proof.
  intros Hc H. unfold drawdown_series.
  apply (Forall_zip_with _ (fun v => v == c) (fun v => v == c)); trivial.
  - intros v m Hv Hm. cbn [xsub xdiv].
    assert (E : Qeq_bool m 0 = false).
    { apply Qeq_bool_false. now rewrite Hm. }
    rewrite E. exists ((v - m) / m). split; trivial.
    rewrite Hv, Hm. field. exact Hc.
  - now apply cummax_const.
Qed.

Lemma xmin2_zero (a x : xq) :
  a = XNaN \/ zero_fin a -> zero_fin x -> zero_fin (xmin2 a x).
Proof.
  intros [->|(qa & -> & Ha)] (qx & -> & Hx); cbn.
  - now exists qx.
  - destruct (Qlt_bool qx qa); [now exists qx|now exists qa].
Qed.

Lemma xmin_fold_zero (l : list xq) :
  Forall zero_fin l ->
  forall a, a = XNaN \/ zero_fin a -> l <> [] \/ zero_fin a ->
  zero_fin (fold_left xmin2 l a).
Proof.
  induction 1 as [|x l Hx Hl IH]; intros a Ha Hne; simpl.
  - destruct Hne; [congruence|trivial].
  - apply IH; right; now apply xmin2_zero.
Qed.

Lemma drawdown_series_length (values : list Q) :
  length (drawdown_series values) = length values.
Proof.
  unfold drawdown_series. apply zip_with_length.
  destruct values as [|x l]; trivial. simpl. f_equal.
  generalize x. induction l as [|y l IH]; intro m; simpl; auto.
Qed.

Lemma max_drawdown_const (c : Q) (values : list Q) :
  ~ c == 0 -> values <> [] -> Forall (fun v => v == c) values ->
  xlt_bool (max_drawdown_of values) (XFin (1 # 100)) = true.
Proof.
  intros Hc Hne H. unfold max_drawdown_of, xmin_skipna.
  destruct (xmin_fold_zero (drawdown_series values)
              (drawdown_const c values Hc H) XNaN) as (q & -> & Hq); auto.
  - left. intro E. apply Hne. apply length_zero_iff_nil.
    rewrite <- drawdown_series_length, E. reflexivity.
  - cbn. apply Qlt_bool_iff. rewrite Hq. reflexivity.
Qed.

Lemma cummax_from_nth (l : list Q) :
  forall m i peak,
    nth_error (cummax_from m l) i = Some peak ->
    (peak = m \/ In peak (firstn (S i) l))
    /\ m <= peak
    /\ Forall (fun v => v <= peak) (firstn (S i) l).
Proof.
  induction l as [|x l IH]; intros m i peak H.
  - destruct i; discriminate.
  - assert (Hm : m <= (if Qlt_bool m x then x else m)
                 /\ x <= (if Qlt_bool m x then x else m)).
    { destruct (Qlt_bool m x) eqn:E.
      - apply Qlt_bool_iff in E. split; lra.
      - apply Qlt_bool_false in E. split; lra. }
    destruct Hm as [Hm Hx].
    destruct i as [|i]; cbn [cummax_from nth_error] in H.
    + injection H as <-. cbn [firstn]. split; [|split; trivial].
      * destruct (Qlt_bool m x); [right; now left|now left].
      * constructor; trivial.
    + destruct (IH _ _ _ H) as (H1 & H2 & H3).
      change (firstn (S (S i)) (x :: l)) with (x :: firstn (S i) l).
      split; [|split].
      * destruct H1 as [->|H1]; [|right; now right].
        destruct (Qlt_bool m x); [right; now left|now left].
      * lra.
      * constructor; trivial. lra.
Qed.

(** [cummax] is the running peak: its value in row [i] is one of the values
    of rows [0 .. i] and none of them exceeds it. *)
Lemma cummax_running_peak (values : list Q) (i : nat) (peak : Q) :
  nth_error (cummax values) i = Some peak ->
  In peak (firstn (S i) values)
  /\ Forall (fun v => v <= peak) (firstn (S i) values).
Proof.
  destruct values as [|x l]; [destruct i; discriminate|].
  destruct i as [|i]; cbn [cummax nth_error].
  - intro H. injection H as <-. cbn [firstn]. split; [now left|].
    constructor; trivial. lra.
  - intro H. destruct (cummax_from_nth _ _ _ _ H) as (H1 & H2 & H3).
    change (firstn (S (S i)) (x :: l)) with (x :: firstn (S i) l).
    split.
    + destruct H1 as [->|H1]; [now left|now right].
    + constructor; trivial.
Qed.





(** ** The walk-forward objective *)

(** The loop over the splits when every block has its indicator columns:
    each block is simulated and the score is the mean of the metrics. *)
Lemma walk_forward_complete (ta : TA) (rpow : Q -> Q -> Q) (cfg : Config)
      (data : list Candle) (params : Params) (cs : nat) (splits : list nat) :
  (forall i, In i splits -> block_has_columns ta data params cs i = true) ->
  forall simulated metrics,
    walk_forward ta rpow cfg data params cs splits simulated metrics
    = Returned (simulated ++ map (block ta data params cs) splits)
        (mean_metric
           (metrics ++ map (block_metric rpow cfg params)
                           (map (block ta data params cs) splits))).
Proof.
  induction splits as [|i splits IH]; intros Hall simulated metrics.
  - cbn [walk_forward map]. now rewrite !app_nil_r.
  - cbn [walk_forward map]. rewrite (Hall i) by now left.
    rewrite IH by (intros j Hj; apply Hall; now right).
    now rewrite <- !app_assoc.
Qed.

(** The loop over the splits stops with [KeyError] at the first block
    without indicator columns; the blocks before it were simulated. *)
Lemma walk_forward_missing (ta : TA) (rpow : Q -> Q -> Q) (cfg : Config)
      (data : list Candle) (params : Params) (cs : nat)
      (before : list nat) (i : nat) (after : list nat) :
  (forall j, In j before -> block_has_columns ta data params cs j = true) ->
  block_has_columns ta data params cs i = false ->
  forall simulated metrics,
    walk_forward ta rpow cfg data params cs (before ++ i :: after)
                 simulated metrics
    = Raised_KeyError (simulated ++ map (block ta data params cs) before).
Proof.
  induction before as [|j before IH]; intros Hall Hi simulated metrics.
  - cbn [walk_forward app map]. rewrite Hi. now rewrite app_nil_r.
  - cbn [walk_forward app map]. rewrite (Hall j) by now left.
    rewrite IH; trivial.
    + now rewrite <- app_assoc.
    + intros k Hk. apply Hall. now right.
Qed.

(** What a returned score is made of. *)
Lemma walk_forward_returned (ta : TA) (rpow : Q -> Q -> Q) (cfg : Config)
      (data : list Candle) (params : Params) (cs : nat) (splits : list nat) :
  forall simulated metrics blocks score,
    walk_forward ta rpow cfg data params cs splits simulated metrics
    = Returned blocks score ->
    (forall i, In i splits -> block_has_columns ta data params cs i = true)
    /\ blocks = simulated ++ map (block ta data params cs) splits
    /\ score = mean_metric
                 (metrics ++ map (block_metric rpow cfg params)
                                 (map (block ta data params cs) splits)).
Proof.
  induction splits as [|i splits IH]; intros simulated metrics blocks score H.
  - cbn [walk_forward] in H. injection H as <- <-. cbn [map].
    rewrite !app_nil_r. repeat split. intros i [].
  - cbn [walk_forward] in H.
    destruct (block_has_columns ta data params cs i) eqn:Hi; [|discriminate].
    destruct (IH _ _ _ _ H) as (Hall & -> & ->).
    cbn [map]. rewrite <- !app_assoc. repeat split.
    intros j [<-|Hj]; auto.
Qed.

(** A returned score comes from the ten blocks, unless a guard fired. *)
Lemma objective_returned (ta : TA) (rpow : Q -> Q -> Q) (cfg : Config)
      (data : list Candle) (params : Params) (blocks : list DataFrame)
      (score : xq) :
  objective ta rpow cfg data params = Returned blocks score ->
  (blocks = [] /\ score = XFin (- 1)
   /\ ((macd_slow params <= macd_fast params)%Z
       \/ (length data / 10 < 30)%nat))
  \/ ((macd_fast params < macd_slow params)%Z
      /\ (30 <= length data / 10)%nat
      /\ (forall i, (i < 10)%nat ->
                    block_has_columns ta data params (length data / 10) i = true)
      /\ blocks = map (block ta data params (length data / 10)) (seq 0 10)
      /\ score = mean_metric (map (block_metric rpow cfg params) blocks)).
Proof.
  unfold objective, n_splits. intro H.
  destruct (macd_slow params <=? macd_fast params)%Z eqn:E1.
  { injection H as <- <-. left. repeat split. left. now apply Z.leb_le. }
  destruct (length data / 10 <? 30)%nat eqn:E2.
  { injection H as <- <-. left. repeat split. right. now apply Nat.ltb_lt. }
  right. apply Z.leb_gt in E1. apply Nat.ltb_ge in E2.
  destruct (walk_forward_returned _ _ _ _ _ _ _ _ _ _ _ H) as (Hall & -> & ->).
  repeat split; trivial.
  intros i Hi. apply Hall. apply in_seq. lia.
Qed.

(** C5, the claim refuted. On 600 rows of a moving price every block has 60
    rows before the indicators and 11 after their warm-up, fewer than 30;
    the objective nevertheless runs a simulation on each of the 10 blocks,
    over the 10 bars that follow the first row of the block, and returns
    the mean of their metrics. *)
Lemma undersized_blocks_are_simulated :
  exists blocks score,
    objective stub_ta stub_pow config_py choppy_market sample_params
    = Returned blocks score
    /\ length blocks = 10%nat
    /\ Forall (fun blk => length blk = 11%nat) blocks
    /\ Forall (fun blk =>
                 length (Backtester.run_series config_py sample_params blk)
                 = 10%nat) blocks
    /\ score = mean_metric (map (block_metric stub_pow config_py sample_params)
                                blocks).
Proof.
  eexists. eexists. split; [vm_compute; reflexivity|].
  split; [reflexivity|]. split; [repeat constructor|].
  split; [repeat constructor|].
  vm_compute. reflexivity.
Qed.

(** C5, amended. The objective is -1.0 with no block simulated (a) when the
    fast MACD period is at or above the slow one, whatever the other
    parameters, and (b) when the block size before the indicators, the
    integer quotient of the number of rows by the 10 splits, is below 30.
    In every other case in which each block comes back from
    [add_indicators] with its indicator columns, a simulation is run on each
    of the 10 blocks, whatever number of rows the indicator warm-up leaves
    in them, and the score is the mean of the 10 metrics. *)
Theorem objective_short_circuit (ta : TA) (rpow : Q -> Q -> Q) (cfg : Config)
        (data : list Candle) (params : Params) :
  ((macd_slow params <= macd_fast params)%Z ->
   objective ta rpow cfg data params = Returned [] (XFin (- 1)))
  /\ ((length data / 10 < 30)%nat ->
      objective ta rpow cfg data params = Returned [] (XFin (- 1)))
  /\ ((macd_fast params < macd_slow params)%Z ->
      (30 <= length data / 10)%nat ->
      (forall i, (i < 10)%nat ->
                 block_has_columns ta data params (length data / 10) i = true) ->
      let blocks := map (block ta data params (length data / 10)) (seq 0 10) in
      objective ta rpow cfg data params
      = Returned blocks
          (mean_metric (map (block_metric rpow cfg params) blocks))).
Proof.
  unfold objective, n_splits. split; [|split].
  - intro H. apply Z.leb_le in H. now rewrite H.
  - intro H. apply Nat.ltb_lt in H. rewrite H.
    now destruct (macd_slow params <=? macd_fast params)%Z.
  - intros H1 H2 Hall. apply Z.leb_gt in H1. apply Nat.ltb_ge in H2.
    rewrite H1, H2. rewrite walk_forward_complete.
    + reflexivity.
    + intros i Hi. apply Hall. apply in_seq in Hi. lia.
Qed.

Lemma objective_short_circuit_witness :
  objective stub_ta stub_pow config_py quiet_market crossed_macd_params
  = Returned [] (XFin (- 1))
  /\ objective stub_ta stub_pow config_py (firstn 200 quiet_market)
               sample_params
     = Returned [] (XFin (- 1))
  /\ objective stub_ta stub_pow config_py choppy_market sample_params
     = Returned
         (map (block stub_ta choppy_market sample_params
                     (length choppy_market / 10)) (seq 0 10))
         (mean_metric
            (map (block_metric stub_pow config_py sample_params)
                 (map (block stub_ta choppy_market sample_params
                             (length choppy_market / 10)) (seq 0 10)))).
Proof.
  split; [|split].
  - destruct (objective_short_circuit stub_ta stub_pow config_py quiet_market
                                      crossed_macd_params) as (H & _ & _).
    apply H. intro E. discriminate E.
  - destruct (objective_short_circuit stub_ta stub_pow config_py
                (firstn 200 quiet_market) sample_params) as (_ & H & _).
    apply H. apply Nat.ltb_lt. vm_compute. reflexivity.
  - destruct (objective_short_circuit stub_ta stub_pow config_py choppy_market
                                      sample_params) as (_ & _ & H).
    apply H.
    + reflexivity.
    + apply Nat.leb_le. vm_compute. reflexivity.
    + intros i Hi.
      do 10 (destruct i as [|i]; [vm_compute; reflexivity|]). lia.
Defined.

(** ** NaN scores *)

Lemma xsum_nan_acc (l : list xq) : fold_left xadd l XNaN = XNaN.
Proof. induction l as [|x l IH]; simpl; trivial. Qed.

Lemma xsum_nan (l : list xq) : In XNaN l -> xsum l = XNaN.
Proof.
  unfold xsum. generalize (XFin 0).
  induction l as [|x l IH]; intros a H; simpl in *; [contradiction|].
  destruct H as [->|H].
  - replace (xadd a XNaN) with XNaN by (now destruct a).
    apply xsum_nan_acc.
  - now apply IH.
Qed.

Lemma nth_error_zip_with {A B C : Type} (f : A -> B -> C)
      (xs : list A) (ys : list B) (i : nat) :
  nth_error (zip_with f xs ys) i
  = match nth_error xs i, nth_error ys i with
    | Some x, Some y => Some (f x y)
    | _, _ => None
    end.
Proof.
  revert ys i.
  induction xs as [|x xs IH]; intros [|y ys] [|i]; simpl; trivial.
  now destruct (nth_error xs i).
Qed.

Lemma cummax_length (values : list Q) : length (cummax values) = length values.
Proof.
  destruct values as [|x l]; trivial. simpl. f_equal.
  generalize x. induction l as [|y l IH]; intro m; simpl; auto.
Qed.

(** Above a positive first value every running peak is positive, so every
    drawdown is finite. *)
Lemma drawdown_nth (v0 : Q) (rest : list Q) (i : nat) (d : xq) :
  0 < v0 ->
  nth_error (drawdown_series (v0 :: rest)) i = Some d ->
  exists v peak,
    nth_error (v0 :: rest) i = Some v /\ 0 < peak /\ v <= peak
    /\ d = XFin ((v - peak) / peak).
Proof.
  intros Hv0 H. unfold drawdown_series in H.
  rewrite nth_error_zip_with in H.
  destruct (nth_error (v0 :: rest) i) as [v|] eqn:Ev; [|discriminate].
  destruct (nth_error (cummax (v0 :: rest)) i) as [peak|] eqn:Ep;
    [|discriminate].
  destruct (cummax_running_peak _ _ _ Ep) as [_ Hall].
  assert (H0 : v0 <= peak).
  { change (firstn (S i) (v0 :: rest)) with (v0 :: firstn i rest) in Hall.
    now inversion Hall. }
  assert (Hv : v <= peak).
  { rewrite Forall_forall in Hall. apply Hall.
    apply (nth_error_In _ i). rewrite nth_error_firstn.
    assert (L : (i <? S i)%nat = true) by (apply Nat.ltb_lt; lia).
    now rewrite L. }
  exists v, peak. repeat split; trivial; [lra|].
  injection H as <-. cbn [xsub xdiv].
  assert (E : Qeq_bool peak 0 = false) by (apply Qeq_bool_false; lra).
  now rewrite E.
Qed.

Lemma xmin_fold_fin (l : list xq) :
  Forall (fun x => exists a, x = XFin a) l ->
  forall q0, exists q,
      fold_left xmin2 l (XFin q0) = XFin q /\ q <= q0 /\ Forall (fin_ge q) l.
Proof.
  induction 1 as [|x l [a ->] Hl IH]; intro q0; simpl.
  - exists q0. repeat split; [lra|constructor].
  - destruct (Qlt_bool a q0) eqn:E.
    + apply Qlt_bool_iff in E. destruct (IH a) as (q & -> & Hq & Hall).
      exists q. repeat split; [lra|].
      constructor; trivial. exists a. split; trivial.
    + apply Qlt_bool_false in E. destruct (IH q0) as (q & -> & Hq & Hall).
      exists q. repeat split; trivial.
      constructor; trivial. exists a. split; trivial. lra.
Qed.

Lemma xmin_skipna_fin (l : list xq) :
  l <> [] -> Forall (fun x => exists a, x = XFin a) l ->
  exists q, xmin_skipna l = XFin q /\ Forall (fin_ge q) l.
Proof.
  intros Hne H. destruct H as [|x l [a ->] Hl]; [congruence|].
  unfold xmin_skipna. cbn [fold_left xmin2].
  destruct (xmin_fold_fin l Hl a) as (q & -> & Hq & Hall).
  exists q. split; trivial. constructor; trivial. now exists a.
Qed.

(** A series that starts positive and ends negative has a maximum drawdown
    above 1. *)
Lemma max_drawdown_above_one (v0 vn : Q) (mid : list Q) :
  0 < v0 -> vn < 0 ->
  exists q, max_drawdown_of (v0 :: mid ++ [vn]) = XFin q /\ 1 < q.
Proof.
  intros Hv0 Hvn. unfold max_drawdown_of.
  set (values := v0 :: mid ++ [vn]).
  assert (Hfin : Forall (fun x => exists a, x = XFin a) (drawdown_series values)).
  { apply Forall_forall. intros d Hd.
    destruct (In_nth_error _ _ Hd) as [i Hi].
    destruct (drawdown_nth v0 (mid ++ [vn]) i d Hv0 Hi) as (v & pk & _ & _ & _ & ->).
    eexists. reflexivity. }
  assert (Hne : drawdown_series values <> []).
  { intro E. apply (f_equal (@length _)) in E.
    rewrite drawdown_series_length in E. discriminate E. }
  destruct (xmin_skipna_fin _ Hne Hfin) as (q & -> & Hall).
  exists (Qabs q). split; trivial.
  assert (Hlast : nth_error values (S (length mid)) = Some vn).
  { unfold values. cbn [nth_error].
    rewrite nth_error_app2 by lia. now rewrite Nat.sub_diag. }
  destruct (nth_error (drawdown_series values) (S (length mid))) as [d|] eqn:Ed.
  2:{ apply nth_error_None in Ed. rewrite drawdown_series_length in Ed.
      unfold values in Ed. cbn [length] in Ed. rewrite length_app in Ed.
      cbn [length] in Ed. lia. }
  destruct (drawdown_nth v0 (mid ++ [vn]) _ d Hv0 Ed) as (v & pk & Ev & Hpk & _ & ->).
  fold values in Ev. rewrite Hlast in Ev. injection Ev as <-.
  rewrite Forall_forall in Hall.
  destruct (Hall _ (nth_error_In _ _ Ed)) as (a & Ea & Hqa).
  injection Ea as <-.
  assert (Hd : (vn - pk) / pk < - (1)).
  { apply Qlt_shift_div_r; trivial. lra. }
  rewrite Qabs_neg by lra. lra.
Qed.

(** C6, the code at failing inputs. Whenever a portfolio-value series of at
    least one hour starts positive and ends negative, and 8760 over the
    elapsed hours is not an integer, the metric is NaN.  The run on
    [gap_block], with parameters in the ranges the objective draws from,
    records such a series: a positive value at bar 1 and a negative value
    from bar 2 on, over 9 hours.  And whenever the metric of one block is
    NaN, the score that the objective returns is NaN. *)
Theorem nan_score :
  (forall rpow t0 v0 mid tn vn,
      let series := (t0, v0) :: mid ++ [(tn, vn)] in
      0 < v0 -> vn < 0 -> 1 <= elapsed_hours series ->
      is_integer (8760 / elapsed_hours series) = false ->
      _calculate_objective_metric rpow series = XNaN)
  /\ (forall rpow,
         _calculate_objective_metric rpow
           (Backtester.run_series config_py sample_params gap_block) = XNaN)
  /\ (forall ta rpow cfg data params blocks score,
         objective ta rpow cfg data params = Returned blocks score ->
         In XNaN (map (block_metric rpow cfg params) blocks) ->
         score = XNaN).
Proof.
  split; [|split].
  - intros rpow t0 v0 mid tn vn series Hv0 Hvn Hh Hint.
    unfold _calculate_objective_metric.
    assert (Hlen : (length series <? 2)%nat = false).
    { apply Nat.ltb_ge. unfold series. cbn [length]. rewrite length_app.
      cbn [length]. lia. }
    rewrite Hlen. apply Qlt_bool_false in Hh. rewrite Hh.
    assert (Hvalues : map snd series = v0 :: map snd mid ++ [vn]).
    { unfold series. cbn [map snd]. now rewrite map_app. }
    rewrite Hvalues.
    destruct (max_drawdown_above_one v0 vn (map snd mid) Hv0 Hvn)
      as (q & -> & Hq).
    assert (Hd : xlt_bool (XFin q) (XFin (1 # 100)) = false).
    { cbn [xlt_bool]. apply Qlt_bool_false. lra. }
    rewrite Hd.
    assert (Ha : annualized_return_of rpow series = XNaN).
    { unfold annualized_return_of, total_return_of.
      assert (Elast : last series (0%Z, 0) = (tn, vn)).
      { unfold series. change ((t0, v0) :: mid ++ [(tn, vn)])
          with (((t0, v0) :: mid) ++ [(tn, vn)]). apply last_last. }
      rewrite Elast. unfold series at 1. cbn [hd snd xdiv].
      assert (E0 : Qeq_bool v0 0 = false) by (apply Qeq_bool_false; lra).
      rewrite E0. cbn [xsub xadd xpow].
      assert (Hratio : vn / v0 < 0).
      { apply Qlt_shift_div_r; trivial. lra. }
      assert (E1 : Qlt_bool 0 (1 + (vn / v0 - 1)) = false)
        by (apply Qlt_bool_false; lra).
      assert (E2 : Qeq_bool (1 + (vn / v0 - 1)) 0 = false)
        by (apply Qeq_bool_false; lra).
      now rewrite E1, E2, Hint. }
    now rewrite Ha.
  - intro rpow. vm_compute. reflexivity.
  - intros ta rpow cfg data params blocks score Hret H.
    destruct (objective_returned _ _ _ _ _ _ _ Hret)
      as [(-> & _ & _)|(_ & _ & _ & _ & ->)]; [destruct H|].
    unfold mean_metric.
    destruct (map (block_metric rpow cfg params) blocks) as [|m ms] eqn:E;
      [contradiction|].
    now rewrite (xsum_nan _ H).
Qed.

Lemma nan_score_witness :
  _calculate_objective_metric stub_pow
    ((0%Z, 10) :: [(3600%Z, 5)] ++ [(25200%Z, - (3))]) = XNaN
  /\ exists blocks,
      objective stub_ta stub_pow config_py gap_market sample_params
      = Returned blocks XNaN.
Proof.
  destruct nan_score as (H1 & _ & H3). split.
  - apply (H1 stub_pow 0%Z 10 [(3600%Z, 5)] 25200%Z (- (3))).
    + reflexivity.
    + reflexivity.
    + intro E. discriminate E.
    + reflexivity.
  - pose (blocks := map (block stub_ta gap_market sample_params 60) (seq 0 10)).
    pose (score := mean_metric
                     (map (block_metric stub_pow config_py sample_params)
                          blocks)).
    assert (E : objective stub_ta stub_pow config_py gap_market sample_params
                = Returned blocks score) by (vm_compute; reflexivity).
    exists blocks. rewrite E. apply (f_equal (Returned blocks)).
    apply (H3 stub_ta stub_pow config_py gap_market sample_params blocks
              score E).
    left. vm_compute. reflexivity.
Defined.

(** * Further properties of the code *)

(** ** [Backtester.run]: what is returned *)

Lemma nth_error_last {A : Type} (l : list A) (d : A) :
  l <> [] -> nth_error l (length l - 1) = Some (last l d).
Proof.
  induction l as [|x l IH]; [congruence|]. intros _.
  destruct l as [|y l]; trivial.
  change (last (x :: y :: l) d) with (last (y :: l) d).
  rewrite <- IH by discriminate. cbn [length].
  replace (S (S (length l)) - 1)%nat with (S (S (length l) - 1)) by lia.
  reflexivity.
Qed.

Lemma map_fst_combine {A B : Type} (a : list A) (b : list B) :
  length a = length b -> map fst (combine a b) = a.
Proof.
  revert b. induction a as [|x a IH]; intros [|y b] H; simpl in *;
    try discriminate; trivial.
  f_equal. apply IH. now injection H.
Qed.

Lemma map_snd_combine {A B : Type} (a : list A) (b : list B) :
  length a = length b -> map snd (combine a b) = b.
Proof.
  revert b. induction a as [|x a IH]; intros [|y b] H; simpl in *;
    try discriminate; trivial.
  f_equal. apply IH. now injection H.
Qed.

Lemma last_map_eq {A B : Type} (f : A -> B) (l : list A) (d : A) :
  last (map f l) (f d) = f (last l d).
Proof.
  induction l as [|x l IH]; trivial.
  destruct l as [|y l]; trivial.
Qed.

Lemma portfolio_values_length (cfg : Config) (p : Params) (data : DataFrame) :
  length (portfolio_values cfg p data) = (length data - 1)%nat.
Proof. unfold portfolio_values. rewrite length_map. apply trace_length. Qed.

Lemma tl_length {A : Type} (l : list A) : length (tl l) = (length l - 1)%nat.
Proof. destruct l; simpl; lia. Qed.

(** X1. [run()] on a data frame of fewer than two bars returns the initial
    capital, and the series it would return is empty; on two bars or more it
    returns the value recorded at the last bar. *)
Theorem run_returns_last_value (cfg : Config) (p : Params) (data : DataFrame) :
  ((length data <= 1)%nat ->
   run cfg p data = initial_cash cfg /\ run_series cfg p data = [])
  /\ ((2 <= length data)%nat ->
      exists st, at_bar cfg p data (length data - 1)
                 = Some (st, run cfg p data)).
Proof.
  split.
  - intro H. unfold run, run_series.
    assert (E : portfolio_values cfg p data = []).
    { apply length_zero_iff_nil. rewrite portfolio_values_length. lia. }
    rewrite E. split; trivial. now destruct (map ts (tl data)).
  - intro H. unfold run, at_bar.
    destruct (length data - 1)%nat as [|k] eqn:Ek; [lia|].
    assert (Hne : trace cfg p data <> []).
    { intro E. apply (f_equal (@length _)) in E.
      rewrite trace_length in E. simpl in E. lia. }
    pose proof (nth_error_last (trace cfg p data)
                  (init cfg, initial_cash cfg) Hne) as HL.
    rewrite trace_length, Ek in HL. cbn [Nat.sub] in HL.
    rewrite Nat.sub_0_r in HL. rewrite HL.
    unfold portfolio_values.
    exists (fst (last (trace cfg p data) (init cfg, initial_cash cfg))).
    assert (E : last (map snd (trace cfg p data)) (initial_cash cfg)
                = snd (last (trace cfg p data) (init cfg, initial_cash cfg)))
      by apply (last_map_eq snd _ (init cfg, initial_cash cfg)).
    rewrite E. now rewrite <- surjective_pairing.
Qed.

Lemma run_returns_last_value_witness :
  exists st, at_bar config_py scenario_params scenario_data 9
             = Some (st, run config_py scenario_params scenario_data).
Proof.
  destruct (run_returns_last_value config_py scenario_params scenario_data)
    as [_ H].
  apply H. simpl. lia.
Defined.

(** X2. The series [run(return_value_series=True)] returns has one entry for
    every bar after the first: its index is the data frame's index without
    its first element, in order, and its values are the recorded portfolio
    values, so index and values always have the same length. *)
Theorem run_series_aligned (cfg : Config) (p : Params) (data : DataFrame) :
  map fst (run_series cfg p data) = map ts (tl data)
  /\ map snd (run_series cfg p data) = portfolio_values cfg p data
  /\ length (run_series cfg p data) = (length data - 1)%nat.
Proof.
  assert (H : length (map ts (tl data)) = length (portfolio_values cfg p data)).
  { now rewrite length_map, tl_length, portfolio_values_length. }
  unfold run_series. repeat split.
  - now apply map_fst_combine.
  - now apply map_snd_combine.
  - rewrite length_combine, <- H, Nat.min_id, length_map. apply tl_length.
Qed.

(** ** [Backtester._generate_signals]: conflicting signals *)

(** X3. The buy and the sell signal of one bar can both be true, but only
    from bar 1 on, only when the ADX is above its threshold, and only when
    trend and momentum disagree: either the close is above the trend line
    while the MACD line has just fallen below its signal line, or the close
    is below the trend line while the MACD line has just risen above it. *)
Theorem conflicting_signals (p : Params) (data : DataFrame) (i : nat) :
  nth_error (buy_signal p data) i = Some true ->
  nth_error (sell_signal p data) i = Some true ->
  exists prev bar,
    (1 <= i)%nat
    /\ nth_error data (i - 1) = Some prev /\ nth_error data i = Some bar
    /\ adx_threshold p < adx bar
    /\ ((ema bar < close bar
         /\ macd_sig prev < macd_line prev /\ macd_line bar < macd_sig bar)
        \/ (close bar < ema bar
            /\ macd_line prev < macd_sig prev /\ macd_sig bar < macd_line bar)).
Proof.
  intros Hb Hs.
  rewrite buy_signal_rows, rows_from_nth in Hb.
  rewrite sell_signal_rows, rows_from_nth in Hs.
  destruct (nth_error data i) as [bar|] eqn:Ebar; [|discriminate].
  cbn [option_map] in Hb, Hs. injection Hb as Hb. injection Hs as Hs.
  unfold buy_at, sell_at, two_of_three, gt_na in *.
  destruct (Qlt_bool (ema bar) (close bar)) eqn:Eup.
  - (* close above the trend line *)
    rewrite (Qlt_bool_asym _ _ Eup) in Hs.
    destruct (Qlt_bool (adx_threshold p) (adx bar)) eqn:Eadx;
      [|destruct (_ && _) in Hs; discriminate].
    destruct i as [|k];
      [cbn in Hs; discriminate|].
    destruct (nth_error data k) as [prev|] eqn:Eprev;
      [|cbn in Hs; discriminate].
    cbn [option_map lt_na] in Hs.
    destruct (Qlt_bool (macd_sig prev) (macd_line prev)) eqn:E1;
      [|cbn in Hs; discriminate].
    destruct (Qlt_bool (macd_line bar) (macd_sig bar)) eqn:E2;
      [|cbn in Hs; discriminate].
    exists prev, bar. replace (S k - 1)%nat with k by lia.
    repeat split; trivial; try lia.
    + now apply Qlt_bool_iff.
    + left. repeat split; now apply Qlt_bool_iff.
  - (* close not above the trend line *)
    destruct (Qlt_bool (adx_threshold p) (adx bar)) eqn:Eadx;
      [|destruct (_ && _) in Hb; discriminate].
    destruct i as [|k];
      [cbn in Hb; discriminate|].
    destruct (nth_error data k) as [prev|] eqn:Eprev;
      [|cbn in Hb; discriminate].
    cbn [option_map lt_na] in Hb, Hs.
    destruct (Qlt_bool (macd_line prev) (macd_sig prev)) eqn:E1;
      [|cbn in Hb; discriminate].
    destruct (Qlt_bool (macd_sig bar) (macd_line bar)) eqn:E2;
      [|cbn in Hb; discriminate].
    rewrite (Qlt_bool_asym _ _ E1), (Qlt_bool_asym _ _ E2) in Hs.
    destruct (Qlt_bool (close bar) (ema bar)) eqn:Edown;
      [|cbn in Hs; discriminate].
    exists prev, bar. replace (S k - 1)%nat with k by lia.
    repeat split; trivial; try lia.
    + now apply Qlt_bool_iff.
    + right. repeat split; now apply Qlt_bool_iff.
Qed.

Lemma conflicting_signals_witness :
  let prev := {| ts := 0; close := 100; ema := 100; adx := 10;
                 macd_line := 1; macd_sig := 0 |} in
  let bar := {| ts := 3600; close := 100; ema := 99; adx := 40;
                macd_line := 0; macd_sig := 1 |} in
  exists prev' bar',
    (1 <= 1)%nat
    /\ nth_error [prev; bar] (1 - 1) = Some prev'
    /\ nth_error [prev; bar] 1 = Some bar'
    /\ adx_threshold sample_params < adx bar'
    /\ ((ema bar' < close bar'
         /\ macd_sig prev' < macd_line prev' /\ macd_line bar' < macd_sig bar')
        \/ (close bar' < ema bar'
            /\ macd_line prev' < macd_sig prev'
            /\ macd_sig bar' < macd_line bar')).
Proof.
  intros prev bar.
  apply (conflicting_signals sample_params [prev; bar] 1).
  - reflexivity.
  - reflexivity.
Defined.

(** ** [Backtester.run]: holding, entering and closing *)

(** X4. While a position is open and the bar's price is strictly between its
    stop and its target, the bar changes neither cash, nor position, nor
    entry price, whatever the signals are: an open position is never added
    to nor reversed by a signal.  The value recorded is the mark-to-market
    of the unchanged position. *)
Theorem open_position_ignores_signals (cfg : Config) (p : Params) (st : State)
        (price : Q) (buy sell : bool) :
  (0 < position st ->
   entry_price st * (1 - stop_loss p) < price ->
   price < entry_price st * (1 + take_profit p) ->
   bar_body cfg p st price buy sell = (st, cash st + position st * price))
  /\ (position st < 0 ->
      price < entry_price st * (1 + stop_loss p) ->
      entry_price st * (1 - take_profit p) < price ->
      bar_body cfg p st price buy sell
      = (st, cash st - Qabs (position st) * price)).
Proof.
  split.
  - intros Hpos H1 H2.
    assert (HL : side st = Long) by now apply side_long_iff.
    assert (Ht : exit_triggered p st price = false).
    { unfold exit_triggered. rewrite HL. apply orb_false_iff.
      split; now apply Qle_bool_false. }
    rewrite (surjective_pairing (bar_body cfg p st price buy sell)).
    rewrite bar_body_snd, hold_step; trivial; [|congruence].
    unfold mark_to_market. now rewrite HL.
  - intros Hpos H1 H2.
    assert (HS : side st = Short) by now apply side_short_iff.
    assert (Ht : exit_triggered p st price = false).
    { unfold exit_triggered. rewrite HS. apply orb_false_iff.
      split; now apply Qle_bool_false. }
    rewrite (surjective_pairing (bar_body cfg p st price buy sell)).
    rewrite bar_body_snd, hold_step; trivial; [|congruence].
    unfold mark_to_market. now rewrite HS.
Qed.

Lemma open_position_ignores_signals_witness :
  let st := {| cash := 499375; position := 5000; entry_price := 100 |} in
  bar_body config_py scenario_params st 110 true true
  = (st, cash st + position st * 110).
Proof.
  intro st.
  destruct (open_position_ignores_signals config_py scenario_params st 110
                                          true true) as [H _].
  apply H; reflexivity.
Defined.

(** X5. A Short opened by the loop body from a flat state at price [p] with
    a positive investment [v = cash * n_shares] ([v * (1 - commission)] is
    credited) and held over any number of bars inside its stop and target
    is closed by the loop body at the first bar whose price [q] has crossed
    the stop or the target; cash is then the starting cash minus
    [2 * v * commission] minus the price move with its commission,
    [v * (q / p - 1) * (1 + commission)].  At an unchanged price a short
    round trip would cost the same two commission legs as a long one.
    Whatever the signals of the closing bar, the bar goes on from the closed
    state. *)
Theorem short_round_trip (cfg : Config) (p : Params) (st : State)
        (price q : Q) (mid : list Reading) :
  let v := cash st * n_shares p in
  let opened := fst (bar_body cfg p st price false true) in
  let held := last (map fst (loop cfg p opened mid)) opened in
  let closed := fst (bar_body cfg p held q false false) in
  position st == 0 -> 0 < price -> 0 < v ->
  Forall (fun r => price * (1 - take_profit p) < fst (fst r)
                   /\ fst (fst r) < price * (1 + stop_loss p)) mid ->
  price * (1 + stop_loss p) <= q \/ q <= price * (1 - take_profit p) ->
  cash opened == cash st + v * (1 - commission cfg)
  /\ position opened == - (v / price)
  /\ held = opened
  /\ position closed == 0
  /\ cash closed
     == cash st - 2 * v * commission cfg
        - v * (q / price - 1) * (1 + commission cfg)
  /\ (q == price -> cash closed == cash st - 2 * v * commission cfg)
  /\ (forall b s, bar_body cfg p held q b s = bar_body cfg p closed q b s).
Proof.
  intros v opened held closed Hzero Hprice Hv Hmid Hexit.
  assert (Hflat : side st = Flat) by now apply side_flat_eq.
  assert (E0 : exit_check cfg p st price = st).
  { unfold exit_check, exit_triggered. now rewrite Hflat. }
  assert (E : opened
              = {| cash := cash st + v * (1 - commission cfg);
                   position := - (v / price); entry_price := price |}).
  { unfold opened. rewrite bar_body_fst, E0. unfold entry_check.
    now rewrite Hflat. }
  assert (Hsize : 0 < v / price) by now apply Qdiv_pos.
  assert (Hneg : - (v / price) < 0) by lra.
  assert (HS : side opened = Short).
  { apply side_short_iff. now rewrite E. }
  assert (EH : held = opened).
  { unfold held. rewrite E. now apply held_short. }
  assert (Htrig : exit_triggered p opened q = true).
  { unfold exit_triggered. rewrite HS, E. cbn [entry_price].
    apply orb_true_iff.
    destruct Hexit; [left|right]; now apply Qle_bool_iff. }
  destruct (closing_bar cfg p opened q Htrig) as [EC Hgo].
  assert (Ecash : cash closed
                  == cash st - 2 * v * commission cfg
                     - v * (q / price - 1) * (1 + commission cfg)).
  { unfold closed. rewrite EH, EC. unfold close_at. rewrite HS, E.
    cbn [cash position]. rewrite Qabs_neg by lra. field. lra. }
  split; [now rewrite E|]. split; [now rewrite E|].
  split; [exact EH|]. split.
  { unfold closed. rewrite EH, EC. unfold close_at. rewrite HS. reflexivity. }
  split; [exact Ecash|]. split.
  - intro Hq. rewrite Ecash, Hq. field. lra.
  - intros b s. unfold closed. rewrite EH, EC. apply Hgo.
Qed.

Lemma short_round_trip_witness :
  let st := {| cash := 2000; position := 0; entry_price := 0 |} in
  let opened := fst (bar_body config_py sample_params st 100 false true) in
  let held :=
    last (map fst (loop config_py sample_params opened [(95, true, false)]))
         opened in
  let closed := fst (bar_body config_py sample_params held 80 false false) in
  position closed == 0
  /\ cash closed
     == 2000 - 2 * (2000 * (1 # 2)) * COMMISSION
        - 2000 * (1 # 2) * (80 / 100 - 1) * (1 + COMMISSION).
Proof.
  intros st opened held closed.
  destruct (short_round_trip config_py sample_params st 100 80
                             [(95, true, false)])
    as (_ & _ & _ & H4 & H5 & _).
  - reflexivity.
  - reflexivity.
  - reflexivity.
  - repeat constructor.
  - right. intro H. discriminate H.
  - split; [exact H4|exact H5].
Defined.

(** X6. At the bar where a Long is entered (buy signal, state flat at the
    entry check, [cash > outlay], positive price) the value recorded is the
    pre-trade cash minus [investment * commission]: entering costs one
    commission leg and nothing else.  When the capital check fails the value
    recorded is the unchanged cash. *)
Theorem long_entry_valuation (cfg : Config) (p : Params) (st : State)
        (price : Q) (sell : bool) :
  let st1 := exit_check cfg p st price in
  let investment := cash st1 * n_shares p in
  let outlay := investment * (1 + commission cfg) in
  let v := snd (bar_body cfg p st price true sell) in
  side st1 = Flat -> 0 < price ->
  (outlay < cash st1 -> v == cash st1 - investment * commission cfg)
  /\ (~ outlay < cash st1 -> v = cash st1).
Proof.
  intros st1 investment outlay v Hflat Hprice.
  assert (Ev : v = mark_to_market (open_long cfg p st1 price) price).
  { unfold v. rewrite bar_body_snd, bar_body_fst. fold st1.
    unfold entry_check. now rewrite Hflat. }
  rewrite Ev. unfold open_long. fold investment. fold outlay. split.
  - intro H. apply Qlt_bool_iff in H. rewrite H.
    set (s2 := {| cash := cash st1 - outlay; position := investment / price;
                  entry_price := price |}).
    assert (Hmul : investment / price * price == investment) by (field; lra).
    unfold mark_to_market.
    destruct (side_cases s2) as [(-> & _)|[(-> & _ & L & _)|(-> & _ & _ & Z)]];
      cbn [cash position s2] in *; unfold outlay.
    + nra.
    + apply Qlt_bool_iff in L. rewrite Qabs_neg by lra. nra.
    + apply Qeq_bool_iff in Z. nra.
  - intro H. destruct (Qlt_bool outlay (cash st1)) eqn:L.
    + apply Qlt_bool_iff in L. contradiction.
    + unfold mark_to_market. now rewrite Hflat.
Qed.

Lemma long_entry_valuation_witness :
  let st := {| cash := 2000; position := 0; entry_price := 0 |} in
  snd (bar_body config_py sample_params st 50 true false)
  == 2000 - 2000 * (1 # 2) * COMMISSION.
Proof.
  intro st.
  destruct (long_entry_valuation config_py sample_params st 50 false) as [H _].
  - reflexivity.
  - reflexivity.
  - apply H. reflexivity.
Defined.

(** X7. Closing a position costs exactly the commission on what is traded.
    At a bar that triggers the exit and carries no signal, the state becomes
    flat and the value recorded is the mark-to-market value the open
    position had at that price ([cash + size * price] for a Long,
    [cash - |size| * price] for a Short) minus
    [|size| * price * commission]. *)
Theorem closing_costs_one_commission (cfg : Config) (p : Params) (st : State)
        (price : Q) :
  let st' := fst (bar_body cfg p st price false false) in
  let v := snd (bar_body cfg p st price false false) in
  (0 < position st ->
   price <= entry_price st * (1 - stop_loss p)
   \/ entry_price st * (1 + take_profit p) <= price ->
   position st' = 0
   /\ v == cash st + position st * price
           - position st * price * commission cfg)
  /\ (position st < 0 ->
      entry_price st * (1 + stop_loss p) <= price
      \/ price <= entry_price st * (1 - take_profit p) ->
      position st' = 0
      /\ v == cash st - Qabs (position st) * price
              - Qabs (position st) * price * commission cfg).
Proof.
  intros st' v. unfold v. rewrite bar_body_snd. fold st'.
  unfold st'. rewrite bar_body_fst. split.
  - intros Hpos Htrig.
    assert (HL : side st = Long) by now apply side_long_iff.
    assert (Ht : exit_triggered p st price = true).
    { unfold exit_triggered. rewrite HL. apply orb_true_iff.
      destruct Htrig; [left|right]; now apply Qle_bool_iff. }
    unfold exit_check. rewrite Ht. unfold close_at. rewrite HL.
    unfold entry_check. rewrite side_flat_zero.
    unfold mark_to_market. rewrite side_flat_zero. cbn [cash position].
    split; [reflexivity|ring].
  - intros Hpos Htrig.
    assert (HS : side st = Short) by now apply side_short_iff.
    assert (Ht : exit_triggered p st price = true).
    { unfold exit_triggered. rewrite HS. apply orb_true_iff.
      destruct Htrig; [left|right]; now apply Qle_bool_iff. }
    unfold exit_check. rewrite Ht. unfold close_at. rewrite HS.
    unfold entry_check. rewrite side_flat_zero.
    unfold mark_to_market. rewrite side_flat_zero. cbn [cash position].
    split; [reflexivity|ring].
Qed.

Lemma closing_costs_one_commission_witness :
  let st := {| cash := 499375; position := 5000; entry_price := 100 |} in
  position (fst (bar_body config_py scenario_params st 130 false false)) = 0
  /\ snd (bar_body config_py scenario_params st 130 false false)
     == cash st + position st * 130 - position st * 130 * COMMISSION.
Proof.
  intro st.
  destruct (closing_costs_one_commission config_py scenario_params st 130)
    as [H _].
  apply H.
  - reflexivity.
  - right. intro E. discriminate E.
Defined.

(** ** Runs without signals *)

Lemma Forall_false_nth (l : list bool) (i : nat) (b : bool) :
  Forall (fun x => x = false) l -> nth_error l i = Some b -> b = false.
Proof.
  intros H E. rewrite Forall_forall in H. apply H. eapply nth_error_In; eauto.
Qed.

Lemma idle_loop (cfg : Config) (p : Params) (rs : list Reading) :
  Forall (fun r => snd (fst r) = false /\ snd r = false) rs ->
  loop cfg p (init cfg) rs
  = repeat (init cfg, initial_cash cfg) (length rs).
Proof.
  induction 1 as [|[[c b] s] rs [Hb Hs] Hrs IH]; trivial.
  cbn [fst snd] in Hb, Hs. subst b s.
  cbn [loop length repeat].
  assert (E : bar_body cfg p (init cfg) c false false
              = (init cfg, initial_cash cfg)) by reflexivity.
  rewrite E. cbn [fst]. now rewrite IH.
Qed.

Lemma idle_trace (cfg : Config) (p : Params) (data : DataFrame) :
  Forall (fun b => b = false) (buy_signal p data) ->
  Forall (fun s => s = false) (sell_signal p data) ->
  trace cfg p data = repeat (init cfg, initial_cash cfg) (length data - 1).
Proof.
  intros Hb Hs. unfold trace.
  rewrite idle_loop.
  - now rewrite tl_length, readings_length.
  - apply Forall_tl, readings_Forall. intros i bar b s _ Eb Es.
    cbn [fst snd].
    split; [apply (Forall_false_nth _ _ _ Hb Eb)
           |apply (Forall_false_nth _ _ _ Hs Es)].
Qed.

(** X8. On a data frame whose buy and sell signals are all false the run
    never trades: after every bar the loop variables are the initial ones,
    every recorded value is the initial capital, and [run()] returns the
    initial capital. *)
Theorem run_without_signals (cfg : Config) (p : Params) (data : DataFrame) :
  Forall (fun b => b = false) (buy_signal p data) ->
  Forall (fun s => s = false) (sell_signal p data) ->
  trace cfg p data = repeat (init cfg, initial_cash cfg) (length data - 1)
  /\ portfolio_values cfg p data
     = repeat (initial_cash cfg) (length data - 1)
  /\ run cfg p data = initial_cash cfg.
Proof.
  intros Hb Hs. pose proof (idle_trace cfg p data Hb Hs) as E.
  assert (Ev : portfolio_values cfg p data
               = repeat (initial_cash cfg) (length data - 1)).
  { unfold portfolio_values. rewrite E.
    generalize (length data - 1)%nat. intro n.
    induction n as [|n IH]; simpl; congruence. }
  repeat split; trivial.
  unfold run. rewrite Ev.
  generalize (length data - 1)%nat. intro n.
  induction n as [|n IH]; trivial.
  destruct n; trivial.
Qed.

Lemma run_without_signals_witness :
  run config_py sample_params [quiet_bar 0 100; quiet_bar 3600 90;
                               quiet_bar 7200 120]
  = initial_cash config_py.
Proof.
  apply (run_without_signals config_py sample_params
           [quiet_bar 0 100; quiet_bar 3600 90; quiet_bar 7200 120]).
  - repeat constructor.
  - repeat constructor.
Defined.

Lemma metric_of_constant (rpow : Q -> Q -> Q) (series : list (Z * Q)) (c : Q) :
  ~ c == 0 -> Forall (fun e => snd e == c) series ->
  _calculate_objective_metric rpow series = XFin 0.
Proof.
  intros Hc Hall. unfold _calculate_objective_metric.
  destruct (length series <? 2)%nat eqn:H; trivial.
  destruct (Qlt_bool (elapsed_hours series) 1); trivial.
  assert (Hd : xlt_bool (max_drawdown_of (map snd series)) (XFin (1 # 100))
               = true).
  { apply (max_drawdown_const c); trivial.
    - destruct series; discriminate.
    - apply Forall_map. exact Hall. }
  now rewrite Hd.
Qed.

(** X9. A walk-forward block of at least two rows whose signals are all
    false scores exactly 0.0 (not the penalty -1.0), whatever its prices,
    provided the initial capital is not zero: the value series is constant,
    so either it is too short to annualize or its drawdown is zero. *)
Theorem idle_block_scores_zero (rpow : Q -> Q -> Q) (cfg : Config)
        (p : Params) (blk : DataFrame) :
  ~ initial_cash cfg == 0 -> (2 <= length blk)%nat ->
  Forall (fun b => b = false) (buy_signal p blk) ->
  Forall (fun s => s = false) (sell_signal p blk) ->
  block_metric rpow cfg p blk = XFin 0.
Proof.
  intros Hc Hlen Hb Hs. unfold block_metric.
  assert (Hall : Forall (fun e => snd e == initial_cash cfg)
                        (run_series cfg p blk)).
  { apply (proj1 (Forall_map snd (fun v => v == initial_cash cfg) _)).
    assert (E : map snd (run_series cfg p blk) = portfolio_values cfg p blk).
    { unfold run_series. apply map_snd_combine.
      now rewrite length_map, tl_length, portfolio_values_length. }
    rewrite E. unfold portfolio_values. rewrite (idle_trace cfg p blk Hb Hs).
    apply Forall_map, Forall_forall. intros e He.
    apply repeat_spec in He. subst e. reflexivity. }
  destruct (run_series cfg p blk) as [|e l] eqn:E.
  - exfalso. apply (f_equal (@length _)) in E. unfold run_series in E.
    rewrite length_combine, length_map, tl_length, portfolio_values_length in E.
    simpl in E. lia.
  - now apply (metric_of_constant rpow _ (initial_cash cfg)).
Qed.

Lemma idle_block_scores_zero_witness :
  block_metric stub_pow config_py sample_params
    [quiet_bar 0 100; quiet_bar 3600 90; quiet_bar 7200 120]
  = XFin 0.
Proof.
  apply idle_block_scores_zero.
  - intro E. discriminate E.
  - simpl. lia.
  - repeat constructor.
  - repeat constructor.
Defined.

(** ** [Optimizer._calculate_objective_metric] on positive series *)

Lemma xmin_fold_in (l : list xq) :
  Forall (fun x => exists a, x = XFin a) l ->
  forall q0,
    fold_left xmin2 l (XFin q0) = XFin q0
    \/ In (fold_left xmin2 l (XFin q0)) l.
Proof.
  induction 1 as [|x l [a ->] Hl IH]; intro q0; [now left|].
  cbn [fold_left xmin2 xlt_bool].
  destruct (Qlt_bool a q0).
  - destruct (IH a) as [->|H]; right; [now left|now right].
  - destruct (IH q0) as [->|H]; [now left|right; now right].
Qed.

Lemma xmin_skipna_in (l : list xq) :
  l <> [] -> Forall (fun x => exists a, x = XFin a) l ->
  In (xmin_skipna l) l.
Proof.
  intros Hne H. destruct H as [|x l [a ->] Hl]; [congruence|].
  unfold xmin_skipna. cbn [fold_left xmin2].
  destruct (xmin_fold_in l Hl a) as [->|H]; [now left|now right].
Qed.




(** X24. The branches of the metric: it is 0.0 on a series of fewer than 2
    points; 0.0 when the first and the last timestamp are less than one
    hour apart; 0.0 when the maximum drawdown, the absolute value of the
    minimum of [(value - running peak) / running peak], is below 0.01; and
    otherwise [annualized_return / max_drawdown], with
    [total_return = last / first - 1] and
    [annualized_return = (1 + total_return) ** (8760 / elapsed_hours) - 1].
    A constant series whose value is not zero yields 0.0.  Each running
    peak is a value of the series up to its bar and at least every such
    value; and on a series that starts positive the minimum is a finite
    drawdown of the series that is at most every other one. *)
Theorem objective_metric_cases (rpow : Q -> Q -> Q) (series : list (Z * Q)) :
  let metric := _calculate_objective_metric rpow series in
  let values := map snd series in
  let first_value := snd (hd (0%Z, 0) series) in
  let last_value := snd (last series (0%Z, 0)) in
  let total_return := xsub (xdiv (XFin last_value) (XFin first_value)) (XFin 1) in
  let annualized_return :=
    xsub (xpow rpow (xadd (XFin 1) total_return) (8760 / elapsed_hours series))
         (XFin 1) in
  let max_drawdown :=
    xabs (xmin_skipna
            (zip_with (fun v peak => xdiv (xsub (XFin v) (XFin peak)) (XFin peak))
                      values (cummax values))) in
  ((length series < 2)%nat -> metric = XFin 0)
  /\ ((2 <= length series)%nat -> elapsed_hours series < 1 -> metric = XFin 0)
  /\ ((2 <= length series)%nat -> 1 <= elapsed_hours series ->
      xlt_bool max_drawdown (XFin (1 # 100)) = true -> metric = XFin 0)
  /\ ((2 <= length series)%nat -> 1 <= elapsed_hours series ->
      xlt_bool max_drawdown (XFin (1 # 100)) = false ->
      metric = xdiv annualized_return max_drawdown)
  /\ (forall c, ~ c == 0 -> Forall (fun e => snd e == c) series ->
      metric = XFin 0)
  /\ (forall i peak, nth_error (cummax values) i = Some peak ->
      In peak (firstn (S i) values)
      /\ Forall (fun v => v <= peak) (firstn (S i) values))
  /\ (0 < first_value ->
      exists m,
        In (XFin m) (drawdown_series values)
        /\ (forall d, In d (drawdown_series values) ->
                      exists a, d = XFin a /\ m <= a)
        /\ max_drawdown = XFin (Qabs m)).
Proof.
  intros metric values first_value last_value total_return annualized_return
         max_drawdown.
  assert (Hmin : 0 < first_value ->
      exists m,
        In (XFin m) (drawdown_series values)
        /\ (forall d, In d (drawdown_series values) ->
                      exists a, d = XFin a /\ m <= a)
        /\ max_drawdown = XFin (Qabs m)).
  { intro Hfirst. unfold max_drawdown.
    change (zip_with (fun v peak => xdiv (xsub (XFin v) (XFin peak)) (XFin peak))
                     values (cummax values))
      with (drawdown_series values).
    unfold values, first_value in *.
    destruct series as [|[t0 v0] rest]; [cbn in Hfirst; lra|].
    cbn [hd snd] in Hfirst. cbn [map snd].
    set (vs := v0 :: map snd rest).
    assert (Hfin : Forall (fun x => exists a, x = XFin a) (drawdown_series vs)).
    { apply Forall_forall. intros d Hd.
      destruct (In_nth_error _ _ Hd) as [i Hi].
      destruct (drawdown_nth v0 (map snd rest) i d Hfirst Hi)
        as (v & pk & _ & _ & _ & ->).
      eexists. reflexivity. }
    assert (Hne : drawdown_series vs <> []).
    { intro E. apply (f_equal (@length _)) in E.
      rewrite drawdown_series_length in E. discriminate E. }
    pose proof (xmin_skipna_in _ Hne Hfin) as Hin.
    destruct (xmin_skipna_fin _ Hne Hfin) as (m & Em & Hall).
    exists m. rewrite Em in Hin |- *. split; [exact Hin|].
    split; [|reflexivity].
    intros d Hd. rewrite Forall_forall in Hall. exact (Hall d Hd). }
  revert Hmin.
  assert (Hpeak : forall i peak, nth_error (cummax values) i = Some peak ->
      In peak (firstn (S i) values)
      /\ Forall (fun v => v <= peak) (firstn (S i) values))
    by (intros i peak; apply cummax_running_peak).
  revert Hpeak.
  unfold metric, _calculate_objective_metric.
  change (max_drawdown_of (map snd series)) with max_drawdown.
  change (annualized_return_of rpow series) with annualized_return.
  intros Hpeak Hmin.
  split; [|split; [|split; [|split; [|split; [|split; [exact Hpeak|exact Hmin]]]]]].
  - intro H. apply Nat.ltb_lt in H. now rewrite H.
  - intros H Hh. apply Nat.ltb_ge in H. rewrite H.
    apply Qlt_bool_iff in Hh. now rewrite Hh.
  - intros H Hh Hd. apply Nat.ltb_ge in H. rewrite H.
    apply Qlt_bool_false in Hh. now rewrite Hh, Hd.
  - intros H Hh Hd. apply Nat.ltb_ge in H. rewrite H.
    apply Qlt_bool_false in Hh. now rewrite Hh, Hd.
  - intros c Hc Hall.
    destruct (length series <? 2)%nat eqn:H; trivial.
    destruct (Qlt_bool (elapsed_hours series) 1); trivial.
    assert (Hd : xlt_bool max_drawdown (XFin (1 # 100)) = true).
    { apply (max_drawdown_const c); trivial.
      - destruct series; [discriminate|]. discriminate.
      - apply Forall_map. exact Hall. }
    now rewrite Hd.
Qed.

Lemma objective_metric_cases_witness :
  _calculate_objective_metric stub_pow [(0%Z, 5); (3600%Z, 5); (7200%Z, 5)]
  = XFin 0.
Proof.
  destruct (objective_metric_cases stub_pow [(0%Z, 5); (3600%Z, 5); (7200%Z, 5)])
    as (_ & _ & _ & _ & H & _ & _).
  apply (H 5).
  - intro E. discriminate E.
  - repeat constructor.
Defined.







Lemma cummax_from_sorted (l : list Q) :
  StronglySorted Qle l ->
  forall m, Forall (fun v => m <= v) l -> Forall2 Qeq (cummax_from m l) l.
Proof.
  induction 1 as [|x l Hl IH Hx]; intros m Hm; [constructor|].
  assert (Hmx : m <= x) by now inversion Hm.
  cbn [cummax_from].
  assert (E : (if Qlt_bool m x then x else m) == x).
  { destruct (Qlt_bool m x) eqn:L; [reflexivity|].
    apply Qlt_bool_false in L. lra. }
  constructor; trivial.
  apply IH. eapply Forall_impl; [|exact Hx].
  intros v Hv. cbv beta in Hv. rewrite E. exact Hv.
Qed.

Lemma cummax_sorted (l : list Q) :
  StronglySorted Qle l -> Forall2 Qeq (cummax l) l.
Proof.
  intro H. destruct H as [|x l Hl Hx]; [constructor|].
  cbn [cummax]. constructor; [reflexivity|].
  now apply cummax_from_sorted.
Qed.

Lemma drawdown_at_peak (values peaks : list Q) :
  Forall2 Qeq peaks values -> Forall (fun v => 0 < v) values ->
  Forall zero_fin
    (zip_with (fun v m => xdiv (xsub (XFin v) (XFin m)) (XFin m)) values peaks).
Proof.
  induction 1 as [|m v peaks values Hmv H IH]; intro Hpos; [constructor|].
  inversion Hpos as [|? ? Hv Hrest]; subst.
  cbn [zip_with]. constructor; [|now apply IH].
  cbn [xsub xdiv].
  assert (E : Qeq_bool m 0 = false) by (apply Qeq_bool_false; lra).
  rewrite E. exists ((v - m) / m). split; trivial.
  rewrite Hmv. field. lra.
Qed.

(** X11. A series of positive values that never declines scores exactly 0.0,
    however large its return: every value is its own running peak, the
    maximum drawdown is zero, and the 1% floor applies. *)
Theorem never_declining_series_scores_zero (rpow : Q -> Q -> Q)
        (series : list (Z * Q)) :
  Forall (fun e => 0 < snd e) series ->
  StronglySorted Qle (map snd series) ->
  _calculate_objective_metric rpow series = XFin 0.
Proof.
  intros Hpos Hsorted. unfold _calculate_objective_metric.
  destruct (length series <? 2)%nat eqn:Hlen; trivial.
  destruct (Qlt_bool (elapsed_hours series) 1); trivial.
  assert (Hd : xlt_bool (max_drawdown_of (map snd series)) (XFin (1 # 100))
               = true).
  { unfold max_drawdown_of, xmin_skipna, drawdown_series.
    assert (Hz : Forall zero_fin
                   (zip_with (fun v m => xdiv (xsub (XFin v) (XFin m)) (XFin m))
                             (map snd series) (cummax (map snd series)))).
    { apply drawdown_at_peak; [now apply cummax_sorted|now apply Forall_map]. }
    destruct (xmin_fold_zero _ Hz XNaN) as (q & -> & Hq); auto.
    - left. intro E. apply (f_equal (@length _)) in E.
      rewrite zip_with_length in E by now rewrite cummax_length.
      rewrite length_map in E. destruct series; discriminate.
    - cbn. apply Qlt_bool_iff. rewrite Hq. reflexivity. }
  now rewrite Hd.
Qed.

Lemma never_declining_series_scores_zero_witness :
  _calculate_objective_metric stub_pow
    [(0%Z, 100); (3600%Z, 150); (7200%Z, 150); (10800%Z, 900)] = XFin 0.
Proof.
  apply never_declining_series_scores_zero.
  - repeat constructor.
  - repeat constructor; intro E; discriminate E.
Defined.

(** ** [Optimizer.objective]: the blocks *)

Lemma firstn_plus {A : Type} (a b : nat) (l : list A) :
  firstn (a + b) l = firstn a l ++ firstn b (skipn a l).
Proof.
  revert l. induction a as [|a IH]; intro l; trivial.
  destruct l as [|x l]; simpl.
  - now rewrite firstn_nil.
  - f_equal. apply IH.
Qed.

Lemma chunk_eq (data : list Candle) (cs i : nat) :
  chunk data cs i = firstn cs (skipn (i * cs) data).
Proof.
  unfold chunk, iloc_slice. f_equal. lia.
Qed.

Lemma concat_chunks (data : list Candle) (cs n : nat) :
  concat (map (chunk data cs) (seq 0 n)) = firstn (n * cs) data.
Proof.
  induction n as [|n IH]; trivial.
  rewrite seq_S, map_app, concat_app, IH. cbn [map concat Nat.add].
  rewrite app_nil_r, chunk_eq.
  replace (S n * cs)%nat with (n * cs + cs)%nat by lia.
  symmetry. apply firstn_plus.
Qed.

Lemma chunk_length (data : list Candle) (cs i n : nat) :
  (n * cs <= length data)%nat -> (i < n)%nat -> length (chunk data cs i) = cs.
Proof.
  intros Hn Hi. rewrite chunk_eq, length_firstn, length_skipn.
  assert ((i + 1) * cs <= n * cs)%nat by (apply Nat.mul_le_mono_r; lia).
  lia.
Qed.

(** X12. The walk-forward blocks are cut from consecutive, disjoint slices
    of the data set: with [chunk_size = len(data) // 10], the ten chunks
    have [chunk_size] rows each, put end to end they are the first
    [10 * chunk_size] rows in order, and the [len(data) mod 10] rows left
    over at the end belong to no chunk.  When the objective returns a
    score without short-circuiting, the data frames it simulated are
    [add_indicators] of these chunks. *)
Theorem chunks_partition (data : list Candle) :
  let chunk_size := (length data / 10)%nat in
  let chunks := map (chunk data chunk_size) (seq 0 10) in
  Forall (fun c => length c = chunk_size) chunks
  /\ concat chunks ++ skipn (10 * chunk_size) data = data
  /\ length (skipn (10 * chunk_size) data) = (length data mod 10)%nat
  /\ (forall ta rpow cfg p blocks score,
         (macd_fast p < macd_slow p)%Z -> (30 <= chunk_size)%nat ->
         objective ta rpow cfg data p = Returned blocks score ->
         blocks
         = map (fun c => add_indicators ta c (ema_len p) (macd_fast p)
                           (macd_slow p) (macd_signal p) (adx_len p))
               chunks).
Proof.
  intros chunk_size chunks.
  assert (Hle : (10 * chunk_size <= length data)%nat).
  { unfold chunk_size. apply Nat.Div0.mul_div_le. }
  repeat split.
  - unfold chunks. apply Forall_map, Forall_forall. intros i Hi.
    apply in_seq in Hi. apply (chunk_length data chunk_size i 10); lia.
  - unfold chunks. rewrite concat_chunks. apply firstn_skipn.
  - rewrite length_skipn. unfold chunk_size.
    pose proof (Nat.div_mod_eq (length data) 10). lia.
  - intros ta rpow cfg p blocks score H1 H2 Hret.
    destruct (objective_returned _ _ _ _ _ _ _ Hret)
      as [(_ & _ & [H|H])|(_ & _ & _ & -> & _)]; [lia|unfold chunk_size in H2; lia|].
    unfold chunks. rewrite map_map. reflexivity.
Qed.

Lemma chunks_partition_witness :
  exists score,
    objective stub_ta stub_pow config_py quiet_market sample_params
    = Returned
        (map (fun c => add_indicators stub_ta c 50 12 26 9 14)
             (map (chunk quiet_market (length quiet_market / 10)) (seq 0 10)))
        score.
Proof.
  destruct (objective stub_ta stub_pow config_py quiet_market sample_params)
    as [blocks score|blocks] eqn:E.
  - exists score. apply (f_equal (fun b => Returned b score)).
    destruct (chunks_partition quiet_market) as (_ & _ & _ & H).
    apply (H stub_ta stub_pow config_py sample_params blocks score).
    + reflexivity.
    + apply Nat.leb_le. vm_compute. reflexivity.
    + exact E.
  - exfalso. revert E. vm_compute. discriminate.
Defined.

Lemma block_metric_short (rpow : Q -> Q -> Q) (cfg : Config) (p : Params)
      (blk : DataFrame) :
  (length blk <= 1)%nat -> block_metric rpow cfg p blk = XFin (- 1).
Proof.
  intro H. unfold block_metric, run_series.
  assert (E : tl blk = []).
  { destruct blk as [|b [|b' l]]; trivial. simpl in H. lia. }
  now rewrite E.
Qed.

Lemma xsum_constant (c : Q) (n : nat) :
  forall acc, exists q,
    fold_left xadd (repeat (XFin c) n) (XFin acc) = XFin q
    /\ q == acc + inject_Z (Z.of_nat n) * c.
Proof.
  induction n as [|n IH]; intro acc.
  - exists acc. split; trivial. cbn. ring.
  - cbn [repeat fold_left xadd]. destruct (IH (acc + c)) as (q & -> & Hq).
    exists q. split; trivial. rewrite Hq, Nat2Z.inj_succ.
    unfold Z.succ. rewrite inject_Z_plus. ring.
Qed.

(** X13. When the objective returns a score without short-circuiting and
    the indicator warm-up has left at most one row in every block, the ten
    simulations were still run, each block scored the penalty -1.0, and the
    score is -1.0. *)
Theorem blocks_without_rows_score_penalty (ta : TA) (rpow : Q -> Q -> Q)
        (cfg : Config) (data : list Candle) (p : Params)
        (blocks : list DataFrame) (score : xq) :
  (macd_fast p < macd_slow p)%Z -> (30 <= length data / 10)%nat ->
  objective ta rpow cfg data p = Returned blocks score ->
  Forall (fun blk => (length blk <= 1)%nat) blocks ->
  length blocks = 10%nat
  /\ Forall (fun blk => block_metric rpow cfg p blk = XFin (- 1)) blocks
  /\ exists q, score = XFin q /\ q == - (1).
Proof.
  intros H1 H2 Hret Hall.
  destruct (objective_returned _ _ _ _ _ _ _ Hret)
    as [(_ & _ & [H|H])|(_ & _ & _ & Hb & ->)]; [lia|lia|].
  assert (Hlen : length blocks = 10%nat).
  { rewrite Hb. now rewrite length_map, length_seq. }
  split; trivial. split.
  { eapply Forall_impl; [|exact Hall]. intros blk. apply block_metric_short. }
  assert (E : map (block_metric rpow cfg p) blocks = repeat (XFin (- 1)) 10).
  { rewrite <- Hlen. clear Hlen Hb Hret.
    induction Hall as [|b l Hb Hl IH]; trivial.
    cbn [map length repeat]. rewrite IH.
    now rewrite (block_metric_short rpow cfg p b Hb). }
  rewrite E. unfold mean_metric. cbn [repeat length]. unfold xsum.
  destruct (xsum_constant (- 1) 10 0) as (q & Hq1 & Hq2).
  cbn [repeat] in Hq1. rewrite Hq1. cbn [xdiv].
  assert (E10 : Qeq_bool (inject_Z (Z.of_nat 10)) 0 = false) by reflexivity.
  rewrite E10. eexists. split; [reflexivity|].
  rewrite Hq2. reflexivity.
Qed.

Lemma blocks_without_rows_score_penalty_witness :
  exists blocks q,
    objective stub_ta stub_pow config_py (firstn 500 quiet_market)
              sample_params = Returned blocks (XFin q)
    /\ q == - (1).
Proof.
  pose (blocks := map (block stub_ta (firstn 500 quiet_market) sample_params 50)
                      (seq 0 10)).
  pose (score := mean_metric
                   (map (block_metric stub_pow config_py sample_params)
                        blocks)).
  assert (E : objective stub_ta stub_pow config_py (firstn 500 quiet_market)
                        sample_params = Returned blocks score)
    by (vm_compute; reflexivity).
  destruct (blocks_without_rows_score_penalty stub_ta stub_pow config_py
              (firstn 500 quiet_market) sample_params blocks score)
    as (_ & _ & q & Hq & Hq1).
  - reflexivity.
  - apply Nat.leb_le. vm_compute. reflexivity.
  - exact E.
  - vm_compute. repeat constructor.
  - exists blocks, q. rewrite E, Hq. split; trivial.
Defined.

(** X23. When the objective does not short-circuit and a block comes back
    from [add_indicators] without its indicator columns, the objective
    returns no score: [KeyError] leaves it at the first such block, after
    the simulations of the blocks before it. *)
Theorem objective_key_error (ta : TA) (rpow : Q -> Q -> Q) (cfg : Config)
        (data : list Candle) (p : Params) (i : nat) :
  (macd_fast p < macd_slow p)%Z -> (30 <= length data / 10)%nat ->
  (i < 10)%nat ->
  (forall j, (j < i)%nat ->
             block_has_columns ta data p (length data / 10) j = true) ->
  block_has_columns ta data p (length data / 10) i = false ->
  objective ta rpow cfg data p
  = Raised_KeyError (map (block ta data p (length data / 10)) (seq 0 i)).
Proof.
  intros H1 H2 Hi Hbefore Hmiss. unfold objective, n_splits.
  apply Z.leb_gt in H1. apply Nat.ltb_ge in H2. rewrite H1, H2.
  replace (seq 0 10) with (seq 0 i ++ i :: seq (S i) (10 - S i)).
  - rewrite walk_forward_missing; trivial.
    intros j Hj. apply Hbefore. apply in_seq in Hj. lia.
  - replace 10%nat with (i + S (10 - S i))%nat at 2 by lia.
    rewrite seq_app. reflexivity.
Qed.

Lemma objective_key_error_witness :
  objective stub_ta stub_pow config_py (firstn 300 quiet_market) sample_params
  = Raised_KeyError [].
Proof.
  apply (objective_key_error stub_ta stub_pow config_py
           (firstn 300 quiet_market) sample_params 0).
  - reflexivity.
  - apply Nat.leb_le. vm_compute. reflexivity.
  - lia.
  - intros j Hj. lia.
  - vm_compute. reflexivity.
Defined.

(** ** [indicator_calculator.add_indicators] *)

Lemma dropna_rows (df : list Candle) :
  forall (es : list (option Q))
         (ms als : list (option Q * option Q * option Q)),
    let out := dropna (zip_with4 complete_row df es ms als) in
    (length out <= length df)%nat
    /\ Forall (fun b => exists c, In c df /\ ts b = c_date c
                                  /\ close b = c_close c) out.
Proof.
  induction df as [|c df IH]; intros es ms als; cbn zeta.
  - split; [simpl; lia|constructor].
  - destruct es as [|e es], ms as [|m ms], als as [|a als];
      try (split; [simpl; lia|constructor]).
    cbn [zip_with4]. destruct (IH es ms als) as [H1 H2].
    assert (H2' : Forall (fun b => exists c0, In c0 (c :: df)
                                              /\ ts b = c_date c0
                                              /\ close b = c_close c0)
                         (dropna (zip_with4 complete_row df es ms als))).
    { eapply Forall_impl; [|exact H2]. intros b (c0 & Hin & Ht & Hc).
      exists c0. repeat split; trivial. now right. }
    destruct (complete_row c e m a) as [b|] eqn:E; cbn [dropna].
    + split; [simpl; lia|]. constructor; trivial.
      exists c. split; [now left|].
      unfold complete_row in E.
      destruct e; [|discriminate].
      destruct m as [[[?|] [?|]] [?|]]; try discriminate.
      destruct a as [[[?|] [?|]] [?|]]; try discriminate.
      injection E as <-. split; reflexivity.
    + split; [simpl; lia|exact H2'].
Qed.

Lemma dropna_sorted (df : list Candle) :
  StronglySorted Z.lt (map c_date df) ->
  forall (es : list (option Q))
         (ms als : list (option Q * option Q * option Q)),
    StronglySorted Z.lt
      (map ts (dropna (zip_with4 complete_row df es ms als))).
Proof.
  induction df as [|c df IH]; intros Hs es ms als; [constructor|].
  inversion Hs as [|? ? Hdf Hc]; subst.
  destruct es as [|e es], ms as [|m ms], als as [|a als]; try constructor.
  cbn [zip_with4].
  destruct (complete_row c e m a) as [b|] eqn:E; cbn [dropna map].
  - constructor; [now apply IH|].
    assert (Eb : ts b = c_date c).
    { unfold complete_row in E.
      destruct e; [|discriminate].
      destruct m as [[[?|] [?|]] [?|]]; try discriminate.
      destruct a as [[[?|] [?|]] [?|]]; try discriminate.
      now injection E as <-. }
    rewrite Eb. apply Forall_map.
    destruct (dropna_rows df es ms als) as [_ H].
    eapply Forall_impl; [|exact H]. intros b' (c0 & Hin & Ht & _).
    cbv beta. rewrite Ht. rewrite Forall_forall in Hc. apply Hc.
    now apply in_map.
  - now apply IH.
Qed.

(** X14. [add_indicators] only drops rows: the frame it returns has no more
    rows than the chunk, every row of it carries the date and the close of
    a row of the chunk, and when the chunk's dates are strictly increasing
    so are the dates of the frame, whatever the indicator columns contain. *)
Theorem add_indicators_keeps_rows_in_order (ta : TA) (df : list Candle)
        (ema_len macd_fast macd_slow macd_signal adx_len : Z) :
  let out := add_indicators ta df ema_len macd_fast macd_slow macd_signal
                            adx_len in
  (length out <= length df)%nat
  /\ Forall (fun b => exists c, In c df /\ ts b = c_date c
                                /\ close b = c_close c) out
  /\ (StronglySorted Z.lt (map c_date df) ->
      StronglySorted Z.lt (map ts out)).
Proof.
  cbn zeta. unfold add_indicators.
  destruct (dropna_rows df (ta_ema ta df ema_len)
              (ta_macd ta df macd_fast macd_slow macd_signal)
              (ta_adx ta df adx_len)) as [H1 H2].
  repeat split; trivial.
  intro Hs. now apply dropna_sorted.
Qed.

Lemma add_indicators_keeps_rows_in_order_witness :
  StronglySorted Z.lt
    (map ts (add_indicators stub_ta (firstn 60 gap_market) 50 12 26 9 14)).
Proof.
  destruct (add_indicators_keeps_rows_in_order stub_ta (firstn 60 gap_market)
              50 12 26 9 14) as (_ & _ & H).
  apply H. vm_compute. repeat constructor.
Defined.

(** ** [Optimizer.objective] on runs that enter no short *)




Lemma xsum_finite (l : list xq) :
  Forall (fun x => exists a, x = XFin a) l -> exists q, xsum l = XFin q.
Proof.
  unfold xsum. generalize 0.
  induction l as [|x l IH]; intros acc H; [now exists acc|].
  inversion H as [|? ? [a ->] Hl]; subst. cbn [fold_left xadd].
  now apply IH.
Qed.





(** ** [main]: the split into training, validation and test sets *)

Lemma scaled_floor (len : nat) (k : positive) :
  Z.to_nat (Qfloor (inject_Z (Z.of_nat len) * (Zpos k # 10)))
  = (len * Pos.to_nat k / 10)%nat.
Proof.
  unfold Qfloor, Qmult, inject_Z. cbn [Qnum Qden].
  change (Zpos (1 * 10)) with (Z.of_nat 10).
  rewrite <- positive_nat_Z, <- Nat2Z.inj_mul, <- Nat2Z.inj_div.
  apply Nat2Z.id.
Qed.

(** X16. The three sets [main] cuts are consecutive and cover the data set:
    training set, validation set and test set put end to end are the data
    set, with [6 * len / 10], [8 * len / 10 - 6 * len / 10] and
    [len - 8 * len / 10] rows (integer quotients); no row is used twice and
    none is left out. *)
Theorem split_covers_data {A : Type} (market_data : list A) :
  let '(train_set, validation_set, test_set) := Main.split market_data in
  let len := length market_data in
  train_set ++ validation_set ++ test_set = market_data
  /\ length train_set = (len * 6 / 10)%nat
  /\ length validation_set = (len * 8 / 10 - len * 6 / 10)%nat
  /\ length test_set = (len - len * 8 / 10)%nat.
Proof.
  unfold Main.split, Main.train_end_index, Main.validation_end_index.
  rewrite !scaled_floor. change (Pos.to_nat 6) with 6%nat.
  change (Pos.to_nat 8) with 8%nat.
  set (len := length market_data).
  set (a := (len * 6 / 10)%nat). set (b := (len * 8 / 10)%nat).
  assert (Hab : (a <= b)%nat).
  { unfold a, b. apply Nat.Div0.div_le_mono. lia. }
  assert (Hb : (b <= len)%nat).
  { unfold b. apply Nat.Div0.div_le_upper_bound. lia. }
  unfold iloc_slice. rewrite Nat.sub_0_r, skipn_0.
  repeat split.
  - rewrite app_assoc, <- firstn_plus.
    replace (a + (b - a))%nat with b by lia. apply firstn_skipn.
  - rewrite length_firstn. fold len. lia.
  - rewrite length_firstn, length_skipn. fold len. lia.
  - rewrite length_skipn. reflexivity.
Qed.

(** ** [generate_performance_report]: the returns handed to quantstats *)

Lemma zip_with_cons {A B C : Type} (f : A -> B -> C) (x : A) (xs : list A)
      (y : B) (ys : list B) :
  zip_with f (x :: xs) (y :: ys) = f x y :: zip_with f xs ys.
Proof. reflexivity. Qed.

Lemma last_cons_default {A : Type} (l : list A) :
  forall x d, last (x :: l) d = last l x.
Proof.
  induction l as [|y l IH]; intros x d; trivial.
  change (last (x :: y :: l) d) with (last (y :: l) d).
  rewrite !IH. reflexivity.
Qed.

Lemma pct_change_nonzero (v0 : Q) (later : list Q) :
  Forall (fun v => ~ v == 0) (v0 :: later) ->
  exists rs,
    zip_with (fun previous v => xsub (xdiv (XFin v) (XFin previous)) (XFin 1))
             (v0 :: later) later
    = map XFin rs
    /\ length rs = length later
    /\ fold_left (fun acc r => acc * (1 + r)) rs v0 == last later v0.
Proof.
  revert v0. induction later as [|v1 later IH]; intros v0 H.
  - exists []. repeat split.
  - inversion H as [|? ? H0 H1]; subst.
    destruct (IH v1 H1) as (rs & E & Hlen & Hprod).
    exists ((v1 / v0 - 1) :: rs). rewrite zip_with_cons, E.
    cbn [xsub xdiv map length fold_left].
    assert (E0 : Qeq_bool v0 0 = false) by now apply Qeq_bool_false.
    rewrite E0. repeat split.
    + now rewrite Hlen.
    + assert (Ev : v0 * (1 + (v1 / v0 - 1)) == v1) by (field; exact H0).
      assert (Hmorph : forall a b, a == b ->
                fold_left (fun acc r => acc * (1 + r)) rs a
                == fold_left (fun acc r => acc * (1 + r)) rs b).
      { clear. induction rs as [|r rs IH]; intros a b Hab; trivial.
        cbn [fold_left]. apply IH. now rewrite Hab. }
      rewrite (Hmorph _ _ Ev), Hprod.
      now rewrite last_cons_default.
Qed.

(** X17. For a value series without a zero, the returns handed to the
    report are finite, there is one for every value after the first (only
    the leading NaN of [pct_change] is dropped), and they compound back to
    the series' growth: the first value times the product of
    [(1 + return)] is the last value. *)
Theorem returns_compound_to_growth (v0 : Q) (later : list Q) :
  Forall (fun v => ~ v == 0) (v0 :: later) ->
  exists rs,
    Reporting.returns (v0 :: later) = map XFin rs
    /\ length rs = length later
    /\ fold_left (fun acc r => acc * (1 + r)) rs v0 == last later v0.
Proof.
  intro H. destruct (pct_change_nonzero v0 later H) as (rs & E & Hlen & Hprod).
  exists rs. repeat split; trivial.
  unfold Reporting.returns, Reporting.pct_change. rewrite E.
  unfold Reporting.dropna. cbn [filter Reporting.is_nan negb].
  clear. induction rs as [|r rs IH]; trivial.
  cbn [map filter Reporting.is_nan negb]. now rewrite IH.
Qed.

Lemma returns_compound_to_growth_witness :
  exists rs,
    Reporting.returns [100; 110; 99] = map XFin rs
    /\ length rs = 2%nat
    /\ fold_left (fun acc r => acc * (1 + r)) rs 100 == 99.
Proof.
  apply (returns_compound_to_growth 100 [110; 99]).
  repeat constructor; intro E; discriminate E.
Defined.

(** ** [data_loader.load_data] *)

Section LoaderFacts.

Variable Cell : Type.
Variable normalize : String.string -> String.string.
Variable to_datetime : Cell -> option Z.

Local Abbreviation Row := (Z * list Cell)%type.
Local Abbreviation load_data := (DataLoader.load_data Cell normalize to_datetime).
Local Abbreviation date_of := (DataLoader.date_of Cell to_datetime).
Local Abbreviation index_by_date := (DataLoader.index_by_date Cell to_datetime).
Local Abbreviation keep_first := (DataLoader.keep_first Cell).
Local Abbreviation insert_row := (DataLoader.insert_row Cell).
Local Abbreviation sort_index := (DataLoader.sort_index Cell).

(** *** Sorting the index *)

Lemma insert_row_perm (r : Row) (l : list Row) :
  Permutation (insert_row r l) (r :: l).
Proof.
  induction l as [|x l IH]; cbn [DataLoader.insert_row]; [reflexivity|].
  destruct (fst r <=? fst x)%Z; [reflexivity|].
  rewrite IH. apply perm_swap.
Qed.

Lemma sort_index_perm (l : list Row) : Permutation (sort_index l) l.
Proof.
  induction l as [|x l IH]; [reflexivity|].
  unfold DataLoader.sort_index in *. cbn [fold_right].
  rewrite insert_row_perm. now constructor.
Qed.

Lemma insert_row_sorted (r : Row) (l : list Row) :
  Sorted Z.le (map fst l) -> Sorted Z.le (map fst (insert_row r l)).
Proof.
  induction l as [|x l IH]; intro H; cbn [DataLoader.insert_row map].
  - repeat constructor.
  - destruct (fst r <=? fst x)%Z eqn:E.
    + apply Z.leb_le in E. cbn [map]. constructor; trivial.
      now constructor.
    + apply Z.leb_gt in E. cbn [map] in *.
      inversion H as [|? ? Hs Hh]; subst.
      constructor; [now apply IH|].
      destruct l as [|y l]; cbn [DataLoader.insert_row map].
      * constructor. lia.
      * destruct (fst r <=? fst y)%Z; cbn [map]; constructor;
          [lia|now inversion Hh].
Qed.

Lemma sort_index_sorted (l : list Row) : Sorted Z.le (map fst (sort_index l)).
Proof.
  induction l as [|x l IH]; [constructor|].
  unfold DataLoader.sort_index in *. cbn [fold_right].
  now apply insert_row_sorted.
Qed.

Lemma sorted_nodup_strict (l : list Z) :
  Sorted Z.le l -> NoDup l -> StronglySorted Z.lt l.
Proof.
  intros Hs Hn.
  assert (HS : StronglySorted Z.le l).
  { apply Sorted_StronglySorted; trivial. intros a b c. apply Z.le_trans. }
  clear Hs. induction HS as [|x l Hl IH Hx]; [constructor|].
  inversion Hn as [|? ? Hnotin Hn']; subst.
  constructor; [now apply IH|].
  rewrite Forall_forall in *. intros y Hy.
  specialize (Hx y Hy). assert (x <> y) by (intros ->; contradiction). lia.
Qed.

(** *** Duplicated dates *)

Lemma mem_date_iff (d : Z) (seen : list Z) :
  DataLoader.mem_date d seen = true <-> In d seen.
Proof.
  unfold DataLoader.mem_date. rewrite existsb_exists. split.
  - intros (x & Hx & E). apply Z.eqb_eq in E. now subst.
  - intro H. exists d. split; trivial. apply Z.eqb_refl.
Qed.

Lemma mem_date_false (d : Z) (seen : list Z) :
  DataLoader.mem_date d seen = false <-> ~ In d seen.
Proof.
  rewrite <- mem_date_iff. destruct (DataLoader.mem_date d seen);
    split; congruence.
Qed.

Lemma has_duplicates_false (dates : list Z) :
  DataLoader.has_duplicates dates = false -> NoDup dates.
Proof.
  induction dates as [|d dates IH]; intro H; [constructor|].
  cbn [DataLoader.has_duplicates] in H. apply orb_false_iff in H.
  destruct H as [H1 H2]. constructor; [now apply mem_date_false|now apply IH].
Qed.

Lemma keep_first_dates (l : list Row) :
  forall seen,
    NoDup (map fst (keep_first seen l))
    /\ (forall d, In d (map fst (keep_first seen l)) ->
                  ~ In d seen /\ In d (map fst l))
    /\ (forall d, In d (map fst l) -> ~ In d seen ->
                  In d (map fst (keep_first seen l))).
Proof.
  induction l as [|[d cells] l IH]; intro seen;
    cbn [DataLoader.keep_first map].
  - repeat split; try constructor; contradiction.
  - destruct (DataLoader.mem_date d seen) eqn:E.
    + apply mem_date_iff in E.
      destruct (IH seen) as (H1 & H2 & H3). repeat split; trivial.
      * now apply H2.
      * right. now apply H2.
      * intros d' [<-|Hin] Hseen; [contradiction|now apply H3].
    + apply mem_date_false in E.
      destruct (IH (d :: seen)) as (H1 & H2 & H3). cbn [map fst].
      repeat split.
      * constructor; trivial. intro Hin. apply H2 in Hin.
        destruct Hin as [Hin _]. apply Hin. now left.
      * destruct H as [<-|Hin]; trivial.
        apply H2 in Hin. intro Hs. apply (proj1 Hin). now right.
      * destruct H as [<-|Hin]; [now left|]. right. now apply H2.
      * intros d' [<-|Hin] Hseen; [now left|].
        destruct (Z.eq_dec d d') as [<-|Hne]; [now left|].
        right. apply H3; trivial. intros [?|?]; [congruence|contradiction].
Qed.

Lemma keep_first_origin (l : list Row) :
  forall seen d cells,
    In (d, cells) (keep_first seen l) ->
    exists pre post,
      l = pre ++ (d, cells) :: post /\ ~ In d (map fst pre).
Proof.
  induction l as [|[d0 c0] l IH]; intros seen d cells H;
    cbn [DataLoader.keep_first] in H; [contradiction|].
  destruct (DataLoader.mem_date d0 seen) eqn:E.
  - destruct (IH _ _ _ H) as (pre & post & -> & Hpre).
    apply mem_date_iff in E.
    exists ((d0, c0) :: pre), post. split; trivial.
    cbn [map fst]. intros [<-|Hin]; [|contradiction].
    destruct (keep_first_dates (pre ++ (d0, cells) :: post) seen)
      as (_ & H2 & _).
    apply (proj1 (H2 d0 (in_map fst _ _ H))). exact E.
  - destruct H as [H|H].
    + injection H as -> ->. exists [], l. split; trivial. intros [].
    + destruct (IH _ _ _ H) as (pre & post & -> & Hpre).
      exists ((d0, c0) :: pre), post. split; trivial.
      cbn [map fst]. intros [<-|Hin]; [|contradiction].
      destruct (keep_first_dates (pre ++ (d0, cells) :: post) (d0 :: seen))
        as (_ & H2 & _).
      apply (proj1 (H2 d0 (in_map fst _ _ H))). now left.
Qed.

Lemma nodup_origin (l : list Row) (d : Z) (cells : list Cell) :
  NoDup (map fst l) -> In (d, cells) l ->
  exists pre post, l = pre ++ (d, cells) :: post /\ ~ In d (map fst pre).
Proof.
  intros Hn Hin. destruct (in_split _ _ Hin) as (pre & post & ->).
  exists pre, post. split; trivial.
  rewrite map_app in Hn. cbn [map fst] in Hn.
  apply NoDup_remove_2 in Hn. intro H. apply Hn. apply in_or_app. now left.
Qed.

Lemma deduplicated_spec (indexed : list Row) :
  let unique := if DataLoader.has_duplicates (map fst indexed)
                then keep_first [] indexed else indexed in
  NoDup (map fst unique)
  /\ (forall d, In d (map fst indexed) -> In d (map fst unique))
  /\ (forall d cells,
         In (d, cells) unique ->
         exists pre post,
           indexed = pre ++ (d, cells) :: post /\ ~ In d (map fst pre)).
Proof.
  cbn zeta.
  destruct (DataLoader.has_duplicates (map fst indexed)) eqn:E.
  - destruct (keep_first_dates indexed []) as (H1 & H2 & H3).
    repeat split; trivial.
    + intros d Hd. apply H3; trivial. intros [].
    + intros d cells. apply keep_first_origin.
  - apply has_duplicates_false in E. repeat split; trivial.
    intros d cells. now apply nodup_origin.
Qed.

(** *** Rows and records *)

Lemma index_by_date_split (di : nat) (recs : list (list Cell)) :
  forall pre_i d cells post_i,
    index_by_date di recs = pre_i ++ (d, cells) :: post_i ->
    exists pre r post,
      recs = pre ++ r :: post
      /\ index_by_date di pre = pre_i
      /\ date_of di r = Some d
      /\ cells = DataLoader.remove_nth di r.
Proof.
  induction recs as [|r recs IH]; intros pre_i d cells post_i H;
    cbn [DataLoader.index_by_date] in H.
  - destruct pre_i; discriminate.
  - destruct (date_of di r) as [d0|] eqn:E.
    + destruct pre_i as [|x pre_i]; cbn [app] in H.
      * injection H as -> <- _. exists [], r, recs. repeat split; trivial.
      * injection H as <- H. destruct (IH _ _ _ _ H) as (pre & r' & post & -> & H1 & H2 & H3).
        exists (r :: pre), r', post. repeat split; trivial.
        cbn [DataLoader.index_by_date]. now rewrite E, H1.
    + destruct (IH _ _ _ _ H) as (pre & r' & post & -> & H1 & H2 & H3).
      exists (r :: pre), r', post. repeat split; trivial.
      cbn [DataLoader.index_by_date]. now rewrite E.
Qed.

Lemma index_by_date_dates (di : nat) (recs : list (list Cell)) (d : Z) :
  In d (map fst (index_by_date di recs))
  <-> exists r, In r recs /\ date_of di r = Some d.
Proof.
  induction recs as [|r recs IH]; cbn [DataLoader.index_by_date].
  - split; [intros []|intros (r & [] & _)].
  - destruct (date_of di r) as [d0|] eqn:E; cbn [map fst In]; rewrite ?IH.
    + split.
      * intros [<-|(r' & Hin & Hd)]; [exists r|exists r']; auto.
      * intros (r' & [<-|Hin] & Hd); [left; congruence|right; eauto].
    + split.
      * intros (r' & Hin & Hd). exists r'. auto.
      * intros (r' & [<-|Hin] & Hd); [congruence|eauto].
Qed.

(** *** Column names *)

Lemma existsb_eqb_In (name : String.string) (cols : list String.string) :
  existsb (String.eqb name) cols = true <-> In name cols.
Proof.
  rewrite existsb_exists. split.
  - intros (c & Hc & E). apply String.eqb_eq in E. now subst.
  - intro H. exists name. split; trivial. apply String.eqb_refl.
Qed.

Lemma index_of_None (name : String.string) (cols : list String.string) :
  DataLoader.index_of name cols = None <-> ~ In name cols.
Proof.
  induction cols as [|c cols IH]; cbn [DataLoader.index_of In].
  - tauto.
  - destruct (String.eqb c name) eqn:E.
    + apply String.eqb_eq in E. split; [discriminate|]. tauto.
    + apply String.eqb_neq in E.
      destruct (DataLoader.index_of name cols); cbn [option_map].
      * split; [discriminate|]. intro H. exfalso.
        assert (Hn : ~ In name cols) by tauto.
        apply IH in Hn. discriminate Hn.
      * split; trivial. intros _ [H|H]; [contradiction|].
        now apply (proj1 IH).
Qed.

Lemma index_of_Some (name : String.string) (cols : list String.string)
      (i : nat) :
  DataLoader.index_of name cols = Some i -> nth_error cols i = Some name.
Proof.
  revert i. induction cols as [|c cols IH]; intros i H;
    cbn [DataLoader.index_of] in H; [discriminate|].
  destruct (String.eqb c name) eqn:E.
  - apply String.eqb_eq in E. injection H as <-. now subst.
  - destruct (DataLoader.index_of name cols) as [j|]; [|discriminate].
    injection H as <-. cbn [nth_error]. now apply IH.
Qed.

Lemma In_remove_nth (name x : String.string) (cols : list String.string)
      (i : nat) :
  nth_error cols i = Some x -> name <> x ->
  (In name (DataLoader.remove_nth i cols) <-> In name cols).
Proof.
  revert i. induction cols as [|c cols IH]; intros i H Hne.
  - destruct i; discriminate.
  - destruct i as [|i]; cbn [DataLoader.remove_nth nth_error In] in *.
    + injection H as ->. split; [tauto|]. intros [E|E]; [congruence|trivial].
    + rewrite (IH i H Hne). tauto.
Qed.

Lemma rename_volume_In (name : String.string) (cols : list String.string) :
  name <> DataLoader.volume_usdt_col ->
  (In name (DataLoader.rename_volume cols)
   <-> In name cols
       \/ (name = DataLoader.volume_col /\ In DataLoader.volume_usdt_col cols)).
Proof.
  intro Hne. unfold DataLoader.rename_volume. rewrite in_map_iff. split.
  - intros (c & E & Hc).
    destruct (String.eqb c DataLoader.volume_usdt_col) eqn:Ec.
    + apply String.eqb_eq in Ec. subst. now right.
    + subst. now left.
  - intros [H|[-> H]].
    + exists name. split; trivial.
      destruct (String.eqb name DataLoader.volume_usdt_col) eqn:Ec; trivial.
      apply String.eqb_eq in Ec. contradiction.
    + exists DataLoader.volume_usdt_col. split; trivial.
Qed.

(** The columns against which the required names are checked. *)
Lemma checked_columns (name : String.string) (cols : list String.string)
      (di : nat) :
  nth_error cols di = Some DataLoader.date_col ->
  name <> DataLoader.date_col -> name <> DataLoader.volume_usdt_col ->
  In name (DataLoader.renamed_columns cols di)
  <-> In name cols
      \/ (name = DataLoader.volume_col /\ In DataLoader.volume_usdt_col cols).
Proof.
  intros Hdi Hn1 Hn2. unfold DataLoader.renamed_columns. cbn zeta.
  assert (Hv : In DataLoader.volume_usdt_col (DataLoader.remove_nth di cols)
               <-> In DataLoader.volume_usdt_col cols).
  { apply (In_remove_nth _ DataLoader.date_col); trivial. discriminate. }
  destruct (existsb _ (DataLoader.remove_nth di cols)) eqn:E.
  - rewrite rename_volume_In by trivial.
    rewrite (In_remove_nth name DataLoader.date_col) by trivial.
    now rewrite Hv.
  - rewrite (In_remove_nth name DataLoader.date_col) by trivial.
    split; [tauto|]. intros [H|[_ H]]; trivial.
    apply Hv, existsb_eqb_In in H. congruence.
Qed.

Lemma required_names (name : String.string) :
  In name DataLoader.required_cols ->
  name <> DataLoader.date_col /\ name <> DataLoader.volume_usdt_col.
Proof.
  intro H. cbn in H.
  repeat (destruct H as [<-|H]; [split; discriminate|]). contradiction.
Qed.

(** *** Counting the columns of a name *)

Local Abbreviation count := (count_occ String.string_dec).

Lemma count_remove_nth (name x : String.string) (cols : list String.string)
      (i : nat) :
  nth_error cols i = Some x -> name <> x ->
  count (DataLoader.remove_nth i cols) name = count cols name.
Proof.
  revert i. induction cols as [|c cols IH]; intros i H Hne.
  - destruct i; discriminate.
  - destruct i as [|i]; cbn [DataLoader.remove_nth nth_error count_occ] in *.
    + injection H as ->.
      destruct (String.string_dec x name); [congruence|reflexivity].
    + rewrite (IH i H Hne). reflexivity.
Qed.

Lemma count_remove_nth_same (x : String.string) (cols : list String.string)
      (i : nat) :
  nth_error cols i = Some x ->
  count cols x = S (count (DataLoader.remove_nth i cols) x).
Proof.
  revert i. induction cols as [|c cols IH]; intros i H.
  - destruct i; discriminate.
  - destruct i as [|i]; cbn [DataLoader.remove_nth nth_error count_occ] in *.
    + injection H as ->.
      destruct (String.string_dec x x); [reflexivity|congruence].
    + rewrite (IH i H).
      destruct (String.string_dec c x); reflexivity.
Qed.

Lemma count_rename_volume (name : String.string) (cols : list String.string) :
  name <> DataLoader.volume_usdt_col ->
  count (DataLoader.rename_volume cols) name
  = (count cols name
     + (if String.eqb name DataLoader.volume_col
        then count cols DataLoader.volume_usdt_col else 0))%nat.
Proof.
  intro Hne. unfold DataLoader.rename_volume.
  induction cols as [|c cols IH]; cbn [map count_occ].
  - now destruct (String.eqb name DataLoader.volume_col).
  - rewrite IH. clear IH.
    destruct (String.eqb c DataLoader.volume_usdt_col) eqn:Ec.
    + apply String.eqb_eq in Ec. subst c.
      destruct (String.string_dec DataLoader.volume_usdt_col name) as [E|_];
        [congruence|].
      destruct (String.string_dec DataLoader.volume_usdt_col
                                  DataLoader.volume_usdt_col) as [_|E];
        [|congruence].
      destruct (String.string_dec DataLoader.volume_col name) as [E|E].
      * subst name. rewrite String.eqb_refl. lia.
      * assert (En : String.eqb name DataLoader.volume_col = false)
          by (apply String.eqb_neq; congruence).
        rewrite En. lia.
    + apply String.eqb_neq in Ec.
      destruct (String.string_dec c DataLoader.volume_usdt_col) as [E|_];
        [congruence|].
      destruct (String.string_dec c name); lia.
Qed.

Lemma count_zero (name : String.string) (cols : list String.string) :
  existsb (String.eqb name) cols = false -> count cols name = 0%nat.
Proof.
  intro H. apply count_occ_not_In. intro Hin.
  apply existsb_eqb_In in Hin. congruence.
Qed.

(** How many columns of a required name the frame has before the selection:
    those of the header, and for the volume those called "volume usdt" as
    well. *)
Lemma count_renamed_columns (name : String.string) (cols : list String.string)
      (di : nat) :
  nth_error cols di = Some DataLoader.date_col ->
  name <> DataLoader.date_col -> name <> DataLoader.volume_usdt_col ->
  count (DataLoader.renamed_columns cols di) name
  = (count cols name
     + (if String.eqb name DataLoader.volume_col
        then count cols DataLoader.volume_usdt_col else 0))%nat.
Proof.
  intros Hdi Hn1 Hn2. unfold DataLoader.renamed_columns. cbn zeta.
  assert (Hu : count (DataLoader.remove_nth di cols) DataLoader.volume_usdt_col
               = count cols DataLoader.volume_usdt_col).
  { apply (count_remove_nth _ DataLoader.date_col); trivial. discriminate. }
  destruct (existsb _ (DataLoader.remove_nth di cols)) eqn:E.
  - rewrite count_rename_volume by trivial.
    rewrite (count_remove_nth name DataLoader.date_col) by trivial.
    now rewrite Hu.
  - rewrite (count_remove_nth name DataLoader.date_col) by trivial.
    apply count_zero in E. rewrite Hu in E. rewrite E.
    destruct (String.eqb name DataLoader.volume_col); lia.
Qed.

Lemma filter_eqb_repeat (name : String.string) (cols : list String.string) :
  filter (String.eqb name) cols = repeat name (count cols name).
Proof.
  induction cols as [|c cols IH]; trivial. cbn [filter count_occ].
  destruct (String.eqb name c) eqn:E.
  - apply String.eqb_eq in E. subst c.
    destruct (String.string_dec name name); [|congruence].
    cbn [repeat]. now rewrite IH.
  - apply String.eqb_neq in E.
    destruct (String.string_dec c name); [congruence|exact IH].
Qed.

Lemma cells_named_length (name : String.string) (cols : list String.string) :
  forall cells : list Cell,
    length cells = length cols ->
    length (DataLoader.cells_named Cell name cols cells)
    = length (filter (String.eqb name) cols).
Proof.
  induction cols as [|c cols IH]; intros [|x cells] H; try discriminate;
    trivial.
  cbn [DataLoader.cells_named filter].
  destruct (String.eqb name c); cbn [length]; rewrite IH; trivial;
    now injection H.
Qed.

Lemma flat_map_ext_in {A B : Type} (f g : A -> list B) (l : list A) :
  (forall x, In x l -> f x = g x) -> flat_map f l = flat_map g l.
Proof.
  induction l as [|x l IH]; intro H; trivial.
  cbn [flat_map]. rewrite (H x) by now left.
  f_equal. apply IH. intros y Hy. apply H. now right.
Qed.

Lemma flat_map_length_eq {A B C : Type} (f : A -> list B) (g : A -> list C)
      (l : list A) :
  (forall x, In x l -> length (f x) = length (g x)) ->
  length (flat_map f l) = length (flat_map g l).
Proof.
  induction l as [|x l IH]; intro H; trivial.
  cbn [flat_map]. rewrite !length_app, (H x) by now left.
  f_equal. apply IH. intros y Hy. apply H. now right.
Qed.

(** The chosen date column is the only one exactly when the header has one
    column called date. *)
Lemma single_date_column (cols : list String.string) (di : nat) :
  DataLoader.index_of DataLoader.date_col cols = Some di ->
  existsb (String.eqb DataLoader.date_col) (DataLoader.remove_nth di cols)
  = false
  <-> count cols DataLoader.date_col = 1%nat.
Proof.
  intro Hdi. apply index_of_Some in Hdi.
  rewrite (count_remove_nth_same _ _ _ Hdi). split.
  - intro H. now rewrite (count_zero _ _ H).
  - intro H. injection H as H.
    destruct (existsb _ _) eqn:E; trivial.
    apply existsb_eqb_In, (count_occ_In String.string_dec) in E. lia.
Qed.

(** X18. [load_data] returns [None] when the file does not exist, when the
    header has no date column or more than one, and when one of open, high,
    low, close is missing or neither a volume nor a "volume usdt" column is
    there (names compared after normalisation); in every other case it
    returns a frame.  The columns of that frame are, for each of open,
    high, low, close, volume in this order, every column of the header with
    that name, the columns called "volume usdt" counting as volume.  So a
    header without repeated names gives exactly open, high, low, close,
    volume unless it has both a volume and a "volume usdt" column, and then
    the frame has two volume columns. *)
Theorem load_data_needs_columns :
  load_data None = None
  /\ forall df,
      let cols := map normalize (DataLoader.header Cell df) in
      (count cols DataLoader.date_col <> 1%nat -> load_data (Some df) = None)
      /\ (count cols DataLoader.date_col = 1%nat ->
          ((exists frame, load_data (Some df) = Some frame)
           <-> (forall name, In name DataLoader.required_cols ->
                             name <> DataLoader.volume_col -> In name cols)
               /\ (In DataLoader.volume_col cols
                   \/ In DataLoader.volume_usdt_col cols)))
      /\ (forall frame,
             load_data (Some df) = Some frame ->
             DataLoader.columns Cell frame
             = flat_map
                 (fun name =>
                    repeat name
                      (count cols name
                       + (if String.eqb name DataLoader.volume_col
                          then count cols DataLoader.volume_usdt_col
                          else 0)))
                 DataLoader.required_cols
             /\ (NoDup cols ->
                 ~ (In DataLoader.volume_col cols
                    /\ In DataLoader.volume_usdt_col cols) ->
                 DataLoader.columns Cell frame = DataLoader.required_cols)
             /\ (NoDup cols ->
                 In DataLoader.volume_col cols ->
                 In DataLoader.volume_usdt_col cols ->
                 DataLoader.columns Cell frame
                 = DataLoader.required_cols ++ [DataLoader.volume_col])).
Proof.
  split; [reflexivity|]. intros df cols.
  assert (Hchk : forall di name,
             nth_error cols di = Some DataLoader.date_col ->
             In name DataLoader.required_cols ->
             (In name (DataLoader.renamed_columns cols di)
              <-> In name cols
                  \/ (name = DataLoader.volume_col
                      /\ In DataLoader.volume_usdt_col cols))).
  { intros di name Hdi Hin. destruct (required_names name Hin).
    now apply checked_columns. }
  assert (Hreq : forall di,
             nth_error cols di = Some DataLoader.date_col ->
             forallb (fun name => existsb (String.eqb name)
                                    (DataLoader.renamed_columns cols di))
                     DataLoader.required_cols = true
             <-> (forall name, In name DataLoader.required_cols ->
                               name <> DataLoader.volume_col -> In name cols)
                 /\ (In DataLoader.volume_col cols
                     \/ In DataLoader.volume_usdt_col cols)).
  { intros di Hdi. rewrite forallb_forall. split.
    - intro E. split.
      + intros name Hin Hne. specialize (E name Hin).
        apply existsb_eqb_In, (Hchk di name Hdi Hin) in E.
        destruct E as [E|[E _]]; [trivial|contradiction].
      + assert (Hin : In DataLoader.volume_col DataLoader.required_cols)
          by (cbn; tauto).
        specialize (E _ Hin). apply existsb_eqb_In, (Hchk di _ Hdi Hin) in E.
        destruct E as [E|[_ E]]; tauto.
    - intros [H1 H2] name Hin.
      apply existsb_eqb_In, (Hchk di name Hdi Hin).
      destruct (String.string_dec name DataLoader.volume_col) as [->|Hne].
      + destruct H2; [now left|right; now split].
      + left. now apply H1. }
  unfold DataLoader.load_data. fold cols. split; [|split].
  - intro H.
    destruct (DataLoader.index_of DataLoader.date_col cols) as [di|] eqn:Edi;
      trivial.
    destruct (existsb _ (DataLoader.remove_nth di cols)) eqn:E; trivial.
    apply (single_date_column cols di Edi) in E. contradiction.
  - intro Hdate.
    destruct (DataLoader.index_of DataLoader.date_col cols) as [di|] eqn:Edi.
    2:{ apply index_of_None in Edi.
        apply (count_occ_not_In String.string_dec) in Edi. lia. }
    apply (single_date_column cols di Edi) in Hdate. rewrite Hdate.
    pose proof (Hreq di (index_of_Some _ _ _ Edi)) as Hr.
    destruct (forallb _ DataLoader.required_cols).
    + split; [intros _; now apply Hr|intros _; eexists; reflexivity].
    + split; [intros [frame H]; discriminate|].
      intro H. apply Hr in H. discriminate H.
  - intros frame H.
    destruct (DataLoader.index_of DataLoader.date_col cols) as [di|] eqn:Edi;
      [|discriminate].
    pose proof (index_of_Some _ _ _ Edi) as Hdi.
    destruct (existsb _ (DataLoader.remove_nth di cols)); [discriminate|].
    pose proof (Hreq di Hdi) as Hr.
    destruct (forallb _ DataLoader.required_cols); [|discriminate].
    destruct (proj1 Hr eq_refl) as [Hnames Hvol].
    injection H as <-. cbn [DataLoader.columns].
    assert (Hcols : DataLoader.selected_columns
                      (DataLoader.renamed_columns cols di)
                    = flat_map
                        (fun name =>
                           repeat name
                             (count cols name
                              + (if String.eqb name DataLoader.volume_col
                                 then count cols DataLoader.volume_usdt_col
                                 else 0)))
                        DataLoader.required_cols).
    { unfold DataLoader.selected_columns. apply flat_map_ext_in.
      intros name Hin. destruct (required_names name Hin).
      rewrite filter_eqb_repeat. f_equal.
      now apply count_renamed_columns. }
    rewrite Hcols. split; [reflexivity|].
    assert (Hone : forall name, NoDup cols -> In name cols ->
                                count cols name = 1%nat).
    { intros name Hnd Hin.
      pose proof (proj1 (NoDup_count_occ String.string_dec cols) Hnd name).
      apply (count_occ_In String.string_dec) in Hin. lia. }
    assert (Hfour : NoDup cols ->
                    count cols DataLoader.open_col = 1%nat
                    /\ count cols DataLoader.high_col = 1%nat
                    /\ count cols DataLoader.low_col = 1%nat
                    /\ count cols DataLoader.close_col = 1%nat).
    { intro Hnd. repeat split; apply Hone; trivial; apply Hnames;
        try (cbn; tauto); discriminate. }
    split.
    + intros Hnd Hnot. destruct (Hfour Hnd) as (E1 & E2 & E3 & E4).
      cbn [flat_map DataLoader.required_cols]. rewrite E1, E2, E3, E4.
      change (String.eqb DataLoader.open_col DataLoader.volume_col) with false.
      change (String.eqb DataLoader.high_col DataLoader.volume_col) with false.
      change (String.eqb DataLoader.low_col DataLoader.volume_col) with false.
      change (String.eqb DataLoader.close_col DataLoader.volume_col) with false.
      change (String.eqb DataLoader.volume_col DataLoader.volume_col)
        with true.
      cbv beta iota.
      assert (Ev : (count cols DataLoader.volume_col
                    + count cols DataLoader.volume_usdt_col = 1)%nat).
      { destruct Hvol as [Hv|Hv].
        - rewrite (Hone _ Hnd Hv).
          rewrite (proj1 (count_occ_not_In String.string_dec _ _)); trivial.
          tauto.
        - rewrite (Hone _ Hnd Hv).
          rewrite (proj1 (count_occ_not_In String.string_dec _ _)); trivial.
          tauto. }
      rewrite Ev. reflexivity.
    + intros Hnd Hv Hu. destruct (Hfour Hnd) as (E1 & E2 & E3 & E4).
      cbn [flat_map DataLoader.required_cols]. rewrite E1, E2, E3, E4.
      change (String.eqb DataLoader.open_col DataLoader.volume_col) with false.
      change (String.eqb DataLoader.high_col DataLoader.volume_col) with false.
      change (String.eqb DataLoader.low_col DataLoader.volume_col) with false.
      change (String.eqb DataLoader.close_col DataLoader.volume_col) with false.
      change (String.eqb DataLoader.volume_col DataLoader.volume_col)
        with true.
      cbv beta iota.
      rewrite (Hone _ Hnd Hv), (Hone _ Hnd Hu). reflexivity.
Qed.

(** X19. Whatever the file holds, the frame [load_data] returns is in
    chronological order without repeated dates: its dates are strictly
    increasing. *)
Theorem load_data_dates_increase (file : option (DataLoader.Csv Cell))
        (frame : DataLoader.Frame Cell) :
  load_data file = Some frame ->
  StronglySorted Z.lt (map fst (DataLoader.rows Cell frame)).
Proof.
  unfold DataLoader.load_data. destruct file as [df|]; [|discriminate].
  destruct (DataLoader.index_of _ _) as [di|]; [|discriminate].
  destruct (existsb _ (DataLoader.remove_nth di _)); [discriminate|].
  destruct (forallb _ _); [|discriminate].
  intro H. injection H as <-. cbn [DataLoader.rows].
  rewrite map_map. cbn [fst].
  set (indexed := index_by_date di (DataLoader.records Cell df)).
  destruct (deduplicated_spec indexed) as (Hn & _ & _). cbn zeta in Hn.
  set (unique := if DataLoader.has_duplicates (map fst indexed)
                 then keep_first [] indexed else indexed) in *.
  apply sorted_nodup_strict; [apply sort_index_sorted|].
  eapply Permutation_NoDup; [|exact Hn].
  apply Permutation_map. symmetry. apply sort_index_perm.
Qed.

(** X20. Every row of the returned frame is built from the first record of
    the file that carries its date: no earlier record parses to that date
    (of several records with one date the first is kept), and the cells of
    the row are those of that record under the required columns.  And every
    date some record parses to is a date of the frame: only records whose
    date does not parse are lost. *)
Theorem load_data_keeps_first_record (df : DataLoader.Csv Cell)
        (frame : DataLoader.Frame Cell) (di : nat) :
  load_data (Some df) = Some frame ->
  DataLoader.index_of DataLoader.date_col
                      (map normalize (DataLoader.header Cell df)) = Some di ->
  (forall d out,
      In (d, out) (DataLoader.rows Cell frame) ->
      exists pre r post,
        DataLoader.records Cell df = pre ++ r :: post
        /\ date_of di r = Some d
        /\ (forall r', In r' pre -> date_of di r' <> Some d)
        /\ out = DataLoader.select_required Cell
                   (DataLoader.renamed_columns
                      (map normalize (DataLoader.header Cell df)) di)
                   (DataLoader.remove_nth di r))
  /\ (forall r d,
         In r (DataLoader.records Cell df) -> date_of di r = Some d ->
         In d (map fst (DataLoader.rows Cell frame))).
Proof.
  unfold DataLoader.load_data. intros H Hdi. rewrite Hdi in H.
  destruct (existsb _ (DataLoader.remove_nth di _)); [discriminate|].
  destruct (forallb _ _); [|discriminate].
  injection H as <-. cbn [DataLoader.rows].
  set (indexed := index_by_date di (DataLoader.records Cell df)).
  destruct (deduplicated_spec indexed) as (_ & Hkeep & Horigin).
  cbn zeta in Hkeep, Horigin.
  set (unique := if DataLoader.has_duplicates (map fst indexed)
                 then keep_first [] indexed else indexed) in *.
  split.
  - intros d out Hin. apply in_map_iff in Hin.
    destruct Hin as ([d' cells] & E & Hin). cbn [fst snd] in E.
    injection E as -> <-.
    apply (Permutation_in _ (sort_index_perm unique)) in Hin.
    destruct (Horigin _ _ Hin) as (pre_i & post_i & Ei & Hpre).
    destruct (index_by_date_split di _ _ _ _ _ Ei)
      as (pre & r & post & Er & Epre & Hd & Hc).
    exists pre, r, post. repeat split; eauto.
    + intros r' Hr' Hd'. apply Hpre. rewrite <- Epre.
      apply index_by_date_dates. eauto.
    + rewrite Hc. reflexivity.
  - intros r d Hr Hd. rewrite map_map. cbn [fst].
    assert (Hi : In d (map fst indexed)).
    { apply index_by_date_dates. eauto. }
    apply Hkeep in Hi.
    eapply Permutation_in; [|exact Hi].
    apply Permutation_map. symmetry. apply sort_index_perm.
Qed.

Lemma remove_nth_length {A : Type} (i : nat) (l : list A) :
  (i < length l)%nat -> length (DataLoader.remove_nth i l) = (length l - 1)%nat.
Proof.
  revert i. induction l as [|x l IH]; intros i H; [simpl in H; lia|].
  destruct i as [|i]; cbn [DataLoader.remove_nth length] in *; [lia|].
  rewrite IH by lia. lia.
Qed.

(** X22. When every record of the file has as many cells as the header has
    names, every row of the returned frame has as many cells as the frame
    has columns: selecting the required columns never comes up short.  With
    the columns open, high, low, close, volume that is five cells. *)
Theorem load_data_rows_fit_columns (df : DataLoader.Csv Cell)
        (frame : DataLoader.Frame Cell) :
  load_data (Some df) = Some frame ->
  Forall (fun r => length r = length (DataLoader.header Cell df))
         (DataLoader.records Cell df) ->
  Forall (fun row => length (snd row)
                     = length (DataLoader.columns Cell frame))
         (DataLoader.rows Cell frame)
  /\ (DataLoader.columns Cell frame = DataLoader.required_cols ->
      Forall (fun row => length (snd row) = 5%nat)
             (DataLoader.rows Cell frame)).
Proof.
  intros H Hrect.
  assert (Hfit : Forall (fun row => length (snd row)
                                    = length (DataLoader.columns Cell frame))
                        (DataLoader.rows Cell frame)).
  { revert H. unfold DataLoader.load_data.
    set (cols := map normalize (DataLoader.header Cell df)) in *.
    destruct (DataLoader.index_of DataLoader.date_col cols) as [di|] eqn:Edi;
      [|discriminate].
    pose proof (index_of_Some _ _ _ Edi) as Hdi.
    assert (Hlt : (di < length cols)%nat).
    { apply nth_error_Some. congruence. }
    destruct (existsb _ (DataLoader.remove_nth di cols)); [discriminate|].
    set (cols2 := DataLoader.renamed_columns cols di) in *.
    destruct (forallb _ DataLoader.required_cols) eqn:Ereq; [|discriminate].
    intro H. injection H as <-. cbn [DataLoader.rows DataLoader.columns].
    set (indexed := index_by_date di (DataLoader.records Cell df)).
    destruct (deduplicated_spec indexed) as (_ & _ & Horigin).
    cbn zeta in Horigin.
    set (unique := if DataLoader.has_duplicates (map fst indexed)
                   then keep_first [] indexed else indexed) in *.
    assert (Hlen2 : length cols2 = (length cols - 1)%nat).
    { unfold cols2, DataLoader.renamed_columns. cbn zeta.
      destruct (existsb _ (DataLoader.remove_nth di cols));
        unfold DataLoader.rename_volume; rewrite ?length_map;
        now apply remove_nth_length. }
    apply Forall_map, Forall_forall. intros [d cells] Hin. cbn [fst snd].
    apply (Permutation_in _ (sort_index_perm unique)) in Hin.
    destruct (Horigin _ _ Hin) as (pre_i & post_i & Ei & _).
    destruct (index_by_date_split di _ _ _ _ _ Ei)
      as (pre & r & post & Er & _ & _ & Hc).
    assert (Hr : length r = length cols).
    { rewrite Forall_forall in Hrect. unfold cols. rewrite length_map.
      apply Hrect. rewrite Er. apply in_or_app. right. now left. }
    assert (Hcells : length cells = length cols2).
    { rewrite Hc, Hlen2, <- Hr. apply remove_nth_length. lia. }
    unfold DataLoader.select_required, DataLoader.selected_columns.
    apply flat_map_length_eq. intros name _.
    now apply cells_named_length. }
  split; [exact Hfit|].
  intro Hcols. rewrite Hcols in Hfit. exact Hfit.
Qed.

End LoaderFacts.

Lemma load_data_needs_columns_witness :
  exists frame,
    DataLoader.load_data Z (fun c => c) DataLoader.sample_to_datetime
                         (Some DataLoader.sample_csv) = Some frame.
Proof.
  destruct (load_data_needs_columns Z (fun c => c)
              DataLoader.sample_to_datetime) as [_ H].
  destruct (H DataLoader.sample_csv) as (_ & H2 & _).
  apply H2.
  - reflexivity.
  - split.
    + intros name Hin Hne. cbn in Hin.
      repeat (destruct Hin as [<-|Hin]; [cbn; tauto|]). contradiction.
    + right. cbn. tauto.
Defined.

(** The file with both volume columns gives a frame with two volume
    columns. *)
Lemma two_volume_columns :
  option_map (DataLoader.columns Z)
    (DataLoader.load_data Z (fun c => c) DataLoader.sample_to_datetime
                          (Some DataLoader.two_volumes_csv))
  = Some (DataLoader.required_cols ++ [DataLoader.volume_col])
  /\ option_map (fun frame => map snd (DataLoader.rows Z frame))
       (DataLoader.load_data Z (fun c => c) DataLoader.sample_to_datetime
                             (Some DataLoader.two_volumes_csv))
     = Some [[9; 10; 8; 9; 3; 300]%Z; [10; 11; 9; 10; 4; 400]%Z].
Proof. split; vm_compute; reflexivity. Qed.

Lemma load_data_dates_increase_witness :
  exists frame,
    DataLoader.load_data Z (fun c => c) DataLoader.sample_to_datetime
                         (Some DataLoader.sample_csv) = Some frame
    /\ StronglySorted Z.lt (map fst (DataLoader.rows Z frame)).
Proof.
  eexists. split; [vm_compute; reflexivity|].
  apply (load_data_dates_increase Z (fun c => c) DataLoader.sample_to_datetime
           (Some DataLoader.sample_csv)).
  vm_compute. reflexivity.
Defined.

Lemma load_data_keeps_first_record_witness :
  exists frame,
    DataLoader.load_data Z (fun c => c) DataLoader.sample_to_datetime
                         (Some DataLoader.sample_csv) = Some frame
    /\ forall r d,
        In r (DataLoader.records Z DataLoader.sample_csv) ->
        DataLoader.date_of Z DataLoader.sample_to_datetime 0 r = Some d ->
        In d (map fst (DataLoader.rows Z frame)).
Proof.
  eexists. split; [vm_compute; reflexivity|].
  apply (load_data_keeps_first_record Z (fun c => c)
           DataLoader.sample_to_datetime DataLoader.sample_csv).
  - vm_compute. reflexivity.
  - reflexivity.
Defined.

(** ** [print_results] *)



Lemma load_data_rows_fit_columns_witness :
  exists frame,
    DataLoader.load_data Z (fun c => c) DataLoader.sample_to_datetime
                         (Some DataLoader.sample_csv) = Some frame
    /\ Forall (fun row => length (snd row) = 5%nat) (DataLoader.rows Z frame).
Proof.
  eexists. split; [vm_compute; reflexivity|].
  apply (load_data_rows_fit_columns Z (fun c => c)
           DataLoader.sample_to_datetime DataLoader.sample_csv).
  - vm_compute. reflexivity.
  - repeat constructor.
  - reflexivity.
Defined.

(** ** Overflow of the annualisation

    With the real power at integer exponents: a series going from 100 to
    200 over eight hours, with a drawdown of a tenth on the way, is
    annualised by [2.0 ** 1095], which is beyond the largest float, and the
    metric is [+inf]; a capital doubled over eight hours is printed with an
    annualised return of [+inf]. *)
Lemma annualisation_overflows :
  _calculate_objective_metric int_pow
    [(0%Z, 100); (3600%Z, 90); (28800%Z, 200)] = XPInf
  /\ exists pct,
      Summary.print_results int_pow [(0%Z, 1000); (28800%Z, 2000)] 1000
      = Summary.Figures 1000 2000 (XFin pct) XPInf.
Proof.
  split; [vm_compute; reflexivity|].
  eexists. vm_compute. reflexivity.
Qed.
